(** * iidy: the YAML pre-processor of [src/index.ts]

    A shallow embedding of the document transformation pipeline
    ([parseImportType], [loadImports], the [visitNode] tree walker,
    [transformPostImports] and [transform]) together with the properties
    its specification states about it.

    Conventions of the embedding.
    - JavaScript strings are [string] (byte strings); [toLowerCase] acts on
      the ASCII letters, which is all the scheme names need.
    - JavaScript numbers are integers ([Z]) printed in decimal, which is
      what [String] gives below [10^21]; floating point is not modelled.
    - A JavaScript object is an association list in enumeration order with
      pairwise distinct keys ([Obj.wf]); assigning a present key replaces
      its value in place, assigning an absent key appends it.  The
      reordering of integer-like keys by the engine, the members inherited
      from [Object.prototype] ([objectPrototypeKeys]) and lodash's reading
      of keys that contain [.] or [[] as property paths in [_.has] are not
      modelled; [properName] and [ownPath] name the keys and the paths on
      which they make no difference.
    - Values are immutable trees: an object that the source shares
      between two places is two equal values here, and a write into it
      through one place is not seen from the other.
    - The walker runs with a non-empty [Stack], as [transformPostImports]
      starts it; [mkSubEnv] on an empty one throws in the source.
    - Exceptions are values of [error]; a run that exhausts the recursion
      budget is [OutOfFuel], never a result. *)

From Stdlib Require Import String Ascii List ZArith Bool Lia DecimalString DecimalNat.
Import ListNotations.
Open Scope string_scope.
Open Scope list_scope.

Set Implicit Arguments.
Set Warnings "-register-all".

(* ================================================================== *)
(** * Strings *)

Module Str.

Definition colon : ascii := ":"%char.
Definition dot : ascii := "."%char.

(** [s.indexOf(c) > -1] *)
Fixpoint contains_char (c : ascii) (s : string) : bool :=
  match s with
  | EmptyString => false
  | String a r => if Ascii.eqb a c then true else contains_char c r
  end.

(** [s.split(c)[0]]: the part of [s] before the first [c]. *)
Fixpoint before_char (c : ascii) (s : string) : string :=
  match s with
  | EmptyString => EmptyString
  | String a r => if Ascii.eqb a c then EmptyString else String a (before_char c r)
  end.

(** [s.split(c)] as a non-empty list, head first. *)
Fixpoint split_char (c : ascii) (s : string) : string * list string :=
  match s with
  | EmptyString => (EmptyString, [])
  | String a r =>
      let '(h, t) := split_char c r in
      if Ascii.eqb a c then (EmptyString, h :: t) else (String a h, t)
  end.

Definition lower_ascii (a : ascii) : ascii :=
  let n := nat_of_ascii a in
  if andb (Nat.leb 65 n) (Nat.leb n 90) then ascii_of_nat (n + 32) else a.

Fixpoint toLowerCase (s : string) : string :=
  match s with
  | EmptyString => EmptyString
  | String a r => String (lower_ascii a) (toLowerCase r)
  end.

(** [s.startsWith(p)] and [s.indexOf(p) === 0] *)
Definition startsWith (p s : string) : bool := String.prefix p s.

Fixpoint mem (s : string) (l : list string) : bool :=
  match l with
  | [] => false
  | x :: r => if String.eqb x s then true else mem s r
  end.

(** [n.toString()] for an index. *)
Definition of_nat (n : nat) : string := NilZero.string_of_uint (Nat.to_uint n).

Definition of_Z (z : Z) : string := NilZero.string_of_int (Z.to_int z).

(** A canonical array index: the decimal numeral of a natural number. *)
Definition to_index (s : string) : option nat :=
  match NilEmpty.uint_of_string s with
  | Some u => if String.eqb (of_nat (Nat.of_uint u)) s then Some (Nat.of_uint u) else None
  | None => None
  end.

(** The last segment of a dotted path: [path.split('.').pop()]. *)
Definition last_segment (path : string) : string :=
  let '(h, t) := split_char dot path in last t h.

(** [s.indexOf(p) > -1] for a substring [p]. *)
Fixpoint contains (p s : string) : bool :=
  if String.prefix p s then true
  else match s with
       | EmptyString => false
       | String _ r => contains p r
       end.

Definition is_newline (a : ascii) : bool :=
  orb (Ascii.eqb a "010"%char) (Ascii.eqb a "013"%char).

(** After an opening [{{]: is there a closing [}}] before the end of the line? *)
Fixpoint closes_on_line (s : string) : bool :=
  if String.prefix "}}" s then true
  else match s with
       | EmptyString => false
       | String a r => if is_newline a then false else closes_on_line r
       end.

(** [s.search(/{{(.*?)}}/) > -1] *)
Fixpoint has_mustache (s : string) : bool :=
  match s with
  | EmptyString => false
  | String a r =>
      let opens :=
        match r with
        | String b r' => andb (Ascii.eqb a "{"%char) (andb (Ascii.eqb b "{"%char) (closes_on_line r'))
        | EmptyString => false
        end in
      if opens then true else has_mustache r
  end.

Definition is_digit (a : ascii) : bool :=
  andb (Nat.leb 48 (nat_of_ascii a)) (Nat.leb (nat_of_ascii a) 57).

Fixpoint all_digits (s : string) : bool :=
  match s with
  | EmptyString => true
  | String a r => andb (is_digit a) (all_digits r)
  end.

End Str.

(* ================================================================== *)
(** * Results *)

(** One constructor per [throw] of [src/index.ts]; [TypeError] stands for
    the engine's own exception on a property read of [undefined] or [null]
    or a method call on a value that lacks the method. *)
Inductive error : Type :=
| ImportNotAllowedFromRemote (location baseLocation : string)
| UnknownImportType (location baseLocation : string)
| LoaderFailure (location baseLocation : string)
| InvalidImports (baseLocation : string)
| DuplicateImportName (asKey baseLocation : string)
| DefsCollision (key baseLocation : string)
| ParamsCollision (name baseLocation : string)
| StringTemplateError (context template : string)
| InvalidLookupKey (path : string)
| CouldNotFind (key path : string)
| CouldNotFindPath (key path : string)
| MergeKeyPresent (key path : string)
| MissingRequiredParameter (param name : string)
| InvalidSchema (param name : string)
| ParameterValidationError (param name : string)
| InvalidAllowedPattern (param name : string)
| InvalidResourceType (path : string)
| InvalidExpandArguments
| InvalidFlattenArgument (path : string)
| UnreachableEnvValues (path : string)
| TemplateNotExpanded (path : string)
| YamlParseError (path : string)
| RegExpSyntaxError (pattern : string)
| TypeError.

Inductive result (A : Type) : Type :=
| Ok (a : A)
| Err (e : error)
| OutOfFuel.

Arguments Ok {A} a.
Arguments Err {A} e.
Arguments OutOfFuel {A}.

Definition rbind {A B} (r : result A) (f : A -> result B) : result B :=
  match r with
  | Ok a => f a
  | Err e => Err e
  | OutOfFuel => OutOfFuel
  end.

(* ================================================================== *)
(** * Import locations: [parseImportType] *)

Definition ImportLocation := string.
Definition ImportType := string.

Definition importTypes : list ImportType :=
  ["ssm"; "ssm-path"; "file"; "s3"; "http"; "env"; "git"; "random"; "filehash"; "literal"].

Definition localOnlyImportTypes : list ImportType := ["file"; "env"].

Definition parseImportType (location baseLocation : ImportLocation) : result ImportType :=
  let hasExplicitType := Str.contains_char Str.colon location in
  let importType :=
    if hasExplicitType
    then Str.before_char Str.colon (Str.toLowerCase location)
    else "file" in
  let baseImportType :=
    if Str.contains_char Str.colon baseLocation
    then Str.before_char Str.colon (Str.toLowerCase baseLocation)
    else "file" in
  if Str.mem baseImportType ["s3"; "http"] then
    if negb hasExplicitType then Ok baseImportType
    else if Str.mem importType localOnlyImportTypes
         then Err (ImportNotAllowedFromRemote location baseLocation)
         else Ok importType
  else if Str.mem importType importTypes then Ok importType
  else Err (UnknownImportType location baseLocation).

(* ================================================================== *)
(** * The document data model *)

(** Modelled from the spec: the tag classes of [./yaml] (not under [src/]).
    "A tagged node is a (tag-kind, payload) pair"; the kinds are the ones
    [visitYamlTagNode] dispatches on, and every other tag is a pass-through
    tag that keeps its name. *)
Inductive TagKind : Type :=
| Tag_include
| Tag_expand
| Tag_escape
| Tag_string
| Tag_parseYaml
| Tag_let
| Tag_map
| Tag_flatten
| Tag_concatMap
| Tag_mapListToHash
| Tag_fromPairs
| Tag_Ref
| Tag_other (name : string).

(** A document node.  [VDate] carries the date's [toISOString()]. *)
Inductive value : Type :=
| VUndefined
| VNull
| VBool (b : bool)
| VNum (z : Z)
| VStr (s : string)
| VDate (iso : string)
| VArr (l : list value)
| VObj (m : list (string * value))
| VTag (k : TagKind) (data : value).

Definition object := list (string * value).

(** ** Objects as association lists *)

Module Obj.

Fixpoint get (k : string) (m : object) : option value :=
  match m with
  | [] => None
  | (k', v) :: r => if String.eqb k' k then Some v else get k r
  end.

Definition has (k : string) (m : object) : bool :=
  match get k m with Some _ => true | None => false end.

(** [m[k] = v] *)
Fixpoint set (k : string) (v : value) (m : object) : object :=
  match m with
  | [] => [(k, v)]
  | (k', v') :: r => if String.eqb k' k then (k, v) :: r else (k', v') :: set k v r
  end.

(** [delete m[k]] *)
Fixpoint remove (k : string) (m : object) : object :=
  match m with
  | [] => []
  | (k', v') :: r => if String.eqb k' k then remove k r else (k', v') :: remove k r
  end.

Definition keys (m : object) : list string := map fst m.

Definition values (m : object) : list value := map snd m.

(** [_.fromPairs]: later pairs overwrite earlier ones. *)
Definition fromPairs (ps : list (string * value)) : object :=
  fold_left (fun m p => set (fst p) (snd p) m) ps [].

Definition wf (m : object) : Prop := NoDup (keys m).

Fixpoint distinct (l : list string) : bool :=
  match l with
  | [] => true
  | x :: r => andb (negb (Str.mem x r)) (distinct r)
  end.

(** [wf], decided. *)
Definition wfb (m : object) : bool := distinct (keys m).

End Obj.

(** ** JavaScript primitives *)

Module JS.

Definition truthy (v : value) : bool :=
  match v with
  | VUndefined | VNull => false
  | VBool b => b
  | VNum z => negb (Z.eqb z 0)
  | VStr s => negb (String.eqb s EmptyString)
  | VDate _ | VArr _ | VObj _ | VTag _ _ => true
  end.

Definition isUndefined (v : value) : bool :=
  match v with VUndefined => true | _ => false end.

(** [_.isObject] *)
Definition isObject (v : value) : bool :=
  match v with
  | VDate _ | VArr _ | VObj _ | VTag _ _ => true
  | _ => false
  end.

Fixpoint chars (s : string) : list value :=
  match s with
  | EmptyString => []
  | String a r => VStr (String a EmptyString) :: chars r
  end.

Fixpoint indexed_from (i : nat) (l : list value) : object :=
  match l with
  | [] => []
  | v :: r => (Str.of_nat i, v) :: indexed_from (S i) r
  end.

(** The own enumerable string-keyed properties of a value, as [for..in],
    [_.keys] and [_.toPairs] enumerate them.  A tag instance and a date
    contribute none. *)
Definition own_entries (v : value) : object :=
  match v with
  | VObj m => m
  | VArr l => indexed_from 0 l
  | VStr s => indexed_from 0 (chars s)
  | _ => []
  end.

(** [v[k]] where [v] is known to be neither [undefined] nor [null]: the
    own entries of [v], the [length] of a sequence or a string, the
    payload of a tagged value.  A member inherited from a prototype is not
    found. *)
Definition index (v : value) (k : string) : value :=
  match v with
  | VObj m => match Obj.get k m with Some x => x | None => VUndefined end
  | VArr l =>
      if String.eqb k "length" then VNum (Z.of_nat (List.length l))
      else match Str.to_index k with
           | Some i => nth i l VUndefined
           | None => VUndefined
           end
  | VStr s =>
      if String.eqb k "length" then VNum (Z.of_nat (String.length s))
      else match Str.to_index k with
           | Some i => nth i (chars s) VUndefined
           | None => VUndefined
           end
  | VTag _ d => if String.eqb k "data" then d else VUndefined
  | _ => VUndefined
  end.

(** [v.k]: a property read throws on [undefined] and [null]. *)
Definition prop (v : value) (k : string) : result value :=
  match v with
  | VUndefined | VNull => Err TypeError
  | _ => Ok (index v k)
  end.

(** [===] on primitives; two object references met by the walker are
    never the same object. *)
Definition same_value_zero (a b : value) : bool :=
  match a, b with
  | VUndefined, VUndefined => true
  | VNull, VNull => true
  | VBool x, VBool y => Bool.eqb x y
  | VNum x, VNum y => Z.eqb x y
  | VStr x, VStr y => String.eqb x y
  | _, _ => false
  end.

Fixpoint join (sep : string) (l : list string) : string :=
  match l with
  | [] => EmptyString
  | [x] => x
  | x :: r => x ++ sep ++ join sep r
  end.

End JS.

(* ================================================================== *)
(** * Effects of the tree walker *)

Notation "'let*' x ':=' r 'in' k" := (rbind r (fun x => k))
  (at level 10, x name, r at level 100, k at level 200).
Notation "'let*' ' p ':=' r 'in' k" := (rbind r (fun p => k))
  (at level 10, p strict pattern, r at level 100, k at level 200).

Fixpoint mapR {A B} (f : A -> result B) (l : list A) : result (list B) :=
  match l with
  | [] => Ok []
  | x :: r => let* y := f x in let* ys := mapR f r in Ok (y :: ys)
  end.

(** [CfnDoc]: a document whose top-level keys are the sections. *)
Definition CfnDoc := object.

(** The walker threads one shared [GlobalAccumulator] through every call
    (each [Env] of the source points to the same object) and may throw. *)
Definition M (A : Type) : Type := CfnDoc -> result (A * CfnDoc).

Definition ret {A} (a : A) : M A := fun acc => Ok (a, acc).

Definition bind {A B} (m : M A) (f : A -> M B) : M B :=
  fun acc =>
    match m acc with
    | Ok (a, acc') => f a acc'
    | Err e => Err e
    | OutOfFuel => OutOfFuel
    end.

Definition throw {A} (e : error) : M A := fun _ => Err e.

Definition lift {A} (r : result A) : M A :=
  fun acc =>
    match r with
    | Ok a => Ok (a, acc)
    | Err e => Err e
    | OutOfFuel => OutOfFuel
    end.

Notation "'do' x <- m ;; k" := (bind m (fun x => k))
  (at level 10, x name, m at level 100, k at level 200).
Notation "'do' ' p <- m ;; k" := (bind m (fun p => k))
  (at level 10, p strict pattern, m at level 100, k at level 200).

Fixpoint mapM {A B} (f : A -> M B) (l : list A) : M (list B) :=
  match l with
  | [] => ret []
  | x :: r => do y <- f x ;; do ys <- mapM f r ;; ret (y :: ys)
  end.

Fixpoint foldM {A S} (f : S -> A -> M S) (l : list A) (s : S) : M S :=
  match l with
  | [] => ret s
  | x :: r => do s' <- f s x ;; foldM f r s'
  end.

Fixpoint forEachM {A} (f : A -> M unit) (l : list A) : M unit :=
  match l with
  | [] => ret tt
  | x :: r => do _ <- f x ;; forEachM f r
  end.

(* ================================================================== *)
(** * The libraries the pre-processor calls *)

(** What [src/index.ts] imports from outside the repository (handlebars,
    js-yaml through [./yaml], tv4, the regular-expression engine, [os] and
    [crypto]) is taken as an interface; every definition below is
    parametric in it. *)
Class Host : Type := {
  (** [handlebars.compile(t, {noEscape, strict})(env)]; [None] when it throws *)
  handlebars_render : string -> object -> option string;
  (** [yaml.dump] *)
  yaml_dump : value -> string;
  (** [yaml.loadString]; [None] when it throws *)
  yaml_loadString : value -> option value;
  (** [tv4.validateResult(value, schema).valid] *)
  tv4_valid : value -> value -> bool;
  (** [subject.match(new RegExp(pattern))] is truthy; [None] when the pattern is rejected *)
  regexp_match : string -> string -> option bool;
  (** [Date.prototype.toString] of the date with the given ISO rendering *)
  date_toString : string -> string;
  os_hostname : string;
  os_username : string;
  (** [crypto.createHash('sha256').update(s).digest('hex')] *)
  sha256Digest : string -> string
}.

Section Preprocessor.

Context {host : Host}.

(** [String(v)], the coercion of template literals and property keys;
    a number is printed in decimal (see [printable]). *)
Fixpoint toStr (v : value) : string :=
  match v with
  | VUndefined => "undefined"
  | VNull => "null"
  | VBool true => "true"
  | VBool false => "false"
  | VNum z => Str.of_Z z
  | VStr s => s
  | VDate iso => date_toString iso
  | VArr l =>
      JS.join "," (map (fun x => match x with
                                 | VUndefined | VNull => EmptyString
                                 | _ => toStr x
                                 end) l)
  | VObj _ | VTag _ _ => "[object Object]"
  end.

(** ** lodash *)

(** [_.includes(collection, target)]: membership among the elements of an
    array or the values of an object, substring test on a string. *)
Definition _includes (collection target : value) : bool :=
  match collection with
  | VStr s => Str.contains (toStr target) s
  | VArr l => existsb (JS.same_value_zero target) l
  | VObj m => existsb (JS.same_value_zero target) (Obj.values m)
  | _ => false
  end.

(** [_.has(v, key)] for a plain key. *)
Definition _has (v : value) (k : string) : bool := Obj.has k (JS.own_entries v).

Definition _keys (v : value) : list string := Obj.keys (JS.own_entries v).

Definition _toPairs (v : value) : list (string * value) := JS.own_entries v.

Definition _isArray (v : value) : bool :=
  match v with VArr _ => true | _ => false end.

Definition _isPlainObject (v : value) : bool :=
  match v with VObj _ => true | _ => false end.

(** [_.get(v, path)] for a path given as an array of keys. *)
Fixpoint baseGet (v : value) (path : list string) : value :=
  match path with
  | [] => v
  | k :: p =>
      match v with
      | VUndefined | VNull => VUndefined
      | _ => baseGet (JS.index v k) p
      end
  end.

Definition _get (v : value) (path : list string) : value :=
  match path with
  | [] => VUndefined
  | _ => baseGet v path
  end.

(** [_.omit(v, [k])] *)
Definition _omit (v : value) (k : string) : object := Obj.remove k (JS.own_entries v).

Definition _isEmpty (v : value) : bool :=
  match v with
  | VArr [] | VObj [] | VStr EmptyString => true
  | VArr _ | VObj _ | VStr _ | VTag _ _ => false
  | _ => true
  end.

Fixpoint insert_sorted (s : string) (l : list string) : list string :=
  match l with
  | [] => [s]
  | x :: r => if String.leb s x then s :: l else x :: insert_sorted s r
  end.

(** [_.sortBy] on a list of strings *)
Definition _sortBy (l : list string) : list string := fold_right insert_sorted [] l.

(** The elements [_.map], [_.every] and [_.forEach] hand to the iteratee,
    each with its index (a number for an array or a string, the key for an
    object). *)
Fixpoint elements_from (i : nat) (l : list value) : list (value * value) :=
  match l with
  | [] => []
  | v :: r => (VNum (Z.of_nat i), v) :: elements_from (S i) r
  end.

Definition elements (collection : value) : list (value * value) :=
  match collection with
  | VArr l => elements_from 0 l
  | VStr s => elements_from 0 (JS.chars s)
  | VObj m => map (fun kv => (VStr (fst kv), snd kv)) m
  | _ => []
  end.

Definition _every (collection : value) (p : value -> bool) : bool :=
  forallb (fun iv => p (snd iv)) (elements collection).

(** *** [_.merge] *)

Fixpoint list_set (i : nat) (v : value) (l : list value) : list value :=
  match i, l with
  | O, [] => [v]
  | O, _ :: r => v :: r
  | S j, [] => VUndefined :: list_set j v []
  | S j, x :: r => x :: list_set j v r
  end.

(** [object[key] = v]; a named property given to an array, a tag or a
    date is not observable by the walker and is dropped. *)
Definition set_prop (object : value) (key : string) (v : value) : value :=
  match object with
  | VObj m => VObj (Obj.set key v m)
  | VArr l =>
      match Str.to_index key with
      | Some i => VArr (list_set i v l)
      | None => object
      end
  | _ => object
  end.

(** [key in object] *)
Definition in_object (object : value) (key : string) : bool :=
  match object with
  | VObj m => Obj.has key m
  | VArr l =>
      match Str.to_index key with
      | Some i => Nat.ltb i (List.length l)
      | None => String.eqb key "length"
      end
  | _ => false
  end.

Definition assignMergeValue (object : value) (key : string) (v : value) : value :=
  match v with
  | VUndefined => if in_object object key then object else set_prop object key VUndefined
  | _ => set_prop object key v
  end.

(** [baseMerge(object, source)] with [baseMergeDeep] inlined: an array
    merges index-wise into an array (a fresh one when the destination holds
    none), a plain object merges key-wise into any object (a fresh one when
    the destination holds none), everything else is assigned as it is. *)
Fixpoint baseMerge (object source : value) {struct source} : value :=
  match source with
  | VObj m =>
      (fix each (m : list (string * value)) (object : value) {struct m} : value :=
         match m with
         | [] => object
         | (key, srcValue) :: m' =>
             let objValue := JS.index object key in
             let newValue :=
               match srcValue with
               | VArr _ =>
                   baseMerge (if _isArray objValue then objValue else VArr []) srcValue
               | VObj _ =>
                   baseMerge (if JS.isObject objValue then objValue else VObj []) srcValue
               | _ => srcValue
               end in
             each m' (assignMergeValue object key newValue)
         end) m object
  | VArr l =>
      (fix each (l : list value) (i : nat) (object : value) {struct l} : value :=
         match l with
         | [] => object
         | srcValue :: l' =>
             let key := Str.of_nat i in
             let objValue := JS.index object key in
             let newValue :=
               match srcValue with
               | VArr _ =>
                   baseMerge (if _isArray objValue then objValue else VArr []) srcValue
               | VObj _ =>
                   baseMerge (if JS.isObject objValue then objValue else VObj []) srcValue
               | _ => srcValue
               end in
             each l' (S i) (assignMergeValue object key newValue)
         end) l 0 object
  | VStr s =>
      fold_left (fun o kv => assignMergeValue o (fst kv) (snd kv))
                (JS.indexed_from 0 (JS.chars s)) object
  | _ => object
  end.

(** The value [baseMergeDeep] computes for one property. *)
Definition mergeNew (objValue srcValue : value) : value :=
  match srcValue with
  | VArr _ => baseMerge (if _isArray objValue then objValue else VArr []) srcValue
  | VObj _ => baseMerge (if JS.isObject objValue then objValue else VObj []) srcValue
  | _ => srcValue
  end.

(** One iteration of [baseMerge], and its loops over the entries of an
    object and the elements of an array. *)
Definition mergeStep (object : value) (key : string) (srcValue : value) : value :=
  assignMergeValue object key (mergeNew (JS.index object key) srcValue).

Fixpoint mergeEntries (m : list (string * value)) (object : value) : value :=
  match m with
  | [] => object
  | (key, srcValue) :: m' => mergeEntries m' (mergeStep object key srcValue)
  end.

Fixpoint mergeElements (l : list value) (i : nat) (object : value) : value :=
  match l with
  | [] => object
  | srcValue :: l' => mergeElements l' (S i) (mergeStep object (Str.of_nat i) srcValue)
  end.

(** [_.merge(object, ...sources)] *)
Definition _merge (object : value) (sources : list value) : value :=
  fold_left baseMerge sources object.

(** [_.merge({...}, ...sources)] read back as an object. *)
Definition merge_obj (target : object) (sources : list value) : object :=
  JS.own_entries (_merge (VObj target) sources).

(** [_.extend(object, source)] *)
Definition _extend (target : object) (source : value) : object :=
  fold_left (fun o kv => Obj.set (fst kv) (snd kv) o) (JS.own_entries source) target.

(** [_.fromPairs] of pairs whose first component is any value. *)
Definition _fromPairs (ps : list (value * value)) : object :=
  Obj.fromPairs (map (fun p => (toStr (fst p), snd p)) ps).

(* ================================================================== *)
(** * Import loading: [loadImports] *)

Record ImportData : Type := {
  importType : ImportType;
  resolvedLocation : ImportLocation;
  data : string;
  doc : value
}.

Record ImportRecord : Type := {
  ir_key : string;
  ir_from : ImportLocation;
  ir_imported : ImportLocation;
  ir_sha256Digest : string
}.

(** The record as the object literal pushed by [loadImports]. *)
Definition ImportRecord_value (r : ImportRecord) : value :=
  VObj [("from", VStr (ir_from r));
        ("imported", VStr (ir_imported r));
        ("sha256Digest", VStr (ir_sha256Digest r));
        ("key", VStr (ir_key r))].

(** The pluggable loader; the default one, [readFromImportLocation],
    performs input and output and is not modelled beyond
    [parseImportType]. *)
Definition ImportLoader := ImportLocation -> ImportLocation -> result ImportData.

Definition interpolateHandlebarsString
  (templateString : string) (env : object) (errorContext : string) : result string :=
  match handlebars_render templateString env with
  | Some s => Ok s
  | None => Err (StringTemplateError errorContext templateString)
  end.

(** [if (_.isObject(d)) d.$location = loc] *)
Definition stamp_location (d : value) (loc : string) : value :=
  match d with
  | VObj m => VObj (Obj.set "$location" (VStr loc) m)
  | _ => d
  end.

(** Lines 391-394: the duplicate check and the binding of one import. *)
Definition bindImport (envValues : object) (asKey : string) (baseLocation : ImportLocation)
  (d : value) : result object :=
  if _includes (VObj envValues) (VStr asKey)
  then Err (DuplicateImportName asKey baseLocation)
  else Ok (Obj.set asKey d envValues).

(** Lines 401-409: [$defs] join the environment unless a name is taken. *)
Fixpoint loadDefs (defs : object) (envValues : object) (baseLocation : ImportLocation)
  : result object :=
  match defs with
  | [] => Ok envValues
  | (k, v) :: rest =>
      if Str.mem k (Obj.keys envValues)
      then Err (DefsCollision k baseLocation)
      else loadDefs rest (Obj.set k v envValues) baseLocation
  end.

(** Lines 410-418: the names of [$params] must be free. *)
Fixpoint checkParams (params : list value) (envValues : object) (baseLocation : ImportLocation)
  : result unit :=
  match params with
  | [] => Ok tt
  | p :: rest =>
      let* name := JS.prop p "Name" in
      if _includes (VArr (map VStr (Obj.keys envValues))) name
      then Err (ParamsCollision (toStr name) baseLocation)
      else checkParams rest envValues baseLocation
  end.

(** [loadImports(doc, baseLocation, importsAccum, importLoader)], with
    the document named [thisDoc].  The source mutates the document and
    pushes onto [importsAccum]; here both are returned.  An imported
    document is bound in [$envValues] before the recursive call annotates
    it; since the binding holds a reference, the environment sees the
    annotated document, which is what is bound here. *)
Fixpoint loadImports (fuel : nat) (importLoader : ImportLoader) (thisDoc : object)
  (baseLocation : ImportLocation) (importsAccum : list ImportRecord) {struct fuel}
  : result (object * list ImportRecord) :=
  match fuel with
  | O => OutOfFuel
  | S fuel' =>
      let thisDoc := Obj.set "$envValues" (VObj []) thisDoc in
      let imports := JS.index (VObj thisDoc) "$imports" in
      let* '(envValues, importsAccum) :=
        if JS.truthy imports then
          if negb (_isPlainObject imports) then Err (InvalidImports baseLocation)
          else
            (fix each (entries : object) (envValues : object) (importsAccum : list ImportRecord)
               {struct entries} : result (object * list ImportRecord) :=
               match entries with
               | [] => Ok (envValues, importsAccum)
               | (asKey, VStr loc0) :: rest =>
                   let* loc :=
                     if Str.has_mustache loc0
                     then interpolateHandlebarsString loc0 envValues (baseLocation ++ ": " ++ asKey)
                     else Ok loc0 in
                   let* importData := importLoader loc baseLocation in
                   let d := stamp_location (doc importData) loc in
                   let importsAccum :=
                     importsAccum ++ [{| ir_key := asKey;
                                         ir_from := baseLocation;
                                         ir_imported := resolvedLocation importData;
                                         ir_sha256Digest := sha256Digest (data importData) |}] in
                   let* envValues := bindImport envValues asKey baseLocation d in
                   let* sub_imports := JS.prop d "$imports" in
                   let* sub_defs := JS.prop d "$defs" in
                   match d with
                   | VObj m =>
                       if orb (JS.truthy sub_imports) (JS.truthy sub_defs) then
                         let* '(m', importsAccum) :=
                           loadImports fuel' importLoader m (resolvedLocation importData)
                                       importsAccum in
                         each rest (Obj.set asKey (VObj m') envValues) importsAccum
                       else each rest envValues importsAccum
                   | _ => each rest envValues importsAccum
                   end
               | (_, _) :: _ => Err TypeError
               end) (JS.own_entries imports) [] importsAccum
        else Ok ([], importsAccum) in
      let defs := JS.index (VObj thisDoc) "$defs" in
      let* envValues :=
        if JS.truthy defs then loadDefs (JS.own_entries defs) envValues baseLocation
        else Ok envValues in
      let params := JS.index (VObj thisDoc) "$params" in
      let* _ :=
        if JS.truthy params then
          match params with
          | VArr ps => checkParams ps envValues baseLocation
          | VStr _ => Ok tt
          | _ => Err TypeError
          end
        else Ok tt in
      Ok (Obj.set "$envValues" (VObj envValues) thisDoc, importsAccum)
  end.


(* ================================================================== *)
(** * The tree walker *)

Record StackFrame : Type := {
  frame_location : value;
  frame_path : string
}.

(** [Env] without its [GlobalAccumulator], which is the state of [M]. *)
Record Env : Type := {
  envValues : object;
  Stack : list StackFrame
}.

Definition visitor : Type := value -> string -> Env -> M value.

Definition GlobalSections : list string :=
  ["Parameters"; "Metadata"; "Mappings"; "Conditions"; "Transform"; "Outputs"].

(** [mkSubEnv(env, $envValues, frame)]; an absent [frame.location] is
    [VUndefined].  The source reads the last frame of [env.Stack], which
    every run started by [transformPostImports] has. *)
Definition mkSubEnv (env : Env) (newEnvValues : object) (frame : StackFrame) : Env :=
  let stackFrame :=
    {| frame_location :=
         if JS.truthy (frame_location frame) then frame_location frame
         else frame_location (last (Stack env)
                                   {| frame_location := VUndefined;
                                      frame_path := EmptyString |});
       frame_path := frame_path frame |} in
  {| envValues := newEnvValues; Stack := Stack env ++ [stackFrame] |}.

(** [lookupInEnv(key, path, env)], among the names the environment binds
    itself. *)
Definition lookupInEnv (key : value) (path : string) (env : Env) : result value :=
  match key with
  | VStr k =>
      match JS.index (VObj (envValues env)) k with
      | VUndefined => Err (CouldNotFind k path)
      | res => Ok res
      end
  | _ => Err (InvalidLookupKey path)
  end.

Definition appendPath (rootPath suffix : string) : string :=
  if JS.truthy (VStr rootPath) then rootPath ++ "." ++ suffix else suffix.

(** [[].concat.apply([], arrs)]: one level of flattening; [apply] accepts
    [undefined], [null] and any object as the argument list and rejects
    the other primitives.  An object that is not a sequence is read
    through its [length]: it gives the empty list when it has none, which
    is the case modelled. *)
Definition _flatten (arrs : value) : result value :=
  match arrs with
  | VArr l => Ok (VArr (concat (map (fun x => match x with VArr xs => xs | _ => [x] end) l)))
  | VUndefined | VNull | VObj _ | VTag _ _ | VDate _ => Ok (VArr [])
  | VStr _ | VNum _ | VBool _ => Err TypeError
  end.

(** [_.fromPairs(_.map(objects, ({key, value}) => [key, value]))] *)
Definition _liftKVPairs (objects : value) : result object :=
  let* ps := mapR (fun iv =>
                     let* k := JS.prop (snd iv) "key" in
                     let* v := JS.prop (snd iv) "value" in
                     Ok (k, v)) (elements objects) in
  Ok (_fromPairs ps).

Definition mapCustomResourceToGlobalSections
  (visitNode : visitor) (resourceDoc : object) (path : string) (env : Env) : M unit :=
  forEachM (fun section =>
    let sectionDoc := JS.index (VObj resourceDoc) section in
    if JS.truthy sectionDoc then
      do visited <- visitNode sectionDoc (appendPath path section) env ;;
      let prefixed :=
        Obj.fromPairs
          (map (fun kv => ((toStr (JS.index (VObj (envValues env)) "Prefix") ++ fst kv)%string,
                           snd kv))
               (_toPairs visited)) in
      fun globalAccumulator =>
        match Obj.get section globalAccumulator with
        | Some (VUndefined | VNull) | None => Ok (tt, globalAccumulator)
        | Some target =>
            Ok (tt, Obj.set section (_merge target [VObj prefixed]) globalAccumulator)
        end
    else ret tt) GlobalSections.

(** The inner loop of [visitMapNode]: the entries of an evaluated
    [$merge] value join the result unless their key is already there.
    [_.has(res, k2)] is the test for an own entry when [k2] is a
    [properName]. *)
Definition mergeInto (path : string) (sub : value) (res : object) : M object :=
  foldM (fun res kv2 =>
           let '(k2, v2) := kv2 in
           if Obj.has k2 res then throw (MergeKeyPresent k2 path)
           else ret (Obj.set k2 v2 res))
        (JS.own_entries sub) res.

(** One iteration of the loop of [visitMapNode]. *)
Definition visitMapEntry (visitNode : visitor) (path : string) (env : Env)
  (res : object) (kv : string * value) : M object :=
  let '(k, v) := kv in
  if Str.startsWith "$merge" k then
    do sub <- visitNode v (appendPath path k) env ;;
    mergeInto path sub res
  else if Str.mem k ["$envValues"; "$imports"; "$params"; "$location"] then ret res
  else
    do r <- visitNode v (appendPath path k) env ;;
    ret (Obj.set k r res).

Definition visitMapNode (visitNode : visitor) (node : object) (path : string) (env : Env)
  : M value :=
  do res <- foldM (visitMapEntry visitNode path env) node [] ;;
  ret (VObj res).

Definition visitArray (visitNode : visitor) (node : list value) (path : string) (env : Env)
  : M value :=
  do res <- mapM (fun iv => visitNode (snd iv) (appendPath path (fst iv)) env)
                 (JS.indexed_from 0 node) ;;
  ret (VArr res).

Definition visitStringNode (node : string) (path : string) (env : Env) : M value :=
  if Str.has_mustache node then
    do s <- lift (interpolateHandlebarsString node (envValues env) path) ;;
    ret (VStr s)
  else ret (VStr node).

(** [Type.indexOf(p) === 0] *)
Definition type_starts (ty : value) (p : string) : result bool :=
  match ty with
  | VStr s => Ok (Str.startsWith p s)
  | VArr l => Ok (JS.same_value_zero (nth 0 l VUndefined) (VStr p))
  | _ => Err TypeError
  end.

(** The checks of one declared [$param] against the merged parameters. *)
Definition validateParam (mergedParams : object) (name : string) (param : value) : result unit :=
  let* pName := JS.prop param "Name" in
  let paramValue := JS.index (VObj mergedParams) (toStr pName) in
  if JS.isUndefined paramValue then Err (MissingRequiredParameter (toStr pName) name)
  else if JS.truthy (JS.index param "Schema") then
    if negb (JS.isObject (JS.index param "Schema")) then Err (InvalidSchema (toStr pName) name)
    else if negb (tv4_valid paramValue (JS.index param "Schema"))
         then Err (ParameterValidationError (toStr pName) name)
         else Ok tt
  else if JS.truthy (JS.index param "AllowedValues") then
    if negb (_includes (JS.index param "AllowedValues") paramValue)
    then Err (ParameterValidationError (toStr pName) name)
    else Ok tt
  else if JS.truthy (JS.index param "AllowedPattern") then
    match regexp_match (toStr (JS.index param "AllowedPattern"))
                       (match paramValue with VStr s => s | _ => EmptyString end) with
    | None => Err (RegExpSyntaxError (toStr (JS.index param "AllowedPattern")))
    | Some matched =>
        if andb (match paramValue with VStr _ => true | _ => false end) matched
        then Ok tt
        else Err (InvalidAllowedPattern (toStr pName) name)
    end
  else Ok tt.

(** The branch of [visitResourceNode] for a resource whose [Type] names
    a template in scope. *)
Definition expandResourceTemplate
  (visitNode : visitor) (name : string) (resource template : value) (path : string) (env : Env)
  : M (list (string * value)) :=
  let namePrefix := JS.index resource "NamePrefix" in
  let prefix := if JS.isUndefined namePrefix then VStr name else namePrefix in
  let stackFrame :=
    {| frame_location := JS.index template "$location"; frame_path := appendPath path name |} in
  do overrides <- visitNode (JS.index resource "Overrides")
                            (appendPath path (name ++ ".Overrides")) env ;;
  let resourceDoc := merge_obj [] [template; overrides] in
  let paramDefaultsEnv :=
    mkSubEnv env (merge_obj [("Prefix", prefix)] [JS.index template "$envValues"]) stackFrame in
  do defaults <-
    mapM (fun iv =>
            do pName <- lift (JS.prop (snd iv) "Name") ;;
            do dflt <- visitNode (JS.index (snd iv) "Default")
                                 (appendPath path (name ++ ".$params." ++ toStr pName))
                                 paramDefaultsEnv ;;
            ret (pName, dflt))
         (elements (JS.index template "$params")) ;;
  let paramDefaults :=
    _fromPairs (filter (fun kv => negb (JS.isUndefined (snd kv))) defaults) in
  do providedParams <- visitNode (JS.index resource "Properties")
                                 (appendPath path (name ++ ".Properties")) env ;;
  let mergedParams := merge_obj [] [VObj paramDefaults; providedParams] in
  do _ <- lift (mapR (fun iv => validateParam mergedParams name (snd iv))
                     (elements (JS.index template "$params"))) ;;
  let subEnv :=
    mkSubEnv env
             (merge_obj [("Prefix", prefix)]
                        [VObj paramDefaults; providedParams; JS.index template "$envValues"])
             stackFrame in
  do outputResources <- visitNode (JS.index (VObj resourceDoc) "Resources")
                                  (appendPath path (name ++ ".Resources")) subEnv ;;
  do _ <- mapCustomResourceToGlobalSections visitNode resourceDoc path subEnv ;;
  ret (map (fun kv => ((toStr (JS.index (VObj (envValues subEnv)) "Prefix") ++ fst kv)%string,
                       snd kv))
           (_toPairs outputResources)).

Definition visitResourceNode (visitNode : visitor) (node : value) (path : string) (env : Env)
  : M value :=
  do pairs <-
    mapM (fun nr =>
            let '(name, resource) := nr in
            do ty <- lift (JS.prop resource "Type") ;;
            let template := JS.index (VObj (envValues env)) (toStr ty) in
            if JS.truthy template then
              expandResourceTemplate visitNode name resource template path env
            else if JS.truthy ty then
              do isAws <- lift (type_starts ty "AWS") ;;
              do isNative <- (if isAws then ret true else lift (type_starts ty "Custom")) ;;
              if (isNative : bool) then
                do r <- visitNode resource (appendPath path name) env ;;
                ret [(name, r)]
              else throw (InvalidResourceType path)
            else throw (InvalidResourceType path))
         (_toPairs node) ;;
  ret (VObj (Obj.fromPairs (concat pairs))).

(** [mkSubEnv(env, _.merge({}, params, env.$envValues), {path})] *)
Definition expandSubEnv (env : Env) (params : value) (path : string) : Env :=
  mkSubEnv env (merge_obj [] [params; VObj (envValues env)])
           {| frame_location := VUndefined; frame_path := path |}.

(** [_.clone(template)] followed by [delete template.$params], which
    throws on [null]. *)
Definition cloneWithoutParams (template : value) : result value :=
  match template with
  | VUndefined | VNull => Err TypeError
  | VObj m => Ok (VObj (Obj.remove "$params" m))
  | _ => Ok template
  end.

(** [_.isEqual(_.sortBy(_.keys(data)), ['params', 'template'])] *)
Definition expandArgumentsOk (nodeData : value) : bool :=
  if list_eq_dec string_dec (_sortBy (_keys nodeData)) ["params"; "template"]
  then true else false.

Definition visit_Expand (visitNode : visitor) (nodeData : value) (path : string) (env : Env)
  : M value :=
  if negb (expandArgumentsOk nodeData) then throw InvalidExpandArguments
  else
    let templateName := JS.index nodeData "template" in
    let params := JS.index nodeData "params" in
    do found <- lift (lookupInEnv templateName path env) ;;
    let subEnv := expandSubEnv env params path in
    do template <- lift (cloneWithoutParams found) ;;
    visitNode template path subEnv.

(** [node.data.var || 'item'] *)
Definition mapVarName (nodeData : value) : string :=
  if JS.truthy (JS.index nodeData "var") then toStr (JS.index nodeData "var") else "item".

(** [mkSubEnv(env, _.merge({[varName]: item, [varName+'Idx']: idx},
    env.$envValues), {path: subPath})] *)
Definition mapSubEnv (env : Env) (varName : string) (item idx : value) (subPath : string)
  : Env :=
  mkSubEnv env
           (merge_obj [(varName, item); ((varName ++ "Idx")%string, idx)]
                      [VObj (envValues env)])
           {| frame_location := VUndefined; frame_path := subPath |}.

(** The [$map] branch of [visitYamlTagNode]; [$concatMap] and
    [$mapListToHash] reach it through [visitNode] on [new yaml.$map(data)]. *)
Definition visit_map (visitNode : visitor) (nodeData : value) (path : string) (env : Env)
  : M value :=
  do template <- lift (JS.prop nodeData "template") ;;
  let varName := mapVarName nodeData in
  do mapped <-
    mapM (fun iv =>
            let '(idx, item0) := iv in
            let subPath := appendPath path (toStr idx) in
            do item <- visitNode item0 subPath env ;;
            let subEnv := mapSubEnv env varName item idx subPath in
            visitNode template subPath subEnv)
         (elements (JS.index nodeData "items")) ;;
  visitNode (VArr mapped) path env.

Definition visitYamlTagNode (visitNode : visitor) (kind : TagKind) (nodeData : value)
  (path : string) (env : Env) : M value :=
  match kind with
  | Tag_include =>
      match nodeData with
      | VStr s =>
          if Str.contains_char Str.dot s then
            let '(key, selector) := Str.split_char Str.dot s in
            if negb (_has (VObj (envValues env)) key) then throw (CouldNotFind key path)
            else
              match _get (JS.index (VObj (envValues env)) key) selector with
              | VUndefined => throw (CouldNotFindPath key path)
              | lookupRes => visitNode lookupRes path env
              end
          else
            do res <- lift (lookupInEnv nodeData path env) ;;
            visitNode res path env
      | VArr l =>
          if existsb (JS.same_value_zero (VStr ".")) l then throw TypeError
          else
            do res <- lift (lookupInEnv nodeData path env) ;;
            visitNode res path env
      | _ => throw TypeError
      end
  | Tag_expand => visit_Expand visitNode nodeData path env
  | Tag_escape => ret nodeData
  | Tag_string =>
      let stringSource :=
        match nodeData with
        | VArr [x] => x
        | _ => nodeData
        end in
      do v <- visitNode stringSource path env ;;
      ret (VStr (yaml_dump v))
  | Tag_parseYaml =>
      do s <- visitNode nodeData path env ;;
      match yaml_loadString s with
      | Some parsed => visitNode parsed path env
      | None => throw (YamlParseError path)
      end
  | Tag_let =>
      do bindings <- visitNode (VObj (_omit nodeData "in")) path env ;;
      let subEnv :=
        mkSubEnv env (merge_obj [] [VObj (envValues env); bindings])
                 {| frame_location := VUndefined; frame_path := path |} in
      do body <- lift (JS.prop nodeData "in") ;;
      visitNode body path subEnv
  | Tag_map => visit_map visitNode nodeData path env
  | Tag_flatten =>
      if andb (negb (_isArray nodeData)) (_every nodeData _isArray)
      then throw (InvalidFlattenArgument path)
      else
        do flat <- lift (_flatten nodeData) ;;
        visitNode flat path env
  | Tag_concatMap =>
      do mapped <- visitNode (VTag Tag_map nodeData) path env ;;
      lift (_flatten mapped)
  | Tag_mapListToHash =>
      do mapped <- visitNode (VTag Tag_map nodeData) path env ;;
      do lifted <- lift (_liftKVPairs mapped) ;;
      ret (VObj lifted)
  | Tag_fromPairs =>
      do lifted <- lift (_liftKVPairs nodeData) ;;
      visitNode (VObj lifted) path env
  | Tag_Ref =>
      if match nodeData with
         | VStr s => Str.startsWith "AWS:" s
         | _ => false
         end
      then ret (VTag Tag_Ref nodeData)
      else
        let prefix := JS.index (VObj (envValues env)) "Prefix" in
        ret (VTag Tag_Ref
                  (VStr ((if JS.truthy prefix then toStr prefix else EmptyString) ++ toStr nodeData)))
  | Tag_other _ =>
      do v <- visitNode nodeData path env ;;
      ret (VTag kind v)
  end.

Definition visitImportedDoc (visitNode : visitor) (node : object) (path : string) (env : Env)
  : M value :=
  let nodeLocation := JS.index (VObj node) "$location" in
  let nodeEnvValues := JS.index (VObj node) "$envValues" in
  let stackFrame := {| frame_location := nodeLocation; frame_path := path |} in
  let subEnv0 := mkSubEnv env (JS.own_entries nodeEnvValues) stackFrame in
  let nonTemplates :=
    Obj.fromPairs (filter (fun kv => negb (_has (snd kv) "$params")) (_toPairs nodeEnvValues)) in
  let templates :=
    Obj.fromPairs (filter (fun kv => _has (snd kv) "$params") (_toPairs nodeEnvValues)) in
  do visited <- visitNode (VObj nonTemplates) path subEnv0 ;;
  let processedEnvValues := merge_obj [] [visited; VObj templates] in
  let subEnv := mkSubEnv env processedEnvValues stackFrame in
  visitMapNode visitNode node path subEnv.

(** The body of [visitNode], with the recursive calls going to [visit].
    [_isPlainMap] rejects an object whose [is_yaml_tag] is truthy, which
    then falls through to the last branch. *)
Definition visitNode_body (visit : visitor) (node : value) (path : string) (env : Env)
  : M value :=
  let currNode := Str.last_segment path in
  if andb (String.eqb currNode "Resources") (negb (Str.contains "Overrides" path)) then
    visitResourceNode visit node path env
  else if String.eqb currNode "$envValues" then throw (UnreachableEnvValues path)
  else
    match node with
    | VTag kind nodeData => visitYamlTagNode visit kind nodeData path env
    | VArr l => visitArray visit l path env
    | VObj m =>
        if JS.truthy (JS.index node "is_yaml_tag") then ret node
        else if JS.truthy (JS.index node "$params") then throw (TemplateNotExpanded path)
        else if JS.truthy (JS.index node "$envValues") then visitImportedDoc visit m path env
        else visitMapNode visit m path env
    | VDate iso =>
        if Str.mem currNode ["Version"; "AWSTemplateFormatVersion"]
        then ret (VStr (Str.before_char "T"%char iso))
        else ret node
    | VStr s => visitStringNode s path env
    | _ => ret node
    end.

(** [visitNode]; each nested call spends one unit of [fuel]. *)
Fixpoint visitNode (fuel : nat) : visitor :=
  match fuel with
  | O => fun _ _ _ _ => OutOfFuel
  | S fuel' => visitNode_body (visitNode fuel')
  end.

(* ================================================================== *)
(** * The output assembler and the entry point *)

Definition iidyMetadata (accumulatedImports : list ImportRecord) : value :=
  VObj [("Host", VStr os_hostname);
        ("Imports", VArr (map ImportRecord_value accumulatedImports));
        ("User", VStr os_username)].

Definition isCFNDoc (root : object) : bool :=
  orb (JS.truthy (JS.index (VObj root) "AWSTemplateFormatVersion"))
      (JS.truthy (JS.index (VObj root) "Resources")).

(** The accumulator handed to the walker. *)
Definition initialGlobalAccum (root : object) (accumulatedImports : list ImportRecord)
  : CfnDoc :=
  let globalAccum := [("Metadata", VObj [("iidy", iidyMetadata accumulatedImports)])] in
  if isCFNDoc root then
    _extend globalAccum
            (VObj [("Parameters", VObj []); ("Conditions", VObj []);
                   ("Mappings", VObj []); ("Outputs", VObj [])])
  else globalAccum.

Definition seedOutput (root : object) : CfnDoc :=
  if isCFNDoc root then [("AWSTemplateFormatVersion", VStr "2010-09-09")] else [].

Definition rootEnv (root : object) (rootDocLocation : ImportLocation) : Env :=
  let rootEnvValues := JS.index (VObj root) "$envValues" in
  {| envValues := if JS.truthy rootEnvValues then JS.own_entries rootEnvValues else [];
     Stack := [{| frame_location := VStr rootDocLocation; frame_path := "Root" |}] |}.

(** [_.merge({}, output[sectionName], globalAccum[sectionName])] *)
Definition mergedSection (globalAccum output : CfnDoc) (sectionName : string) : value :=
  VObj (merge_obj [] [JS.index (VObj output) sectionName;
                      JS.index (VObj globalAccum) sectionName]).

(** Lines 793-803: a non-empty accumulated section is merged over the
    output's section of the same name. *)
Definition mergeGlobalSections (globalAccum : CfnDoc) (output : CfnDoc) : CfnDoc :=
  fold_left (fun output sectionName =>
               if negb (_isEmpty (JS.index (VObj globalAccum) sectionName))
               then Obj.set sectionName (mergedSection globalAccum output sectionName) output
               else output)
            GlobalSections output.

(** Lines 785-809, after the root walk returned [visited] and left the
    accumulator [globalAccum]. *)
Definition assembleOutput (root : object) (visited : value) (globalAccum : CfnDoc) : CfnDoc :=
  let output := _extend (seedOutput root) visited in
  let output := if isCFNDoc root then mergeGlobalSections globalAccum output else output in
  Obj.remove "$envValues" (Obj.remove "$defs" (Obj.remove "$imports" output)).

Definition transformPostImports (fuel : nat) (root : object) (rootDocLocation : ImportLocation)
  (accumulatedImports : list ImportRecord) : result CfnDoc :=
  let* '(visited, globalAccum) :=
    visitNode fuel (VObj root) "Root" (rootEnv root rootDocLocation)
              (initialGlobalAccum root accumulatedImports) in
  Ok (assembleOutput root visited globalAccum).

(** [transform(root0, rootDocLocation, importLoader)].  [_.clone] copies
    the top-level entries of [root0]; as a value the copy is [root0].  The
    objects below the top level, which the copy shares with [root0], are
    values here, so a write into one of them is not seen from [root0]. *)
Definition transform (fuel : nat) (importLoader : ImportLoader) (root0 : object)
  (rootDocLocation : ImportLocation) : result CfnDoc :=
  let root := root0 in
  let* '(root, accumulatedImports) := loadImports fuel importLoader root rootDocLocation [] in
  transformPostImports fuel root rootDocLocation accumulatedImports.

End Preprocessor.

(* ================================================================== *)
(** * Vocabulary of the specification *)

(** [location] is written [raw:rest] and its scheme, lower-cased, is [scheme]. *)
Definition explicit_scheme (location : ImportLocation) (scheme : string) : Prop :=
  exists raw rest,
    location = (raw ++ ":" ++ rest)%string /\
    Str.contains_char Str.colon raw = false /\
    Str.toLowerCase raw = scheme.

Definition no_explicit_scheme (location : ImportLocation) : Prop :=
  Str.contains_char Str.colon location = false.

(** The base of an import is remote when its scheme is [s3] or [http]. *)
Definition remote_base (baseLocation : ImportLocation) : Prop :=
  explicit_scheme baseLocation "s3" \/ explicit_scheme baseLocation "http".

(** The paths at which [visitNode] dispatches on the node itself: the
    last segment is neither [Resources] (outside [Overrides]) nor
    [$envValues]. *)
Definition dispatchesOnNode (path : string) : bool :=
  andb (negb (andb (String.eqb (Str.last_segment path) "Resources")
                   (negb (Str.contains "Overrides" path))))
       (negb (String.eqb (Str.last_segment path) "$envValues")).

(** The keys [visitMapNode] skips. *)
Definition skippedKeys : list string := ["$envValues"; "$imports"; "$params"; "$location"].

(** The keys deleted from the root of the output. *)
Definition rootDeletedKeys : list string := ["$imports"; "$defs"; "$envValues"].


(** Some mapping inside [v], at any depth, has a key among [ks]. *)
Fixpoint mentions (ks : list string) (v : value) : bool :=
  match v with
  | VArr l => existsb (mentions ks) l
  | VObj m =>
      existsb (fun kv => let '(k, x) := kv in orb (Str.mem k ks) (mentions ks x)) m
  | VTag _ d => mentions ks d
  | _ => false
  end.

(** Every object inside [v], outside tag payloads, has pairwise distinct
    keys. *)
Fixpoint deep_wf (v : value) : bool :=
  match v with
  | VArr l => forallb deep_wf l
  | VObj m => andb (Obj.wfb m) (forallb (fun kv => let '(_, x) := kv in deep_wf x) m)
  | _ => true
  end.

(** An entry of a mapping whose key, or whose value at some depth, is
    among [ks]. *)
Definition mentionsEntry (ks : list string) (kv : string * value) : bool :=
  let '(k, x) := kv in orb (Str.mem k ks) (mentions ks x).

(** One level of flattening of a sequence, in the words of the
    specification: the elements that are sequences are spliced in. *)
Fixpoint flatten_one_level (l : list value) : list value :=
  match l with
  | [] => []
  | VArr xs :: r => xs ++ flatten_one_level r
  | x :: r => x :: flatten_one_level r
  end.

(** A key under which [visitMapNode] stores the evaluation of its value. *)
Definition ordinaryKey (k : string) : bool :=
  andb (negb (Str.startsWith "$merge" k)) (negb (Str.mem k skippedKeys)).

(** A key whose value the walker evaluates as an ordinary node: it is not
    spliced, not skipped, and leads neither to the resource expander nor
    to the [$envValues] guard. *)
Definition plainKey (k : string) : bool :=
  andb (ordinaryKey k)
       (andb (negb (String.eqb (Str.last_segment k) "Resources"))
             (negb (String.eqb (Str.last_segment k) "$envValues"))).

(** A document made of scalars, sequences and mappings only.  No node is
    tagged; a mapping may carry the skipped keys, with an [$envValues]
    that is itself such a mapping (or has no entries); every other key is
    a [plainKey] with a plain value, and no mapping is marked
    [is_yaml_tag]. *)
Fixpoint plain (v : value) : bool :=
  match v with
  | VTag _ _ => false
  | VArr l => forallb plain l
  | VObj m =>
      forallb (fun kv =>
                 let '(k, x) := kv in
                 if String.eqb k "$envValues" then
                   match x with
                   | VObj _ => plain x
                   | VStr _ | VArr _ => false
                   | _ => true
                   end
                 else if Str.mem k skippedKeys then true
                 else andb (plainKey k)
                           (andb (plain x)
                                 (negb (andb (String.eqb k "is_yaml_tag") (JS.truthy x))))) m
  | _ => true
  end.

(** The condition [plain] puts on one entry of a mapping. *)
Definition plainEntry (kv : string * value) : bool :=
  let '(k, x) := kv in
  if String.eqb k "$envValues" then
    match x with
    | VObj _ => plain x
    | VStr _ | VArr _ => false
    | _ => true
    end
  else if Str.mem k skippedKeys then true
  else andb (plainKey k)
            (andb (plain x) (negb (andb (String.eqb k "is_yaml_tag") (JS.truthy x)))).

(** A visitor that, on plain documents, leaves the accumulator alone and
    returns a document free of the skipped keys. *)
Definition plain_visitor (visit : visitor) : Prop :=
  forall v path env acc r acc',
    plain v = true -> dispatchesOnNode path = true ->
    visit v path env acc = Ok (r, acc') ->
    acc' = acc /\ mentions skippedKeys r = false.

(** A plain root document: no imports to load, and [$defs], when present,
    is a mapping. *)
Definition plainRoot (root0 : object) : bool :=
  andb (plain (VObj root0))
       (andb (negb (JS.truthy (JS.index (VObj root0) "$imports")))
             (match JS.index (VObj root0) "$defs" with
              | VStr _ | VArr _ => false
              | _ => true
              end)).

(** A value [_.merge] assigns as it is: neither a sequence nor a mapping,
    and not [undefined]. *)
Definition assigned_whole (v : value) : Prop :=
  match v with
  | VArr _ | VObj _ | VUndefined => False
  | _ => True
  end.

(** A value whose string form is the one [toStr] computes: a number is
    below [10^21] in magnitude, where [String] prints all the digits; a
    mapping has no [toString] or [valueOf] entry of its own; a sequence
    holds such values; a tagged value is not one. *)
Fixpoint printable (v : value) : bool :=
  match v with
  | VNum z => Z.ltb (Z.abs z) (10 ^ 21)
  | VArr l => forallb printable l
  | VObj m => andb (negb (Obj.has "toString" m)) (negb (Obj.has "valueOf" m))
  | VTag _ _ => false
  | _ => true
  end.

(** The members every object inherits from [Object.prototype]: a read of
    one of these names on an object that has no such entry of its own
    finds the inherited member, not [undefined]. *)
Definition objectPrototypeKeys : list string :=
  ["constructor"; "__defineGetter__"; "__defineSetter__"; "hasOwnProperty";
   "__lookupGetter__"; "__lookupSetter__"; "isPrototypeOf"; "propertyIsEnumerable";
   "toString"; "valueOf"; "__proto__"; "toLocaleString"].

(** A key that [_.has] and an assignment read as the name of one own
    property, and that keeps its place in the enumeration order: it has
    neither [.] nor [[], it is not [__proto__], and it is not a numeral. *)
Definition properName (k : string) : bool :=
  andb (negb (Str.contains_char Str.dot k))
       (andb (negb (Str.contains_char "["%char k))
             (andb (negb (String.eqb k "__proto__"))
                   (orb (String.eqb k EmptyString) (negb (Str.all_digits k))))).

(** Following [selector] into [v] only reads entries of mappings and
    elements of sequences: no segment taken on a mapping is a member of
    [Object.prototype], a segment taken on a sequence is an index, and
    nothing is read from a scalar, a date or a tagged value. *)
Fixpoint ownPath (v : value) (selector : list string) : bool :=
  match selector with
  | [] => true
  | k :: p =>
      match v with
      | VUndefined | VNull => true
      | VObj m =>
          andb (negb (Str.mem k objectPrototypeKeys))
               (match Obj.get k m with
                | Some x => ownPath x p
                | None => true
                end)
      | VArr l =>
          match Str.to_index k with
          | Some i => ownPath (nth i l VUndefined) p
          | None => false
          end
      | _ => false
      end
  end.

(* ================================================================== *)
(** * A host and documents for the examples *)

Module Examples.

(** A renderer for the [{{name}}] subset of handlebars in strict mode:
    each [{{name}}] is replaced by the binding of [name]; an unbound name
    or an unclosed [{{] makes it fail. *)
Inductive hb_state : Type :=
| HbText
| HbOpen
| HbName (n : string)
| HbClose (n : string).

Definition hb_show (v : value) : string :=
  match v with
  | VStr s => s
  | VNum z => Str.of_Z z
  | _ => "[object Object]"
  end.

Fixpoint hb (env : object) (st : hb_state) (s : string) : option string :=
  match s with
  | EmptyString =>
      match st with
      | HbText => Some EmptyString
      | HbOpen => Some "{"
      | _ => None
      end
  | String a r =>
      match st with
      | HbText =>
          if Ascii.eqb a "{" then hb env HbOpen r
          else option_map (String a) (hb env HbText r)
      | HbOpen =>
          if Ascii.eqb a "{" then hb env (HbName EmptyString) r
          else option_map (fun x => String "{" (String a x)) (hb env HbText r)
      | HbName n =>
          if Ascii.eqb a "}" then hb env (HbClose n) r
          else hb env (HbName (n ++ String a EmptyString)%string) r
      | HbClose n =>
          if Ascii.eqb a "}" then
            match Obj.get n env with
            | Some v => option_map (append (hb_show v)) (hb env HbText r)
            | None => None
            end
          else None
      end
  end.

Definition demoHost : Host := {|
  handlebars_render t env := hb env HbText t;
  yaml_dump _ := EmptyString;
  yaml_loadString _ := None;
  tv4_valid _ _ := true;
  regexp_match _ _ := Some true;
  date_toString iso := iso;
  os_hostname := "build-host";
  os_username := "deploy";
  sha256Digest s := ("sha256:" ++ s)%string
|}.

(** A loader with nothing to load. *)
Definition noLoader : ImportLoader := fun location baseLocation =>
  Err (LoaderFailure location baseLocation).

(** The [literal:text] scheme of [readFromImportLocation]. *)
Definition literalLoader : ImportLoader := fun location baseLocation =>
  match Str.split_char Str.colon location with
  | (_, text :: _) =>
      Ok {| importType := "literal"; resolvedLocation := text; data := text; doc := VStr text |}
  | _ => Err (LoaderFailure location baseLocation)
  end.



(** [{Message: 'hi'}] *)
Definition notCfn : object := [("Message", VStr "hi")].



(** [{Resources: {Bucket: {Type: 'AWS::S3::Bucket'}}}] *)
Definition resourcesOnly : object :=
  [("Resources", VObj [("Bucket", VObj [("Type", VStr "AWS::S3::Bucket")])])].

(** [{$defs: {item: 'outer'},
      Ys: !$map {items: ['a', 'b'], template: !$include item}}] *)
Definition shadowedMap : object :=
  [("$defs", VObj [("item", VStr "outer")]);
   ("Ys", VTag Tag_map (VObj [("items", VArr [VStr "a"; VStr "b"]);
                              ("template", VTag Tag_include (VStr "item"))]))].

(** [{Ys: !$map {items: ['x', 'y'],
                 template: !$map {items: ['a', 'b'], template: !$include item}}}] *)
Definition nestedMap : object :=
  [("Ys", VTag Tag_map
            (VObj [("items", VArr [VStr "x"; VStr "y"]);
                   ("template",
                    VTag Tag_map (VObj [("items", VArr [VStr "a"; VStr "b"]);
                                        ("template", VTag Tag_include (VStr "item"))]))]))].

(** A loader that knows one document, [tmpl.yaml]:
    [{$params: [{Name: x}], body: !$include x}]. *)
Definition templateLoader : ImportLoader := fun location baseLocation =>
  if String.eqb location "tmpl.yaml" then
    Ok {| importType := "file"; resolvedLocation := "tmpl.yaml"; data := "tmpl";
          doc := VObj [("$params", VArr [VObj [("Name", VStr "x")]]);
                       ("body", VTag Tag_include (VStr "x"))] |}
  else Err (LoaderFailure location baseLocation).

(** [{$imports: {T: 'tmpl.yaml'}, $defs: {x: 'outer'},
      Y: !$expand {template: T, params: {x: 'inner'}}}] *)
Definition importedExpand : object :=
  [("$imports", VObj [("T", VStr "tmpl.yaml")]);
   ("$defs", VObj [("x", VStr "outer")]);
   ("Y", VTag Tag_expand (VObj [("template", VStr "T");
                                ("params", VObj [("x", VStr "inner")])]))].

(** [{$imports: {T: 'tmpl.yaml'},
      Y: !$expand {template: T, params: {x: 'inner'}}}] *)
Definition importedExpandFree : object :=
  [("$imports", VObj [("T", VStr "tmpl.yaml")]);
   ("Y", VTag Tag_expand (VObj [("template", VStr "T");
                                ("params", VObj [("x", VStr "inner")])]))].



(** [{$defs: {T: {Resources: {B: {Type: 'AWS::S3::Bucket'},
                              Q: {Type: 'AWS::SQS::Queue',
                                  Properties: {Target: !Ref B}}}}},
      Resources: {My: {Type: T, NamePrefix: prefix}}}] *)
Definition prefixedStack (prefix : value) : object :=
  [("$defs",
    VObj [("T",
           VObj [("Resources",
                  VObj [("B", VObj [("Type", VStr "AWS::S3::Bucket")]);
                        ("Q", VObj [("Type", VStr "AWS::SQS::Queue");
                                    ("Properties",
                                     VObj [("Target", VTag Tag_Ref (VStr "B"))])])])])]);
   ("Resources", VObj [("My", VObj [("Type", VStr "T"); ("NamePrefix", prefix)])])].

(** The [Resources] that [prefixedStack] is expected to give: the two
    resources under their new names, with [Target] referring to [target]. *)
Definition prefixedResources (bucket queue target : string) : value :=
  VObj [(bucket, VObj [("Type", VStr "AWS::S3::Bucket")]);
        (queue, VObj [("Type", VStr "AWS::SQS::Queue");
                      ("Properties", VObj [("Target", VTag Tag_Ref (VStr target))])])].


(** [{$imports: {a: 'literal:x'}, AWSTemplateFormatVersion: '2010-09-09'}] *)
Definition importingCfn : object :=
  [("$imports", VObj [("a", VStr "literal:x")]);
   ("AWSTemplateFormatVersion", VStr "2010-09-09")].

(** The payload of [!$expand {template: T, params: {x: 'inner'}}] *)
Definition expandPayload : value :=
  VObj [("template", VStr "T"); ("params", VObj [("x", VStr "inner")])].

(** The payload of [{items: ['a', 'b'], template: ['x', '{{item}}']}] *)
Definition mapPayload : value :=
  VObj [("items", VArr [VStr "a"; VStr "b"]);
        ("template", VArr [VStr "x"; VStr "{{item}}"])].

Definition emptyEnv : Env :=
  {| envValues := []; Stack := [{| frame_location := VStr "root.yaml"; frame_path := "Root" |}] |}.

End Examples.

(* ================================================================== *)
(** * Vocabulary of the further properties *)







(** The environment's stack is usable for error reports: it has a frame,
    and every frame has a location. *)
Definition located (env : Env) : Prop :=
  Stack env <> [] /\ Forall (fun f => JS.truthy (frame_location f) = true) (Stack env).

(** Every character of [s] is an ASCII character. *)
Fixpoint ascii_only (s : string) : bool :=
  match s with
  | EmptyString => true
  | String a r => andb (Nat.ltb (nat_of_ascii a) 128) (ascii_only r)
  end.

(** No line feed or carriage return among the characters of [s]. *)
Fixpoint on_one_line (s : string) : bool :=
  match s with
  | EmptyString => true
  | String a r => andb (negb (Str.is_newline a)) (on_one_line r)
  end.

(** A computation of the walker that leaves the accumulator with the
    sections it had. *)
Definition keepsSections {A : Type} (m : M A) : Prop :=
  forall acc a acc', m acc = Ok (a, acc') -> Obj.keys acc' = Obj.keys acc.

(* ================================================================== *)
(** * More documents for the examples *)

Module Samples.





(** [{$imports: {a: 'literal:x', b: 'literal:y'}}] *)
Definition twoImports : object :=
  [("$imports", VObj [("a", VStr "literal:x"); ("b", VStr "literal:y")])].


(** An environment that binds [x] to ['outer']. *)
Definition outerEnv : Env :=
  {| envValues := [("x", VStr "outer")];
     Stack := [{| frame_location := VStr "root.yaml"; frame_path := "Root" |}] |}.

(** The payload of [!$let {x: 'inner', in: !$include x}] *)
Definition letPayload : value :=
  VObj [("x", VStr "inner"); ("in", VTag Tag_include (VStr "x"))].

(** The payload of
    [!$mapListToHash {items: ['a', 'b'], template: {key: '{{item}}', value: 1}}] *)
Definition hashPayload : value :=
  VObj [("items", VArr [VStr "a"; VStr "b"]);
        ("template", VObj [("key", VStr "{{item}}"); ("value", VNum 1)])].

(** [{$defs: {T: {$params: [{Name: 'x'}], body: 1}}}] *)
Definition inlineTemplate : object :=
  [("$defs", VObj [("T", VObj [("$params", VArr [VObj [("Name", VStr "x")]]);
                               ("body", VNum 1)])])].

(** [{Queue: {Type: 'Acme::Queue'}}] *)
Definition unknownResources : value :=
  VObj [("Queue", VObj [("Type", VStr "Acme::Queue")])].


(** An environment that binds [cfg] to [{db: {port: 5432}}]. *)
Definition configEnv : Env :=
  {| envValues := [("cfg", VObj [("db", VObj [("port", VNum 5432)])])];
     Stack := [{| frame_location := VStr "root.yaml"; frame_path := "Root" |}] |}.

(** An imported document: [{$envValues: {x: 'own'}, $location: 'lib.yaml',
    v: !$include x}] *)
Definition importedDoc : object :=
  [("$envValues", VObj [("x", VStr "own")]); ("$location", VStr "lib.yaml");
   ("v", VTag Tag_include (VStr "x"))].

(** [{Resources: {Bucket: {Type: 'AWS::S3::Bucket'}}, Transform: 'AWS::Serverless'}] *)
Definition withTransform : object :=
  [("Resources", VObj [("Bucket", VObj [("Type", VStr "AWS::S3::Bucket")])]);
   ("Transform", VStr "AWS::Serverless")].

(** [{$imports: {secret: 'env:TOKEN'}}] *)
Definition importsEnv : object :=
  [("$imports", VObj [("secret", VStr "env:TOKEN")])].

(** A loader that, like [readFromImportLocation], starts with
    [parseImportType] and then hands back the location as the data. *)
Definition typedLoader : ImportLoader := fun location baseLocation =>
  let* importType := parseImportType location baseLocation in
  Ok {| importType := importType; resolvedLocation := location;
        data := location; doc := VStr location |}.

End Samples.

(* ================================================================== *)
(** * Properties *)

(** ** Strings *)

Module StrFacts.

Lemma lower_ascii_colon (a : ascii) :
  Ascii.eqb (Str.lower_ascii a) Str.colon = Ascii.eqb a Str.colon.
Proof. destruct a as [[] [] [] [] [] [] [] []]; reflexivity. Qed.

Lemma before_char_toLowerCase (s : string) :
  Str.before_char Str.colon (Str.toLowerCase s) = Str.toLowerCase (Str.before_char Str.colon s).
Proof.
  induction s as [|a s IH]; simpl; [reflexivity|].
  rewrite lower_ascii_colon. destruct (Ascii.eqb a Str.colon); simpl; [reflexivity|].
  now rewrite IH.
Qed.

Lemma contains_char_app_colon (raw rest : string) :
  Str.contains_char Str.colon (raw ++ ":" ++ rest)%string = true.
Proof.
  induction raw as [|a raw IH]; simpl in *; [reflexivity|].
  destruct (Ascii.eqb a Str.colon); [reflexivity|exact IH].
Qed.

Lemma before_char_app_colon (raw rest : string) :
  Str.contains_char Str.colon raw = false ->
  Str.before_char Str.colon (raw ++ ":" ++ rest)%string = raw.
Proof.
  induction raw as [|a raw IH]; simpl in *; [reflexivity|].
  destruct (Ascii.eqb a Str.colon); [discriminate|].
  intros H. now rewrite IH.
Qed.

(** A location that contains a colon splits at the first one. *)
Lemma split_at_colon (s : string) :
  Str.contains_char Str.colon s = true ->
  exists rest,
    s = (Str.before_char Str.colon s ++ ":" ++ rest)%string /\
    Str.contains_char Str.colon (Str.before_char Str.colon s) = false.
Proof.
  induction s as [|a s IH]; simpl; [discriminate|].
  destruct (Ascii.eqb a Str.colon) eqn:E.
  - intros _. apply Ascii.eqb_eq in E. subst a. exists s. split; reflexivity.
  - intros H. destruct (IH H) as [rest [Hs Hc]]. exists rest. simpl. rewrite E.
    split; [f_equal; exact Hs | exact Hc].
Qed.

Lemma explicit_scheme_contains (location scheme : string) :
  explicit_scheme location scheme -> Str.contains_char Str.colon location = true.
Proof. intros (raw & rest & -> & _ & _). apply contains_char_app_colon. Qed.

Lemma explicit_scheme_before (location scheme : string) :
  explicit_scheme location scheme ->
  Str.before_char Str.colon (Str.toLowerCase location) = scheme.
Proof.
  intros (raw & rest & -> & Hraw & <-).
  rewrite before_char_toLowerCase. now rewrite before_char_app_colon.
Qed.

Lemma explicit_scheme_intro (location : string) :
  Str.contains_char Str.colon location = true ->
  explicit_scheme location (Str.before_char Str.colon (Str.toLowerCase location)).
Proof.
  intros H. destruct (split_at_colon location H) as [rest [Hs Hc]].
  exists (Str.before_char Str.colon location), rest. repeat split; auto.
  now rewrite before_char_toLowerCase.
Qed.

Lemma mem_In (s : string) (l : list string) : Str.mem s l = true <-> In s l.
Proof.
  induction l as [|x l IH]; simpl; [split; [discriminate|tauto]|].
  destruct (String.eqb x s) eqn:E.
  - apply String.eqb_eq in E. tauto.
  - apply String.eqb_neq in E. rewrite IH. split; [tauto|]. intros [H|H]; [contradiction|exact H].
Qed.

End StrFacts.

Import StrFacts.

(** ** Objects *)

Module ObjFacts.

Lemma get_set_same (k : string) (v : value) (m : object) :
  Obj.get k (Obj.set k v m) = Some v.
Proof.
  induction m as [|[k' v'] m IH]; simpl.
  - now rewrite String.eqb_refl.
  - destruct (String.eqb k' k) eqn:E; simpl.
    + now rewrite String.eqb_refl.
    + now rewrite E.
Qed.

Lemma get_set_other (k k' : string) (v : value) (m : object) :
  k <> k' -> Obj.get k (Obj.set k' v m) = Obj.get k m.
Proof.
  intros Hne. induction m as [|[k0 v0] m IH]; simpl.
  - destruct (String.eqb k' k) eqn:E; [apply String.eqb_eq in E; congruence|reflexivity].
  - destruct (String.eqb k0 k') eqn:E; simpl.
    + apply String.eqb_eq in E. subst k0.
      destruct (String.eqb k' k) eqn:E2; [apply String.eqb_eq in E2; congruence|reflexivity].
    + destruct (String.eqb k0 k); [reflexivity|exact IH].
Qed.

Lemma get_remove_same (k : string) (m : object) : Obj.get k (Obj.remove k m) = None.
Proof.
  induction m as [|[k' v'] m IH]; simpl; [reflexivity|].
  destruct (String.eqb k' k) eqn:E; simpl; [exact IH|]. now rewrite E.
Qed.

Lemma get_remove_other (k k' : string) (m : object) :
  k <> k' -> Obj.get k (Obj.remove k' m) = Obj.get k m.
Proof.
  intros Hne. induction m as [|[k0 v0] m IH]; simpl; [reflexivity|].
  destruct (String.eqb k0 k') eqn:E; simpl.
  - apply String.eqb_eq in E. subst k0.
    destruct (String.eqb k' k) eqn:E2; [apply String.eqb_eq in E2; congruence|exact IH].
  - destruct (String.eqb k0 k); [reflexivity|exact IH].
Qed.

Lemma get_In (k : string) (v : value) (m : object) : Obj.get k m = Some v -> In (k, v) m.
Proof.
  induction m as [|[k' v'] m IH]; simpl; [discriminate|].
  destruct (String.eqb k' k) eqn:E.
  - apply String.eqb_eq in E. intros [= ->]. subst. now left.
  - intros H. right. now apply IH.
Qed.

Lemma get_None (k : string) (m : object) : Obj.get k m = None <-> ~ In k (Obj.keys m).
Proof.
  induction m as [|[k' v'] m IH]; simpl; [tauto|].
  destruct (String.eqb k' k) eqn:E.
  - apply String.eqb_eq in E. split; [discriminate|]. intros H. exfalso. apply H. now left.
  - apply String.eqb_neq in E. rewrite IH. tauto.
Qed.


Lemma has_true (k : string) (m : object) : Obj.has k m = true <-> In k (Obj.keys m).
Proof.
  unfold Obj.has. destruct (Obj.get k m) eqn:E.
  - split; [|reflexivity]. intros _. apply get_In in E.
    change k with (fst (k, v)). now apply in_map.
  - split; [discriminate|]. intros H. now apply get_None in E.
Qed.

Lemma has_false (k : string) (m : object) : Obj.has k m = false <-> Obj.get k m = None.
Proof. unfold Obj.has. destruct (Obj.get k m); split; congruence. Qed.

Lemma keys_set (k k' : string) (v : value) (m : object) :
  In k' (Obj.keys (Obj.set k v m)) <-> k' = k \/ In k' (Obj.keys m).
Proof.
  rewrite <- !has_true. unfold Obj.has.
  destruct (String.eqb k' k) eqn:E.
  - apply String.eqb_eq in E. subst. rewrite get_set_same. tauto.
  - apply String.eqb_neq in E. rewrite get_set_other by exact E.
    destruct (Obj.get k' m); intuition congruence.
Qed.

Lemma keys_set_cases (k : string) (v : value) (m : object) :
  Obj.keys (Obj.set k v m) = Obj.keys m \/ Obj.keys (Obj.set k v m) = Obj.keys m ++ [k] /\ ~ In k (Obj.keys m).
Proof.
  induction m as [|[k' v'] m IH]; simpl.
  - right. split; [reflexivity|tauto].
  - destruct (String.eqb k' k) eqn:E; simpl.
    + apply String.eqb_eq in E. subst. now left.
    + apply String.eqb_neq in E. destruct IH as [IH|[IH Hn]].
      * left. unfold Obj.keys in *. now rewrite IH.
      * right. unfold Obj.keys in *. rewrite IH. split; [reflexivity|]. intros [H|H]; auto.
Qed.

Lemma wf_set (k : string) (v : value) (m : object) : Obj.wf m -> Obj.wf (Obj.set k v m).
Proof.
  unfold Obj.wf. intros Hwf. destruct (keys_set_cases k v m) as [->|[-> Hn]]; [exact Hwf|].
  apply NoDup_app; [exact Hwf| constructor; [tauto|constructor] |].
  intros x Hx [<-|[]]. contradiction.
Qed.

Lemma keys_remove (k k' : string) (m : object) :
  In k' (Obj.keys (Obj.remove k m)) <-> k' <> k /\ In k' (Obj.keys m).
Proof.
  rewrite <- !has_true. unfold Obj.has.
  destruct (String.eqb k' k) eqn:E.
  - apply String.eqb_eq in E. subst. rewrite get_remove_same. intuition congruence.
  - apply String.eqb_neq in E. rewrite get_remove_other by exact E.
    destruct (Obj.get k' m); intuition congruence.
Qed.

Lemma wf_remove (k : string) (m : object) : Obj.wf m -> Obj.wf (Obj.remove k m).
Proof.
  unfold Obj.wf. induction m as [|[k' v'] m IH]; simpl; [auto|].
  intros Hwf. inversion Hwf as [|? ? Hnotin Hwf']; subst.
  destruct (String.eqb k' k); [now apply IH|].
  simpl. constructor; [|now apply IH].
  intros Hin. apply Hnotin. now apply keys_remove in Hin.
Qed.

Lemma In_set (kv : string * value) (k : string) (v : value) (m : object) :
  In kv (Obj.set k v m) -> kv = (k, v) \/ In kv m.
Proof.
  induction m as [|[k' v'] m IH]; simpl.
  - intros [<-|[]]. now left.
  - destruct (String.eqb k' k); simpl.
    + intros [<-|H]; [now left|now right; right].
    + intros [<-|H]; [now right; left|]. destruct (IH H); [now left|now right; right].
Qed.


Lemma set_set (k : string) (v v' : value) (m : object) :
  Obj.set k v (Obj.set k v' m) = Obj.set k v m.
Proof.
  induction m as [|[k0 v0] m IH]; simpl.
  - now rewrite String.eqb_refl.
  - destruct (String.eqb k0 k) eqn:E; simpl.
    + now rewrite String.eqb_refl.
    + now rewrite E, IH.
Qed.

Lemma set_fresh (k : string) (v : value) (m : object) :
  Obj.get k m = None -> Obj.set k v m = m ++ [(k, v)].
Proof.
  induction m as [|[k' v'] m IH]; simpl; [reflexivity|].
  destruct (String.eqb k' k); [discriminate|]. intros H. now rewrite IH.
Qed.

Lemma distinct_NoDup (l : list string) : Obj.distinct l = true <-> NoDup l.
Proof.
  induction l as [|x l IH]; simpl.
  - split; [constructor|reflexivity].
  - rewrite andb_true_iff, negb_true_iff, IH. split.
    + intros [Hm Hd]. constructor; [|exact Hd]. intros Hin.
      apply StrFacts.mem_In in Hin. congruence.
    + intros H. inversion H as [|? ? Hn Hd]; subst. split; [|exact Hd].
      destruct (Str.mem x l) eqn:E; [|reflexivity]. apply StrFacts.mem_In in E. contradiction.
Qed.

Lemma wfb_wf (m : object) : Obj.wfb m = true <-> Obj.wf m.
Proof. apply distinct_NoDup. Qed.

End ObjFacts.

Import ObjFacts.

(** ** Results and the monad of the walker *)

Section MonadFacts.

Lemma rbind_Ok {A B} (r : result A) (f : A -> result B) (b : B) :
  rbind r f = Ok b -> exists a, r = Ok a /\ f a = Ok b.
Proof. destruct r; simpl; try discriminate. eauto. Qed.

Lemma bind_Ok {A B} (m : M A) (f : A -> M B) acc b acc' :
  bind m f acc = Ok (b, acc') ->
  exists a acc1, m acc = Ok (a, acc1) /\ f a acc1 = Ok (b, acc').
Proof.
  unfold bind. destruct (m acc) as [[a acc1]| |]; try discriminate. eauto.
Qed.

Lemma lift_Ok {A} (r : result A) acc a acc' :
  lift r acc = Ok (a, acc') -> r = Ok a /\ acc' = acc.
Proof. unfold lift. destruct r; try discriminate. intros [= -> ->]. auto. Qed.

Lemma ret_Ok {A} (x : A) acc a acc' : ret x acc = Ok (a, acc') -> a = x /\ acc' = acc.
Proof. unfold ret. intros [= -> ->]. auto. Qed.

Lemma throw_Ok {A} (e : error) acc (a : A) acc' : throw e acc = Ok (a, acc') -> False.
Proof. discriminate. Qed.

Lemma foldM_cons_Ok {A S} (f : S -> A -> M S) (x : A) (r : list A) (s s' : S) acc acc' :
  foldM f (x :: r) s acc = Ok (s', acc') ->
  exists s1 acc1, f s x acc = Ok (s1, acc1) /\ foldM f r s1 acc1 = Ok (s', acc').
Proof. simpl. apply bind_Ok. Qed.

Lemma mapM_cons_Ok {A B} (f : A -> M B) (x : A) (r : list A) (l : list B) acc acc' :
  mapM f (x :: r) acc = Ok (l, acc') ->
  exists y ys acc1, f x acc = Ok (y, acc1) /\ mapM f r acc1 = Ok (ys, acc') /\ l = y :: ys.
Proof.
  simpl. intros H. apply bind_Ok in H as (y & acc1 & Hy & H).
  apply bind_Ok in H as (ys & acc2 & Hys & H). apply ret_Ok in H as [-> ->]. eauto 6.
Qed.

Lemma mapM_invariant {A B} (f : A -> M B) (Q : B -> Prop) (l : list A) :
  (forall x acc y acc', In x l -> f x acc = Ok (y, acc') -> acc' = acc /\ Q y) ->
  forall acc rs acc', mapM f l acc = Ok (rs, acc') -> acc' = acc /\ forall y, In y rs -> Q y.
Proof.
  induction l as [|x l IH]; intros Hf acc rs acc' H.
  - apply ret_Ok in H as [-> ->]. split; [reflexivity|intros y []].
  - apply mapM_cons_Ok in H as (y & ys & acc1 & Hy & Hys & ->).
    apply Hf in Hy as [-> Hq]; [|now left].
    apply IH in Hys as [-> Hqs]; [|intros; eapply Hf; eauto; now right].
    split; [reflexivity|]. intros z [<-|Hz]; auto.
Qed.

End MonadFacts.

(** ** Deep merge *)

Module MergeFacts.

(** Induction on documents, with the hypothesis available for every
    element of a sequence and every value of a mapping. *)
Lemma value_deep_ind (P : value -> Prop) :
  P VUndefined -> P VNull -> (forall b, P (VBool b)) -> (forall z, P (VNum z)) ->
  (forall s, P (VStr s)) -> (forall iso, P (VDate iso)) ->
  (forall l, Forall P l -> P (VArr l)) ->
  (forall m, Forall (fun kv => P (snd kv)) m -> P (VObj m)) ->
  (forall k d, P d -> P (VTag k d)) ->
  forall v, P v.
Proof.
  intros Hu Hn Hb Hz Hs Hd Ha Ho Ht.
  fix IH 1. intros [| |b|z|s|iso|l|m|k d].
  - exact Hu.
  - exact Hn.
  - apply Hb.
  - apply Hz.
  - apply Hs.
  - apply Hd.
  - apply Ha. induction l as [|x l IHl]; constructor; [apply IH|exact IHl].
  - apply Ho. induction m as [|[k x] m IHm]; constructor; [apply IH|exact IHm].
  - apply Ht. apply IH.
Qed.

Lemma baseMerge_VObj (target : value) (m : object) :
  baseMerge target (VObj m) = mergeEntries m target.
Proof.
  simpl. revert target. induction m as [|[k v] m IH]; intros target; [reflexivity|].
  exact (IH _).
Qed.

Lemma baseMerge_VArr (object : value) (l : list value) :
  baseMerge object (VArr l) = mergeElements l 0 object.
Proof.
  simpl. generalize 0. revert object. induction l as [|v l IH]; intros object i; [reflexivity|].
  exact (IH _ _).
Qed.

Lemma mergeElements_entries (l : list value) (i : nat) (object : value) :
  mergeElements l i object = mergeEntries (JS.indexed_from i l) object.
Proof.
  revert i object. induction l as [|v l IH]; intros i object; [reflexivity|]. simpl. apply IH.
Qed.

Lemma chars_primitive (s : string) (i : nat) (object : value) :
  fold_left (fun o kv => assignMergeValue o (fst kv) (snd kv)) (JS.indexed_from i (JS.chars s)) object
  = mergeEntries (JS.indexed_from i (JS.chars s)) object.
Proof.
  revert i object. induction s as [|a s IH]; intros i object; [reflexivity|]. simpl. apply IH.
Qed.

(** [baseMerge] walks the own entries of its source. *)
Lemma baseMerge_entries (object source : value) :
  baseMerge object source = mergeEntries (JS.own_entries source) object.
Proof.
  destruct source; try reflexivity.
  - simpl JS.own_entries. apply chars_primitive.
  - rewrite baseMerge_VArr. apply mergeElements_entries.
Qed.

Lemma to_uint_nonnil (i : nat) : Nat.to_uint i <> Decimal.Nil.
Proof.
  intros E. pose proof (Unsigned.to_of (Nat.to_uint i)) as H.
  rewrite Unsigned.of_to, E in H. discriminate.
Qed.

Lemma to_index_of_nat (i : nat) : Str.to_index (Str.of_nat i) = Some i.
Proof.
  unfold Str.to_index, Str.of_nat.
  assert (H : NilEmpty.uint_of_string (NilZero.string_of_uint (Nat.to_uint i))
              = Some (Nat.to_uint i)).
  { unfold NilZero.string_of_uint. pose proof (to_uint_nonnil i) as Hn.
    destruct (Nat.to_uint i) eqn:E; try apply NilEmpty.usu. congruence. }
  rewrite H, Unsigned.of_to. now rewrite String.eqb_refl.
Qed.

Lemma of_nat_not_length (i : nat) : String.eqb (Str.of_nat i) "length" = false.
Proof.
  apply String.eqb_neq. intros E. pose proof (to_index_of_nat i) as H.
  rewrite E in H. discriminate.
Qed.

Lemma list_set_length (v : value) (l : list value) : list_set (List.length l) v l = l ++ [v].
Proof. induction l as [|x l IH]; simpl; [reflexivity|now rewrite IH]. Qed.

(** Merging a document into a fresh destination copies it. *)
Lemma mergeNew_copy (v : value) :
  deep_wf v = true -> forall objValue, JS.isObject objValue = false -> mergeNew objValue v = v.
Proof.
  induction v as [| | | | | |l IH|m IH|k d IH] using value_deep_ind;
    intros Hwf objValue Hobj; try reflexivity.
  - (* arrays *)
    unfold mergeNew.
    replace (_isArray objValue) with false by (destruct objValue; simpl in *; congruence).
    rewrite baseMerge_VArr.
    assert (H : forall acc, mergeElements l (List.length acc) (VArr acc) = VArr (acc ++ l)).
    { simpl in Hwf. induction l as [|x l IHl]; intros acc; simpl.
      - now rewrite app_nil_r.
      - apply andb_true_iff in Hwf as [Hx Hl].
        inversion IH as [|? ? IHx IH']; subst.
        unfold mergeStep. simpl JS.index. rewrite of_nat_not_length, to_index_of_nat.
        rewrite nth_overflow by lia. rewrite (IHx Hx VUndefined eq_refl).
        assert (Ha : assignMergeValue (VArr acc) (Str.of_nat (List.length acc)) x = VArr (acc ++ [x])).
        { unfold assignMergeValue, in_object, set_prop. rewrite to_index_of_nat.
          rewrite Nat.ltb_irrefl. destruct x; now rewrite list_set_length. }
        rewrite Ha. replace (S (List.length acc)) with (List.length (acc ++ [x]))
          by (rewrite length_app; simpl; lia).
        rewrite (IHl IH' Hl). now rewrite <- app_assoc. }
    exact (H []).
  - (* objects *)
    unfold mergeNew. rewrite Hobj. rewrite baseMerge_VObj.
    assert (H : forall acc, (forall k, In k (Obj.keys m) -> Obj.get k acc = None) ->
                            mergeEntries m (VObj acc) = VObj (acc ++ m)).
    { simpl in Hwf. apply andb_true_iff in Hwf as [Hd Hv].
      apply wfb_wf in Hd. unfold Obj.wf in Hd.
      induction m as [|[k x] m IHm]; intros acc Hfresh; simpl.
      - now rewrite app_nil_r.
      - simpl in Hv. apply andb_true_iff in Hv as [Hx Hm].
        inversion IH as [|? ? IHx IH']; subst. simpl in IHx.
        inversion Hd as [|? ? Hnotin Hd']; subst.
        unfold mergeStep. simpl JS.index. rewrite (Hfresh k) by now left.
        rewrite (IHx Hx VUndefined eq_refl).
        assert (Ha : assignMergeValue (VObj acc) k x = VObj (acc ++ [(k, x)])).
        { unfold assignMergeValue, in_object, set_prop.
          replace (Obj.has k acc) with false
            by (symmetry; apply has_false; apply Hfresh; now left).
          destruct x; now rewrite set_fresh by (apply Hfresh; now left). }
        rewrite Ha, (IHm IH' Hd' Hm).
        + now rewrite <- app_assoc.
        + intros k' Hk'. apply get_None. unfold Obj.keys. rewrite map_app, in_app_iff.
          intros [Hin|[<-|[]]].
          * apply (proj1 (get_None k' acc)); [apply Hfresh; now right|exact Hin].
          * contradiction. }
    apply (H []). reflexivity.
Qed.

(** A step of the merge leaves the other keys of an object alone. *)
Lemma mergeStep_get_other (m : object) (key k : string) (srcValue : value) :
  k <> key ->
  exists m', mergeStep (VObj m) key srcValue = VObj m' /\ Obj.get k m' = Obj.get k m.
Proof.
  intros Hne. unfold mergeStep, assignMergeValue, set_prop.
  destruct (mergeNew (JS.index (VObj m) key) srcValue) eqn:E;
    try (eexists; split; [reflexivity|now apply get_set_other]).
  destruct (in_object (VObj m) key); eexists; split; try reflexivity.
  now apply get_set_other.
Qed.

Lemma mergeEntries_get_other (src : object) (m : object) (k : string) :
  ~ In k (Obj.keys src) ->
  exists m', mergeEntries src (VObj m) = VObj m' /\ Obj.get k m' = Obj.get k m.
Proof.
  revert m. induction src as [|[key sv] src IH]; intros m Hn; simpl.
  - eauto.
  - assert (Hk : k <> key) by (intros ->; apply Hn; now left).
    assert (Hs : ~ In k (Obj.keys src)) by (intros H; apply Hn; now right).
    destruct (@mergeStep_get_other m key k sv Hk) as (m1 & -> & H1).
    destruct (IH m1 Hs) as (m2 & -> & H2). exists m2. split; [reflexivity|congruence].
Qed.

(** The first occurrence of a key absent from the destination is bound to
    the merged copy of its value. *)
Lemma mergeEntries_get_new (src : object) (m : object) (k : string) (v : value) :
  Obj.wf src -> Obj.get k src = Some v -> Obj.get k m = None ->
  exists m', mergeEntries src (VObj m) = VObj m' /\
             Obj.get k m' = Some (mergeNew VUndefined v).
Proof.
  revert m. induction src as [|[key sv] src IH]; intros m Hwf Hget Hm; simpl in *; [discriminate|].
  unfold Obj.wf in Hwf. simpl in Hwf. inversion Hwf as [|? ? Hnotin Hwf']; subst.
  destruct (String.eqb key k) eqn:E.
  - apply String.eqb_eq in E. subst key. injection Hget as ->.
    assert (H1 : exists m1, mergeStep (VObj m) k v = VObj m1 /\
                            Obj.get k m1 = Some (mergeNew VUndefined v)).
    { unfold mergeStep. simpl JS.index. rewrite Hm.
      unfold assignMergeValue, in_object, set_prop.
      replace (Obj.has k m) with false by (symmetry; now apply has_false).
      destruct (mergeNew VUndefined v); eexists; (split; [reflexivity|apply get_set_same]). }
    destruct H1 as (m1 & -> & H1).
    destruct (@mergeEntries_get_other src m1 k Hnotin) as (m2 & -> & H2).
    exists m2. split; [reflexivity|congruence].
  - apply String.eqb_neq in E.
    destruct (@mergeStep_get_other m key k sv) as (m1 & -> & H1); [congruence|].
    apply (IH m1 Hwf' Hget). congruence.
Qed.

(** A value that is assigned whole replaces what the destination holds. *)
Lemma mergeStep_get_whole (m : object) (k : string) (v : value) :
  assigned_whole v ->
  exists m', mergeStep (VObj m) k v = VObj m' /\ Obj.get k m' = Some v /\
             forall k', k' <> k -> Obj.get k' m' = Obj.get k' m.
Proof.
  intros Hv. unfold mergeStep.
  assert (Hn : mergeNew (JS.index (VObj m) k) v = v) by (destruct v; try reflexivity; contradiction).
  rewrite Hn. exists (Obj.set k v m).
  split; [destruct v; try reflexivity; contradiction|]. split; [apply get_set_same|].
  intros k' Hne. now apply get_set_other.
Qed.

Lemma mergeEntries_get_whole (src : object) (m : object) (k : string) (v : value) :
  Obj.wf src -> Obj.get k src = Some v -> assigned_whole v ->
  exists m', mergeEntries src (VObj m) = VObj m' /\ Obj.get k m' = Some v.
Proof.
  revert m. induction src as [|[k0 v0] src IH]; intros m Hwf Hg Hv; [discriminate|].
  cbn [mergeEntries]. inversion Hwf as [|? ? Hn Hd]; subst. simpl in Hg.
  destruct (String.eqb k0 k) eqn:E.
  - apply String.eqb_eq in E. subst k0. injection Hg as ->.
    destruct (@mergeStep_get_whole m k v Hv) as (m1 & -> & Hg1 & _).
    destruct (@mergeEntries_get_other src m1 k Hn) as (m' & -> & Hg').
    exists m'. split; [reflexivity|]. now rewrite Hg'.
  - apply String.eqb_neq in E.
    destruct (@mergeStep_get_other m k0 k v0) as (m1 & -> & _); [congruence|].
    exact (IH m1 Hd Hg Hv).
Qed.

Lemma mergeStep_VObj (m : object) (k : string) (v : value) :
  exists m', mergeStep (VObj m) k v = VObj m'.
Proof.
  unfold mergeStep, assignMergeValue.
  destruct (mergeNew (JS.index (VObj m) k) v); cbn [set_prop];
    try (eexists; reflexivity).
  destruct (in_object (VObj m) k); eexists; reflexivity.
Qed.

Lemma mergeEntries_VObj (src : object) (m : object) :
  exists m', mergeEntries src (VObj m) = VObj m'.
Proof.
  revert m. induction src as [|[k v] src IH]; intros m; [now exists m|].
  cbn [mergeEntries]. destruct (mergeStep_VObj m k v) as [m1 ->]. apply IH.
Qed.

End MergeFacts.

Import MergeFacts.

(** ** Paths *)

Module PathFacts.

Lemma last_cons_default (A : Type) (x d : A) (l : list A) : last (x :: l) d = last l x.
Proof.
  revert x d. induction l as [|y l IH]; intros x d; [reflexivity|].
  change (last (y :: l) d = last (y :: l) x). now rewrite !IH.
Qed.

Lemma last_nonempty (A : Type) (d d' : A) (l : list A) : l <> [] -> last l d = last l d'.
Proof. destruct l as [|x l]; [congruence|]. intros _. now rewrite !last_cons_default. Qed.

Lemma split_char_tail_nonempty (c : ascii) (s : string) :
  Str.contains_char c s = true -> snd (Str.split_char c s) <> [].
Proof.
  induction s as [|a s IH]; simpl; [discriminate|].
  destruct (Str.split_char c s) as [h t]. destruct (Ascii.eqb a c); simpl; [discriminate|].
  exact IH.
Qed.

Lemma contains_char_app_dot (p k : string) :
  Str.contains_char Str.dot (p ++ String Str.dot k) = true.
Proof.
  induction p as [|a p IH]; simpl; [reflexivity|].
  destruct (Ascii.eqb a Str.dot); [reflexivity|exact IH].
Qed.

(** The last segment of [p.k] is the last segment of [k]. *)
Lemma last_segment_app_dot (p k : string) :
  Str.last_segment (p ++ "." ++ k) = Str.last_segment k.
Proof.
  unfold Str.last_segment. change (p ++ "." ++ k)%string with (p ++ String Str.dot k)%string.
  induction p as [|a p IH].
  - simpl. destruct (Str.split_char Str.dot k) as [h t]. apply last_cons_default.
  - simpl. pose proof (split_char_tail_nonempty Str.dot _ (contains_char_app_dot p k)) as Hne.
    destruct (Str.split_char Str.dot (p ++ String Str.dot k)) as [h t]. simpl in Hne.
    destruct (Ascii.eqb a Str.dot).
    + rewrite last_cons_default. exact IH.
    + rewrite (last_nonempty (String a h) h Hne). exact IH.
Qed.

Lemma appendPath_last_segment (path k : string) :
  Str.last_segment (appendPath path k) = Str.last_segment k.
Proof.
  unfold appendPath. destruct (JS.truthy (VStr path)); [apply last_segment_app_dot|reflexivity].
Qed.

Lemma dispatches_appendPath (path k : string) :
  String.eqb (Str.last_segment k) "Resources" = false ->
  String.eqb (Str.last_segment k) "$envValues" = false ->
  dispatchesOnNode (appendPath path k) = true.
Proof.
  intros H1 H2. unfold dispatchesOnNode. rewrite appendPath_last_segment, H1, H2. reflexivity.
Qed.

Lemma all_digits_uint (d : Decimal.uint) : Str.all_digits (DecimalString.NilEmpty.string_of_uint d) = true.
Proof. induction d; simpl; auto. Qed.

Lemma all_digits_of_nat (i : nat) : Str.all_digits (Str.of_nat i) = true.
Proof.
  unfold Str.of_nat, DecimalString.NilZero.string_of_uint.
  destruct (Nat.to_uint i) eqn:E; try (rewrite <- E; apply all_digits_uint); reflexivity.
Qed.

Lemma all_digits_no_dot (s : string) : Str.all_digits s = true -> Str.contains_char Str.dot s = false.
Proof.
  induction s as [|a s IH]; simpl; [reflexivity|].
  intros H. apply andb_true_iff in H as [Ha Hs].
  destruct (Ascii.eqb a Str.dot) eqn:E; [|now apply IH].
  apply Ascii.eqb_eq in E. subst a. discriminate.
Qed.

Lemma last_segment_no_dot (s : string) :
  Str.contains_char Str.dot s = false -> Str.last_segment s = s.
Proof.
  unfold Str.last_segment.
  assert (H : Str.contains_char Str.dot s = false -> Str.split_char Str.dot s = (s, [])).
  { induction s as [|a s IH]; simpl; [reflexivity|].
    destruct (Ascii.eqb a Str.dot); [discriminate|]. intros H. now rewrite IH. }
  intros Hc. now rewrite H.
Qed.

Lemma all_digits_first (s t : string) (a : ascii) :
  Str.all_digits s = true -> Str.is_digit a = false -> s <> String a t.
Proof. intros Hs Ha ->. simpl in Hs. rewrite Ha in Hs. discriminate. Qed.

(** An index is a path segment that leads to a plain dispatch. *)
Lemma dispatches_index (path : string) (i : nat) :
  dispatchesOnNode (appendPath path (Str.of_nat i)) = true.
Proof.
  pose proof (all_digits_of_nat i) as Hd.
  apply dispatches_appendPath;
    rewrite (last_segment_no_dot _ (all_digits_no_dot _ Hd));
    apply String.eqb_neq; apply all_digits_first; auto.
Qed.

End PathFacts.

Import PathFacts.

(** ** The walker, the loader and the assembler *)

Section WalkerFacts.

Context {host : Host}.

Lemma flatten_one_level_concat (l : list value) :
  concat (map (fun x => match x with VArr xs => xs | _ => [x] end) l) = flatten_one_level l.
Proof.
  induction l as [|x l IH]; simpl; [reflexivity|].
  rewrite IH. destruct x; reflexivity.
Qed.

Lemma visitNode_dispatch (fuel : nat) (node : value) (path : string) (env : Env) :
  dispatchesOnNode path = true ->
  visitNode (S fuel) node path env =
  match node with
  | VTag kind nodeData => visitYamlTagNode (visitNode fuel) kind nodeData path env
  | VArr l => visitArray (visitNode fuel) l path env
  | VObj m =>
      if JS.truthy (JS.index node "is_yaml_tag") then ret node
      else if JS.truthy (JS.index node "$params") then throw (TemplateNotExpanded path)
      else if JS.truthy (JS.index node "$envValues")
           then visitImportedDoc (visitNode fuel) m path env
           else visitMapNode (visitNode fuel) m path env
  | VDate iso =>
      if Str.mem (Str.last_segment path) ["Version"; "AWSTemplateFormatVersion"]
      then ret (VStr (Str.before_char "T"%char iso))
      else ret node
  | VStr s => visitStringNode s path env
  | _ => ret node
  end.
Proof.
  unfold dispatchesOnNode. intros H. apply andb_true_iff in H as [H1 H2].
  apply negb_true_iff in H1, H2.
  simpl. unfold visitNode_body. rewrite H1, H2. reflexivity.
Qed.

(** A sequence evaluates to a sequence. *)
Lemma visitNode_VArr_result (fuel : nat) l path env acc r acc' :
  dispatchesOnNode path = true ->
  visitNode fuel (VArr l) path env acc = Ok (r, acc') ->
  exists l', r = VArr l'.
Proof.
  intros Hd. destruct fuel as [|fuel]; [discriminate|].
  rewrite visitNode_dispatch by exact Hd. unfold visitArray.
  intros H. apply bind_Ok in H as (res & acc1 & _ & H).
  apply ret_Ok in H as [-> _]. eauto.
Qed.

Lemma visit_map_result (fuel : nat) payload path env acc r acc' :
  dispatchesOnNode path = true ->
  visit_map (visitNode fuel) payload path env acc = Ok (r, acc') ->
  exists l, r = VArr l.
Proof.
  intros Hd H. unfold visit_map in H.
  apply bind_Ok in H as (template & acc1 & _ & H).
  apply bind_Ok in H as (mapped & acc2 & _ & H).
  eapply visitNode_VArr_result; eauto.
Qed.

Lemma mergeInto_Ok (path : string) (sub : value) (res res' : object) acc acc' :
  mergeInto path sub res acc = Ok (res', acc') ->
  acc' = acc /\
  (forall k v, Obj.get k res = Some v -> Obj.get k res' = Some v) /\
  (forall k, In k (Obj.keys res') ->
             In k (Obj.keys res) \/ In k (Obj.keys (JS.own_entries sub))) /\
  (Obj.wf res -> Obj.wf res').
Proof.
  unfold mergeInto. generalize (JS.own_entries sub). intros l. revert res acc.
  induction l as [|[k2 v2] l IH]; intros res acc H.
  - apply ret_Ok in H as [-> ->]. repeat split; auto.
  - apply foldM_cons_Ok in H as (res1 & acc1 & Hstep & Hrest).
    destruct (Obj.has k2 res) eqn:Ehas; [discriminate|].
    apply ret_Ok in Hstep as [-> ->].
    destruct (IH _ _ Hrest) as (-> & Hpres & Hkeys & Hwf).
    repeat split.
    + intros k v Hget. apply Hpres. rewrite get_set_other; [exact Hget|].
      intros ->. apply has_false in Ehas. congruence.
    + intros k Hin. destruct (Hkeys k Hin) as [Hk|Hk].
      * apply keys_set in Hk as [->|Hk]; [right; now left|now left].
      * right. now right.
    + intros Hw. apply Hwf. now apply wf_set.
Qed.

Lemma skipped_mem (k : string) :
  Str.mem k ["$envValues"; "$imports"; "$params"; "$location"] = Str.mem k skippedKeys.
Proof. reflexivity. Qed.

(** What one iteration of [visitMapNode] does to the result. *)
Lemma visitMapEntry_Ok (visit : visitor) (path : string) (env : Env) (res res' : object)
  (k : string) (v : value) acc acc' :
  visitMapEntry visit path env res (k, v) acc = Ok (res', acc') ->
  (Str.startsWith "$merge" k = true /\
   exists sub acc1, visit v (appendPath path k) env acc = Ok (sub, acc1) /\
                    mergeInto path sub res acc1 = Ok (res', acc')) \/
  (Str.startsWith "$merge" k = false /\ Str.mem k skippedKeys = true /\
   res' = res /\ acc' = acc) \/
  (ordinaryKey k = true /\
   exists r, visit v (appendPath path k) env acc = Ok (r, acc') /\ res' = Obj.set k r res).
Proof.
  unfold visitMapEntry, ordinaryKey. rewrite skipped_mem.
  destruct (Str.startsWith "$merge" k) eqn:Em.
  - intros H. apply bind_Ok in H as (sub & acc1 & Hv & Hm). left. eauto.
  - destruct (Str.mem k skippedKeys) eqn:Es.
    + intros H. apply ret_Ok in H as [-> ->]. right. left. auto.
    + intros H. apply bind_Ok in H as (r & acc1 & Hv & Hr).
      apply ret_Ok in Hr as [-> ->]. right. right. eauto.
Qed.

Lemma visitMapEntry_preserves (visit : visitor) (path : string) (env : Env) (res res' : object)
  (k0 : string) (v0 : value) acc acc' (k : string) (r : value) :
  visitMapEntry visit path env res (k0, v0) acc = Ok (res', acc') ->
  k <> k0 -> Obj.get k res = Some r -> Obj.get k res' = Some r.
Proof.
  intros H Hne Hget.
  apply visitMapEntry_Ok in H as [(_ & sub & acc1 & _ & Hm)|[(_ & _ & -> & _)|(_ & r0 & _ & ->)]].
  - apply mergeInto_Ok in Hm as (_ & Hpres & _). now apply Hpres.
  - exact Hget.
  - now rewrite get_set_other.
Qed.

Lemma visitMapLoop_preserves (visit : visitor) (path : string) (env : Env) (node : object)
  (res res' : object) acc acc' (k : string) (r : value) :
  foldM (visitMapEntry visit path env) node res acc = Ok (res', acc') ->
  ~ In k (Obj.keys node) -> Obj.get k res = Some r -> Obj.get k res' = Some r.
Proof.
  revert res acc. induction node as [|[k0 v0] node IH]; intros res acc H Hn Hget.
  - apply ret_Ok in H as [-> _]. exact Hget.
  - apply foldM_cons_Ok in H as (res1 & acc1 & Hstep & Hrest).
    apply (IH _ _ Hrest).
    + intros Hin. apply Hn. now right.
    + eapply visitMapEntry_preserves; [exact Hstep| |exact Hget].
      intros ->. apply Hn. now left.
Qed.

(** An ordinary key of the node is bound, in the result, to the
    evaluation of its value. *)
Lemma visitMapLoop_value (visit : visitor) (path : string) (env : Env) (node : object)
  (res res' : object) acc acc' (k : string) (v : value) :
  Obj.wf node ->
  foldM (visitMapEntry visit path env) node res acc = Ok (res', acc') ->
  In (k, v) node -> ordinaryKey k = true ->
  exists r acc1 acc2,
    visit v (appendPath path k) env acc1 = Ok (r, acc2) /\ Obj.get k res' = Some r.
Proof.
  revert res acc. induction node as [|[k0 v0] node IH]; intros res acc Hwf H Hin Hord;
    [contradiction|].
  unfold Obj.wf in Hwf. simpl in Hwf. inversion Hwf as [|? ? Hnotin Hwf']; subst.
  apply foldM_cons_Ok in H as (res1 & acc1 & Hstep & Hrest).
  destruct Hin as [[= -> ->]|Hin].
  - apply visitMapEntry_Ok in Hstep
      as [(Hm & _)|[(_ & Hs & _)|(_ & r & Hv & ->)]].
    + unfold ordinaryKey in Hord. rewrite Hm in Hord. discriminate.
    + unfold ordinaryKey in Hord. rewrite Hs, andb_false_r in Hord. discriminate.
    + exists r, acc, acc1. split; [exact Hv|].
      eapply visitMapLoop_preserves; [exact Hrest|exact Hnotin|apply get_set_same].
  - apply (IH _ _ Hwf' Hrest Hin Hord).
Qed.


Lemma visitMapLoop_wf (visit : visitor) (path : string) (env : Env) (node : object)
  (res res' : object) acc acc' :
  foldM (visitMapEntry visit path env) node res acc = Ok (res', acc') ->
  Obj.wf res -> Obj.wf res'.
Proof.
  revert res acc. induction node as [|[k0 v0] node IH]; intros res acc H Hwf.
  - apply ret_Ok in H as [-> _]. exact Hwf.
  - apply foldM_cons_Ok in H as (res1 & acc1 & Hstep & Hrest).
    apply (IH _ _ Hrest).
    apply visitMapEntry_Ok in Hstep
      as [(Hm & sub & acc2 & _ & Hmi)|[(_ & _ & -> & _)|(Ho & r & _ & ->)]].
    + apply mergeInto_Ok in Hmi as (_ & _ & _ & Hw). now apply Hw.
    + exact Hwf.
    + now apply wf_set.
Qed.

Lemma visitMapNode_Ok (visit : visitor) (node : object) (path : string) (env : Env)
  (r : value) acc acc' :
  visitMapNode visit node path env acc = Ok (r, acc') ->
  exists res, r = VObj res /\
              foldM (visitMapEntry visit path env) node [] acc = Ok (res, acc').
Proof.
  unfold visitMapNode. intros H. apply bind_Ok in H as (res & acc1 & Hl & Hr).
  apply ret_Ok in Hr as [-> ->]. eauto.
Qed.

(** The walk of a document that went through [loadImports]. *)
Lemma visitNode_object_cases (fuel : nat) (m : object) (path : string) (env : Env)
  (r : value) acc acc' :
  dispatchesOnNode path = true ->
  visitNode fuel (VObj m) path env acc = Ok (r, acc') ->
  (JS.truthy (JS.index (VObj m) "is_yaml_tag") = true /\ r = VObj m /\ acc' = acc) \/
  (JS.truthy (JS.index (VObj m) "is_yaml_tag") = false /\
   JS.truthy (JS.index (VObj m) "$params") = false /\
   exists fuel' env' acc1,
     fuel = S fuel' /\ visitMapNode (visitNode fuel') m path env' acc1 = Ok (r, acc')).
Proof.
  intros Hd. destruct fuel as [|fuel]; [discriminate|].
  rewrite visitNode_dispatch by exact Hd.
  destruct (JS.truthy (JS.index (VObj m) "is_yaml_tag")) eqn:Ey.
  - intros H. apply ret_Ok in H as [-> ->]. left. auto.
  - destruct (JS.truthy (JS.index (VObj m) "$params")) eqn:Ep; [discriminate|].
    destruct (JS.truthy (JS.index (VObj m) "$envValues")) eqn:Ee.
    + unfold visitImportedDoc. intros H. apply bind_Ok in H as (visited & acc1 & _ & H).
      right. repeat split. eauto 6.
    + intros H. right. repeat split. eauto 6.
Qed.

(** [loadImports] only assigns [$envValues]. *)
Lemma loadImports_frame (fuel : nat) (loader : ImportLoader) (thisDoc : object)
  (base : ImportLocation) (acc : list ImportRecord) doc' acc' :
  loadImports fuel loader thisDoc base acc = Ok (doc', acc') ->
  exists env, doc' = Obj.set "$envValues" (VObj env) thisDoc.
Proof.
  destruct fuel as [|fuel]; [discriminate|].
  cbn [loadImports]. intros H.
  apply rbind_Ok in H as ([env1 acc1] & H1 & H).
  apply rbind_Ok in H as (env2 & H2 & H).
  apply rbind_Ok in H as (u & H3 & H).
  injection H as <- <-. exists env2. apply set_set.
Qed.

Lemma index_set_other (k k' : string) (v : value) (m : object) :
  k <> k' -> JS.index (VObj (Obj.set k' v m)) k = JS.index (VObj m) k.
Proof. intros H. simpl. now rewrite get_set_other. Qed.

Lemma isCFNDoc_loaded (root0 : object) (env : object) :
  isCFNDoc (Obj.set "$envValues" (VObj env) root0) = isCFNDoc root0.
Proof. unfold isCFNDoc. rewrite !index_set_other by discriminate. reflexivity. Qed.

Lemma fold_set_get (l : object) (target : object) (k : string) :
  Obj.wf l ->
  Obj.get k (fold_left (fun o kv => Obj.set (fst kv) (snd kv) o) l target)
  = match Obj.get k l with Some v => Some v | None => Obj.get k target end.
Proof.
  revert target. induction l as [|[k0 v0] l IH]; intros target Hwf; [reflexivity|].
  unfold Obj.wf in Hwf. simpl in Hwf. inversion Hwf as [|? ? Hnotin Hwf']; subst.
  simpl fold_left. rewrite (IH _ Hwf'). simpl Obj.get.
  destruct (String.eqb k0 k) eqn:E.
  - apply String.eqb_eq in E. subst k0.
    replace (Obj.get k l) with (@None value) by (symmetry; now apply get_None).
    apply get_set_same.
  - apply String.eqb_neq in E. destruct (Obj.get k l); [reflexivity|].
    apply get_set_other. congruence.
Qed.

Lemma extend_get (target : object) (source : value) (k : string) :
  Obj.wf (JS.own_entries source) ->
  Obj.get k (_extend target source)
  = match Obj.get k (JS.own_entries source) with Some v => Some v | None => Obj.get k target end.
Proof. apply fold_set_get. Qed.

Lemma sections_fold_get (p : string -> bool) (newv : CfnDoc -> string -> value)
  (names : list string) (output : CfnDoc) (k : string) :
  (forall o n v, k <> n -> newv (Obj.set n v o) k = newv o k) ->
  NoDup names ->
  Obj.get k (fold_left (fun o n => if p n then Obj.set n (newv o n) o else o) names output)
  = if andb (Str.mem k names) (p k) then Some (newv output k) else Obj.get k output.
Proof.
  intros Hnewv. revert output. induction names as [|n names IH]; intros output Hnd; [reflexivity|].
  inversion Hnd as [|? ? Hnotin Hnd']; subst.
  cbn [fold_left Str.mem]. rewrite (IH _ Hnd').
  destruct (String.eqb n k) eqn:E.
  - apply String.eqb_eq in E. subst n.
    replace (Str.mem k names) with false
      by (symmetry; destruct (Str.mem k names) eqn:Em; [apply mem_In in Em; contradiction|reflexivity]).
    cbn [andb]. destruct (p k); [apply get_set_same|reflexivity].
  - apply String.eqb_neq in E.
    destruct (p n).
    + rewrite Hnewv by congruence. rewrite get_set_other by congruence. reflexivity.
    + reflexivity.
Qed.

Lemma mergeGlobalSections_get (globalAccum output : CfnDoc) (k : string) :
  Obj.get k (mergeGlobalSections globalAccum output)
  = if andb (Str.mem k GlobalSections) (negb (_isEmpty (JS.index (VObj globalAccum) k)))
    then Some (mergedSection globalAccum output k)
    else Obj.get k output.
Proof.
  unfold mergeGlobalSections.
  apply (sections_fold_get
           (fun n => negb (_isEmpty (JS.index (VObj globalAccum) n)))
           (mergedSection globalAccum)).
  - intros o n v Hne. unfold mergedSection. now rewrite index_set_other.
  - apply distinct_NoDup. reflexivity.
Qed.

Lemma removed_get_other (k : string) (output : CfnDoc) :
  Str.mem k rootDeletedKeys = false ->
  Obj.get k (Obj.remove "$envValues" (Obj.remove "$defs" (Obj.remove "$imports" output)))
  = Obj.get k output.
Proof.
  intros H.
  assert (Hn : ~ In k rootDeletedKeys) by (intros Hin; apply mem_In in Hin; congruence).
  rewrite !get_remove_other; [reflexivity| | |]; intros ->; apply Hn; simpl; auto.
Qed.


(** The value the assembled output holds under [k]. *)
Lemma assembleOutput_get (root : object) (visited : value) (globalAccum : CfnDoc) (k : string) :
  Str.mem k rootDeletedKeys = false ->
  Obj.wf (JS.own_entries visited) ->
  Obj.get k (assembleOutput root visited globalAccum)
  = if andb (isCFNDoc root)
            (andb (Str.mem k GlobalSections)
                  (negb (_isEmpty (JS.index (VObj globalAccum) k))))
    then Some (mergedSection globalAccum (_extend (seedOutput root) visited) k)
    else match Obj.get k (JS.own_entries visited) with
         | Some v => Some v
         | None => Obj.get k (seedOutput root)
         end.
Proof.
  intros Hk Hwf. unfold assembleOutput. rewrite removed_get_other by exact Hk.
  destruct (isCFNDoc root); cbn [andb].
  - rewrite mergeGlobalSections_get.
    destruct (andb (Str.mem k GlobalSections) (negb (_isEmpty (JS.index (VObj globalAccum) k))));
      [reflexivity|now apply extend_get].
  - now apply extend_get.
Qed.

(** A successful [transform] is a successful load followed by a
    successful walk of the root. *)
Lemma transform_Ok (fuel : nat) (loader : ImportLoader) (root0 : object)
  (loc : ImportLocation) (out : CfnDoc) :
  transform fuel loader root0 loc = Ok out ->
  exists env imports visited globalAccum,
    let root := Obj.set "$envValues" (VObj env) root0 in
    loadImports fuel loader root0 loc [] = Ok (root, imports) /\
    visitNode fuel (VObj root) "Root" (rootEnv root loc) (initialGlobalAccum root imports)
    = Ok (visited, globalAccum) /\
    out = assembleOutput root visited globalAccum.
Proof.
  unfold transform, transformPostImports. intros H.
  apply rbind_Ok in H as ([root imports] & Hload & H).
  apply rbind_Ok in H as ([visited globalAccum] & Hvisit & H).
  injection H as <-.
  destruct (loadImports_frame _ _ _ _ _ Hload) as [env ->].
  exists env, imports, visited, globalAccum. auto.
Qed.


(** The walk of the root returns a mapping with distinct keys. *)
Lemma root_visit_wf (fuel : nat) (root : object) (env : Env) visited acc acc' :
  Obj.wf root ->
  visitNode fuel (VObj root) "Root" env acc = Ok (visited, acc') ->
  exists res, visited = VObj res /\ Obj.wf res.
Proof.
  intros Hwf H.
  apply visitNode_object_cases in H as [(_ & -> & _)|(_ & _ & f & env' & acc1 & -> & H)];
    [eauto| |reflexivity].
  apply visitMapNode_Ok in H as (res & -> & Hl). exists res. split; [reflexivity|].
  eapply visitMapLoop_wf; [exact Hl|constructor].
Qed.

Lemma deep_wf_iidyMetadata (imports : list ImportRecord) :
  deep_wf (VObj [("iidy", iidyMetadata imports)]) = true.
Proof.
  unfold iidyMetadata. cbn -[map forallb]. 
  assert (H : forallb deep_wf (map ImportRecord_value imports) = true).
  { induction imports as [|r imports IH]; [reflexivity|]. simpl map. cbn [forallb].
    rewrite IH. reflexivity. }
  cbn. rewrite H. reflexivity.
Qed.

Lemma merge_seed_metadata (imports : list ImportRecord) :
  merge_obj [] [VUndefined; VObj [("iidy", iidyMetadata imports)]]
  = [("iidy", iidyMetadata imports)].
Proof.
  unfold merge_obj, _merge.
  change (fold_left baseMerge [VUndefined; VObj [("iidy", iidyMetadata imports)]] (VObj []))
    with (mergeNew VUndefined (VObj [("iidy", iidyMetadata imports)])).
  rewrite mergeNew_copy; [reflexivity|apply deep_wf_iidyMetadata|reflexivity].
Qed.

Lemma initialGlobalAccum_Metadata (root : object) (imports : list ImportRecord) :
  Obj.get "Metadata" (initialGlobalAccum root imports)
  = Some (VObj [("iidy", iidyMetadata imports)]).
Proof. unfold initialGlobalAccum. destruct (isCFNDoc root); reflexivity. Qed.






Section ImportsLoop.

Variable load : object -> ImportLocation -> list ImportRecord
                -> result (object * list ImportRecord).
Variable loader : ImportLoader.
Variable base : ImportLocation.





End ImportsLoop.

Lemma merge_VObj_target (params : value) :
  exists m0, baseMerge (VObj []) params = VObj m0.
Proof. rewrite baseMerge_entries. apply mergeEntries_VObj. Qed.

End WalkerFacts.

(** ** Documents free of a set of keys *)

Section Clean.

Variable ks : list string.

Lemma mentions_VObj (m : object) : mentions ks (VObj m) = existsb (mentionsEntry ks) m.
Proof. reflexivity. Qed.

Lemma clean_VObj (m : object) :
  mentions ks (VObj m) = false <->
  forall k x, In (k, x) m -> Str.mem k ks = false /\ mentions ks x = false.
Proof.
  rewrite mentions_VObj. split.
  - intros H k x Hin. apply orb_false_iff.
    destruct (orb (Str.mem k ks) (mentions ks x)) eqn:E; [|reflexivity].
    assert (existsb (mentionsEntry ks) m = true)
      by (apply existsb_exists; exists (k, x); split; [exact Hin|exact E]).
    congruence.
  - intros H. destruct (existsb (mentionsEntry ks) m) eqn:E; [|reflexivity].
    apply existsb_exists in E as ([k x] & Hin & Hm). simpl in Hm.
    destruct (H k x Hin) as [H1 H2]. rewrite H1, H2 in Hm. discriminate.
Qed.

Lemma clean_VArr (l : list value) :
  mentions ks (VArr l) = false <-> forall x, In x l -> mentions ks x = false.
Proof.
  simpl. split.
  - intros H x Hin. destruct (mentions ks x) eqn:E; [|reflexivity].
    assert (existsb (mentions ks) l = true) by (apply existsb_exists; eauto). congruence.
  - intros H. destruct (existsb (mentions ks) l) eqn:E; [|reflexivity].
    apply existsb_exists in E as (x & Hin & Hm). rewrite (H x Hin) in Hm. discriminate.
Qed.

Lemma clean_set (k : string) (v : value) (m : object) :
  mentions ks (VObj m) = false -> Str.mem k ks = false -> mentions ks v = false ->
  mentions ks (VObj (Obj.set k v m)) = false.
Proof.
  intros Hm Hk Hv. apply clean_VObj. intros k' x Hin.
  apply In_set in Hin as [[= -> ->]|Hin]; [auto|]. now apply (proj1 (clean_VObj m) Hm).
Qed.










Hypothesis ks_not_indices : forall i, Str.mem (Str.of_nat i) ks = false.

Lemma indexed_from_In (k : string) (x : value) (l : list value) (i : nat) :
  In (k, x) (JS.indexed_from i l) -> In x l /\ exists j, k = Str.of_nat j.
Proof.
  revert i. induction l as [|y l IH]; intros i; simpl; [tauto|].
  intros [[= <- <-]|H]; [split; [now left|eauto]|].
  destruct (IH _ H) as [H1 H2]. split; [now right|exact H2].
Qed.





End Clean.


(** ** Plain documents *)

Section PlainWalk.

Context {host : Host}.

Lemma plain_VObj (m : object) : plain (VObj m) = forallb plainEntry m.
Proof. reflexivity. Qed.

Lemma plain_VObj_In (m : object) :
  plain (VObj m) = true <-> forall kv, In kv m -> plainEntry kv = true.
Proof. rewrite plain_VObj. apply forallb_forall. Qed.

Lemma plainEntry_ordinary (k : string) (x : value) :
  plainEntry (k, x) = true ->
  String.eqb k "$envValues" = false -> Str.mem k skippedKeys = false ->
  plainKey k = true /\ plain x = true /\
  andb (String.eqb k "is_yaml_tag") (JS.truthy x) = false.
Proof.
  unfold plainEntry. intros H E1 E2. rewrite E1, E2 in H.
  apply andb_true_iff in H as [H1 H]. apply andb_true_iff in H as [H2 H3].
  apply negb_true_iff in H3. auto.
Qed.

Lemma plainEntry_envValues (x : value) :
  plainEntry ("$envValues", x) = true ->
  match x with
  | VObj _ => plain x = true
  | VStr _ | VArr _ => False
  | _ => True
  end.
Proof.
  unfold plainEntry. rewrite String.eqb_refl. destruct x; auto; discriminate.
Qed.

Lemma In_fold_set (l acc : object) (kv : string * value) :
  In kv (fold_left (fun m p => Obj.set (fst p) (snd p) m) l acc) -> In kv acc \/ In kv l.
Proof.
  revert acc. induction l as [|[k x] l IH]; intros acc H; [now left|].
  simpl in H. apply IH in H as [H|H]; [|right; now right].
  apply In_set in H as [->|H]; [right; now left|now left].
Qed.

Lemma In_fromPairs (l : object) (kv : string * value) : In kv (Obj.fromPairs l) -> In kv l.
Proof. intros H. apply In_fold_set in H as [[]|H]. exact H. Qed.

Lemma ordinaryKey_not_skipped (k : string) :
  ordinaryKey k = true -> Str.mem k skippedKeys = false /\ Str.startsWith "$merge" k = false.
Proof.
  unfold ordinaryKey. intros H. apply andb_true_iff in H as [H1 H2].
  apply negb_true_iff in H1, H2. auto.
Qed.

Lemma plain_map_loop (visit : visitor) (path : string) (env : Env) (m : object) :
  plain_visitor visit ->
  (forall kv, In kv m -> plainEntry kv = true) ->
  forall res acc res' acc',
    mentions skippedKeys (VObj res) = false ->
    foldM (visitMapEntry visit path env) m res acc = Ok (res', acc') ->
    acc' = acc /\ mentions skippedKeys (VObj res') = false.
Proof.
  intros Hvisit. induction m as [|[k x] m IH]; intros Hm res acc res' acc' Hres H.
  - apply ret_Ok in H as [-> ->]. auto.
  - apply foldM_cons_Ok in H as (res1 & acc1 & Hstep & Hrest).
    assert (Hentry : plainEntry (k, x) = true) by (apply Hm; now left).
    assert (Hm' : forall kv, In kv m -> plainEntry kv = true) by (intros kv Hin; apply Hm; now right).
    apply visitMapEntry_Ok in Hstep
      as [(Hmerge & _)|[(_ & _ & -> & ->)|(Hord & r & Hv & ->)]].
    + exfalso.
      destruct (String.eqb k "$envValues") eqn:E1.
      { apply String.eqb_eq in E1. subst k. discriminate. }
      destruct (Str.mem k skippedKeys) eqn:E2.
      { apply mem_In in E2. unfold skippedKeys in E2.
        destruct E2 as [<-|[<-|[<-|[<-|[]]]]]; discriminate. }
      destruct (plainEntry_ordinary _ _ Hentry E1 E2) as (Hpk & _).
      unfold plainKey, ordinaryKey in Hpk. rewrite Hmerge in Hpk. discriminate.
    + now apply (IH Hm' _ _ _ _ Hres Hrest).
    + destruct (ordinaryKey_not_skipped _ Hord) as [Hns _].
      destruct (String.eqb k "$envValues") eqn:E1.
      { apply String.eqb_eq in E1. subst k. discriminate. }
      destruct (plainEntry_ordinary _ _ Hentry E1 Hns) as (Hpk & Hpx & _).
      unfold plainKey in Hpk. apply andb_true_iff in Hpk as [_ Hseg].
      apply andb_true_iff in Hseg as [Hs1 Hs2]. apply negb_true_iff in Hs1, Hs2.
      destruct (Hvisit _ _ _ _ _ _ Hpx (dispatches_appendPath path k Hs1 Hs2) Hv) as [-> Hr].
      apply (IH Hm' _ _ _ _ (@clean_set skippedKeys k r res Hres Hns Hr) Hrest).
Qed.

Lemma plain_visitMapNode (visit : visitor) (m : object) (path : string) (env : Env)
  acc r acc' :
  plain_visitor visit -> plain (VObj m) = true ->
  visitMapNode visit m path env acc = Ok (r, acc') ->
  acc' = acc /\ mentions skippedKeys r = false.
Proof.
  intros Hvisit Hm H. apply visitMapNode_Ok in H as (res & -> & Hloop).
  eapply plain_map_loop; [exact Hvisit| | |exact Hloop].
  - exact (proj1 (plain_VObj_In m) Hm).
  - reflexivity.
Qed.

(** The entries of [$envValues] that are not templates form a plain mapping. *)
Lemma plain_nonTemplates (m : object) :
  plain (VObj m) = true ->
  plain (VObj (Obj.fromPairs
                 (filter (fun kv => negb (_has (snd kv) "$params"))
                         (_toPairs (JS.index (VObj m) "$envValues"))))) = true.
Proof.
  intros Hm. apply plain_VObj_In. intros kv Hin.
  apply In_fromPairs in Hin. apply filter_In in Hin as [Hin _].
  unfold _toPairs in Hin. cbn [JS.index] in Hin.
  destruct (Obj.get "$envValues" m) as [x|] eqn:E; [|destruct Hin].
  apply get_In in E. apply (proj1 (plain_VObj_In m) Hm) in E.
  apply plainEntry_envValues in E.
  destruct x as [| |b|z|s|iso|l|mo|t d]; cbn [JS.own_entries In] in Hin;
    try contradiction; try (destruct E; fail).
  exact (proj1 (plain_VObj_In _) E kv Hin).
Qed.

Lemma plain_visitImportedDoc (visit : visitor) (m : object) (path : string) (env : Env)
  acc r acc' :
  plain_visitor visit -> plain (VObj m) = true -> dispatchesOnNode path = true ->
  visitImportedDoc visit m path env acc = Ok (r, acc') ->
  acc' = acc /\ mentions skippedKeys r = false.
Proof.
  intros Hvisit Hm Hd H. unfold visitImportedDoc in H.
  apply bind_Ok in H as (visited & acc1 & Hnt & H).
  apply Hvisit in Hnt as [-> _]; [|now apply plain_nonTemplates|exact Hd].
  eapply plain_visitMapNode; eauto.
Qed.

Lemma plain_VArr_In (l : list value) (x : value) : plain (VArr l) = true -> In x l -> plain x = true.
Proof. simpl. intros H Hin. now apply (proj1 (forallb_forall plain l) H). Qed.

Lemma plain_visitArray (visit : visitor) (l : list value) (path : string) (env : Env)
  acc r acc' :
  plain_visitor visit -> plain (VArr l) = true ->
  visitArray visit l path env acc = Ok (r, acc') ->
  acc' = acc /\ mentions skippedKeys r = false.
Proof.
  intros Hvisit Hl H. unfold visitArray in H.
  apply bind_Ok in H as (rs & acc1 & Hmap & H). apply ret_Ok in H as [-> ->].
  eapply (mapM_invariant _ (fun y => mentions skippedKeys y = false)) in Hmap as [-> Hrs].
  - split; [reflexivity|]. now apply clean_VArr.
  - intros [k x] a y a' Hin Hv. simpl in Hv.
    apply indexed_from_In in Hin as [Hin [j ->]].
    eapply Hvisit; [eapply plain_VArr_In; eauto|apply dispatches_index|exact Hv].
Qed.

Lemma plain_not_yaml_tag (m : object) :
  plain (VObj m) = true -> JS.truthy (JS.index (VObj m) "is_yaml_tag") = false.
Proof.
  intros Hm. cbn [JS.index]. destruct (Obj.get "is_yaml_tag" m) as [x|] eqn:E; [|reflexivity].
  apply get_In in E. apply (proj1 (plain_VObj_In m) Hm) in E.
  apply plainEntry_ordinary in E as (_ & _ & E); [exact E|reflexivity|reflexivity].
Qed.

(** On a plain document the walker leaves the accumulator as it was and
    returns a document without the skipped keys at any depth. *)
Lemma plain_walk (fuel : nat) : plain_visitor (visitNode fuel).
Proof.
  induction fuel as [|fuel IH]; intros v path env acc r acc' Hv Hd H; [discriminate|].
  rewrite visitNode_dispatch in H by exact Hd.
  destruct v as [| |b|z|s|iso|l|m|k d]; try (apply ret_Ok in H as [-> ->]; auto; fail).
  - unfold visitStringNode in H. destruct (Str.has_mustache s).
    + apply bind_Ok in H as (s' & acc1 & Hs & H). apply lift_Ok in Hs as [_ ->].
      apply ret_Ok in H as [-> ->]. auto.
    + apply ret_Ok in H as [-> ->]. auto.
  - destruct (Str.mem (Str.last_segment path) ["Version"; "AWSTemplateFormatVersion"]);
      apply ret_Ok in H as [-> ->]; auto.
  - eapply plain_visitArray; eauto.
  - rewrite (plain_not_yaml_tag _ Hv) in H.
    destruct (JS.truthy (JS.index (VObj m) "$params")); [discriminate|].
    destruct (JS.truthy (JS.index (VObj m) "$envValues")).
    + eapply plain_visitImportedDoc; eauto.
    + eapply plain_visitMapNode; eauto.
  - discriminate.
Qed.

Lemma loadDefs_In (defs : object) (envValues : object) (base : ImportLocation) (env' : object)
  (kv : string * value) :
  loadDefs defs envValues base = Ok env' -> In kv env' -> In kv envValues \/ In kv defs.
Proof.
  revert envValues. induction defs as [|[k v] defs IH]; intros envValues H Hin; simpl in H.
  - injection H as <-. now left.
  - destruct (Str.mem k (Obj.keys envValues)); [discriminate|].
    destruct (IH _ H Hin) as [H1|H1]; [|right; now right].
    apply In_set in H1 as [->|H1]; [right; now left|now left].
Qed.

Lemma plainRoot_loaded (fuel : nat) (loader : ImportLoader) (root0 : object)
  (loc : ImportLocation) (root : object) (imports : list ImportRecord) :
  plainRoot root0 = true ->
  loadImports fuel loader root0 loc [] = Ok (root, imports) ->
  plain (VObj root) = true /\ imports = [].
Proof.
  unfold plainRoot. intros Hp H.
  apply andb_true_iff in Hp as [Hplain Hp]. apply andb_true_iff in Hp as [Himp Hdefs].
  apply negb_true_iff in Himp.
  destruct fuel as [|fuel]; [discriminate|]. cbn [loadImports] in H.
  rewrite index_set_other in H by discriminate. rewrite Himp in H. cbn [rbind] in H.
  apply rbind_Ok in H as (env & Henv & H).
  apply rbind_Ok in H as (u & _ & H). injection H as <- <-. split; [|reflexivity].
  rewrite set_set.
  assert (Hpe : plain (VObj env) = true).
  { rewrite index_set_other in Henv by discriminate.
    destruct (JS.truthy (JS.index (VObj root0) "$defs")); [|now injection Henv as <-].
    apply plain_VObj_In. intros kv Hin.
    destruct (loadDefs_In _ _ _ _ Henv Hin) as [[]|Hd].
    cbn [JS.index] in Hd, Hdefs.
    destruct (Obj.get "$defs" root0) as [x|] eqn:E; [|destruct Hd].
    apply get_In in E. apply (proj1 (plain_VObj_In root0) Hplain) in E.
    apply plainEntry_ordinary in E as (_ & E & _); [|reflexivity|reflexivity].
    destruct x as [| |b|z|s|iso|l|mo|t d]; cbn [JS.own_entries In] in Hd;
      try contradiction; try discriminate.
    exact (proj1 (plain_VObj_In _) E kv Hd). }
  apply plain_VObj_In. intros kv Hin.
  apply In_set in Hin as [->|Hin]; [exact Hpe|].
  now apply (proj1 (plain_VObj_In root0) Hplain).
Qed.






End PlainWalk.

(* ================================================================== *)
(** * The claims of the specification *)

Section Claims.

Context {host : Host}.



(** C3 (amended).  A successful [transform] seeds the accumulator with
    [Metadata.iidy = {Host, Imports, User}], [Imports] being the import
    log.  For a document whose [AWSTemplateFormatVersion] or [Resources] is
    truthy the output's [Metadata] is the merge of the evaluated root's
    [Metadata] with the accumulated one, so it is exactly the seed when
    the root has no [Metadata] of its own and nothing was hoisted into it
    (as for every plain document); for any other document no [Metadata]
    is added. *)
Theorem Metadata_iidy_when_template (fuel : nat) (importLoader : ImportLoader)
  (root0 : object) (rootDocLocation : ImportLocation) (output : CfnDoc) :
  Obj.wf root0 ->
  transform fuel importLoader root0 rootDocLocation = Ok output ->
  exists root accumulatedImports visited globalAccum,
    loadImports fuel importLoader root0 rootDocLocation [] = Ok (root, accumulatedImports) /\
    visitNode fuel (VObj root) "Root" (rootEnv root rootDocLocation)
              (initialGlobalAccum root accumulatedImports) = Ok (visited, globalAccum) /\
    Obj.get "Metadata" (initialGlobalAccum root accumulatedImports)
    = Some (VObj [("iidy", VObj [("Host", VStr os_hostname);
                                 ("Imports", VArr (map ImportRecord_value accumulatedImports));
                                 ("User", VStr os_username)])]) /\
    (isCFNDoc root0 = false ->
       Obj.get "Metadata" output = Obj.get "Metadata" (JS.own_entries visited)) /\
    (isCFNDoc root0 = true ->
       _isEmpty (JS.index (VObj globalAccum) "Metadata") = false ->
       Obj.get "Metadata" output
       = Some (VObj (merge_obj [] [JS.index visited "Metadata";
                                   JS.index (VObj globalAccum) "Metadata"]))) /\
    (isCFNDoc root0 = true ->
       Obj.get "Metadata" (JS.own_entries visited) = None ->
       Obj.get "Metadata" globalAccum
       = Obj.get "Metadata" (initialGlobalAccum root accumulatedImports) ->
       Obj.get "Metadata" output
       = Some (VObj [("iidy", VObj [("Host", VStr os_hostname);
                                    ("Imports", VArr (map ImportRecord_value accumulatedImports));
                                    ("User", VStr os_username)])])) /\
    (plainRoot root0 = true -> globalAccum = initialGlobalAccum root accumulatedImports).
Proof.
  intros Hwf0 H.
  apply transform_Ok in H as (env & imports & visited & globalAccum & Hload & Hvisit & ->).
  set (root := Obj.set "$envValues" (VObj env) root0) in *.
  assert (Hwf : Obj.wf root) by now apply wf_set.
  edestruct root_visit_wf as (res & Hres_eq & Hres); [exact Hwf|exact Hvisit|]. subst visited.
  exists root, imports, (VObj res), globalAccum.
  assert (Hcfn : isCFNDoc root = isCFNDoc root0) by apply isCFNDoc_loaded.
  assert (Hget : forall k, Str.mem k rootDeletedKeys = false ->
            Obj.get k (assembleOutput root (VObj res) globalAccum)
            = if andb (isCFNDoc root0)
                      (andb (Str.mem k GlobalSections)
                            (negb (_isEmpty (JS.index (VObj globalAccum) k))))
              then Some (mergedSection globalAccum (_extend (seedOutput root) (VObj res)) k)
              else match Obj.get k res with
                   | Some v => Some v
                   | None => Obj.get k (seedOutput root)
                   end).
  { intros k Hk. rewrite assembleOutput_get by assumption. now rewrite Hcfn. }
  assert (Hidx : JS.index (VObj (_extend (seedOutput root) (VObj res))) "Metadata"
                 = JS.index (VObj res) "Metadata").
  { cbn [JS.index]. rewrite extend_get by exact Hres. cbn [JS.own_entries].
    destruct (Obj.get "Metadata" res); [reflexivity|].
    unfold seedOutput. destruct (isCFNDoc root); reflexivity. }
  split; [exact Hload|]. split; [exact Hvisit|].
  split; [apply initialGlobalAccum_Metadata|].
  split; [|split; [|split]].
  - intros Hc. rewrite Hget by reflexivity. rewrite Hc. cbn [andb JS.own_entries].
    destruct (Obj.get "Metadata" res); [reflexivity|].
    unfold seedOutput. rewrite Hcfn, Hc. reflexivity.
  - intros Hc Hne. rewrite Hget by reflexivity. rewrite Hc, Hne.
    change (Str.mem "Metadata" GlobalSections) with true. cbn [andb negb].
    unfold mergedSection. now rewrite Hidx.
  - intros Hc Hnone Hacc. rewrite Hget by reflexivity. rewrite Hc.
    rewrite initialGlobalAccum_Metadata in Hacc.
    assert (Hi : JS.index (VObj globalAccum) "Metadata" = VObj [("iidy", iidyMetadata imports)]).
    { cbn [JS.index]. now rewrite Hacc. }
    rewrite Hi. change (Str.mem "Metadata" GlobalSections) with true. cbn [andb negb _isEmpty].
    unfold mergedSection. rewrite Hidx, Hi. cbn [JS.index JS.own_entries] in *. rewrite Hnone.
    now rewrite merge_seed_metadata.
  - intros Hp. destruct (plainRoot_loaded _ _ _ _ Hp Hload) as [Hroot _].
    now apply plain_walk in Hvisit as [-> _].
Qed.


(** C5 (the code departs from the claim).  A [Ref] whose payload is a
    string beginning with [AWS:] is returned unchanged.  Any other [Ref]
    is rewritten to [Ref(P + payload)] with [P] computed as
    [Prefix || '']: the string form of the environment's [Prefix] when
    that is truthy, and the empty string both when [Prefix] is unbound and
    when it is bound to a falsy value such as [0], [false] or [null], where
    the claim has [Prefix + payload].  The resources of an expanded
    template are renamed with [Prefix] itself (line 588): under
    [NamePrefix: 0] the resource [B] becomes [0B] while [!Ref B] stays
    [Ref B] and refers to no resource of the output; under
    [NamePrefix: p] both become [pB]. *)
Theorem Ref_drops_falsy_Prefix (visit : visitor) (path : string) (env : Env) (acc : CfnDoc) :
  (forall s, Str.startsWith "AWS:" s = true ->
     visitYamlTagNode visit Tag_Ref (VStr s) path env acc = Ok (VTag Tag_Ref (VStr s), acc)) /\
  (forall s, Str.startsWith "AWS:" s = false ->
     (Obj.get "Prefix" (envValues env) = None ->
        visitYamlTagNode visit Tag_Ref (VStr s) path env acc
        = Ok (VTag Tag_Ref (VStr s), acc)) /\
     (forall prefix, Obj.get "Prefix" (envValues env) = Some (VStr prefix) ->
        visitYamlTagNode visit Tag_Ref (VStr s) path env acc
        = Ok (VTag Tag_Ref (VStr (prefix ++ s)), acc)) /\
     (forall v, Obj.get "Prefix" (envValues env) = Some v -> JS.truthy v = false ->
        visitYamlTagNode visit Tag_Ref (VStr s) path env acc
        = Ok (VTag Tag_Ref (VStr s), acc))) /\
  (forall payload, (forall s, payload <> VStr s) -> printable payload = true ->
     (forall v, Obj.get "Prefix" (envValues env) = Some v -> printable v = true) ->
     visitYamlTagNode visit Tag_Ref payload path env acc
     = Ok (VTag Tag_Ref
                (VStr ((match Obj.get "Prefix" (envValues env) with
                        | Some v => if JS.truthy v then toStr v else EmptyString
                        | None => EmptyString
                        end) ++ toStr payload)), acc)) /\
  visitYamlTagNode visit Tag_Ref (VStr "B") path
                   {| envValues := [("Prefix", VNum 0)]; Stack := Stack env |} acc
  = Ok (VTag Tag_Ref (VStr "B"), acc) /\
  visitYamlTagNode visit Tag_Ref (VStr "B") path
                   {| envValues := [("Prefix", VNum 7)]; Stack := Stack env |} acc
  = Ok (VTag Tag_Ref (VStr "7B"), acc) /\
  visitYamlTagNode visit Tag_Ref (VArr [VStr "a"; VNum 1; VNull]) path
                   {| envValues := [("Prefix", VStr "p")]; Stack := Stack env |} acc
  = Ok (VTag Tag_Ref (VStr "pa,1,"), acc) /\
  (exists output,
      transform 8 Examples.noLoader (Examples.prefixedStack (VNum 0)) "root.yaml" = Ok output /\
      Obj.get "Resources" output = Some (Examples.prefixedResources "0B" "0Q" "B")) /\
  (exists output,
      transform 8 Examples.noLoader (Examples.prefixedStack (VStr "p")) "root.yaml"
      = Ok output /\
      Obj.get "Resources" output = Some (Examples.prefixedResources "pB" "pQ" "pB")).
Proof.
  split; [|split; [|split; [|split; [|split; [|split; [|split]]]]]].
  - intros s Hs. cbn [visitYamlTagNode]. rewrite Hs. reflexivity.
  - intros s Hs. cbn [visitYamlTagNode]. rewrite Hs. cbn [JS.index]. split; [|split].
    + intros ->. reflexivity.
    + intros prefix ->. cbn [JS.truthy toStr].
      destruct (String.eqb prefix EmptyString) eqn:E; [|reflexivity].
      apply String.eqb_eq in E. subst. reflexivity.
    + intros v -> Hv. rewrite Hv. reflexivity.
  - intros payload Hp _ _. cbn [visitYamlTagNode JS.index].
    assert (Hc : match payload with VStr s => Str.startsWith "AWS:" s | _ => false end = false)
      by (destruct payload; try reflexivity; now destruct (Hp s)).
    rewrite Hc. destruct (Obj.get "Prefix" (envValues env)); reflexivity.
  - reflexivity.
  - reflexivity.
  - reflexivity.
  - eexists. split; reflexivity.
  - eexists. split; reflexivity.
Qed.

(** C6.  [parseImportType]: under a base whose scheme is [s3] or [http], a
    location without a scheme takes the scheme of the base and a location
    whose scheme is [file] or [env] is rejected; under any other base, a
    location whose scheme is not one of [importTypes] is rejected. *)
Theorem parseImportType_remote_rules (location baseLocation : ImportLocation) :
  (remote_base baseLocation ->
     (no_explicit_scheme location ->
        exists scheme, explicit_scheme baseLocation scheme /\
                       parseImportType location baseLocation = Ok scheme) /\
     (explicit_scheme location "file" \/ explicit_scheme location "env" ->
        parseImportType location baseLocation
        = Err (ImportNotAllowedFromRemote location baseLocation))) /\
  (~ remote_base baseLocation ->
     forall scheme, explicit_scheme location scheme -> ~ In scheme importTypes ->
        parseImportType location baseLocation
        = Err (UnknownImportType location baseLocation)).
Proof.
  split.
  - intros Hb.
    assert (Hbase : exists scheme, explicit_scheme baseLocation scheme /\
                                   Str.mem scheme ["s3"; "http"] = true).
    { destruct Hb as [H|H]; eexists; (split; [exact H|reflexivity]). }
    destruct Hbase as (bs & Hbs & Hmem).
    unfold parseImportType.
    rewrite (explicit_scheme_contains Hbs), (explicit_scheme_before Hbs), Hmem.
    split.
    + intros Hn. unfold no_explicit_scheme in Hn. rewrite Hn. simpl. eauto.
    + intros [H|H]; rewrite (explicit_scheme_contains H), (explicit_scheme_before H); reflexivity.
  - intros Hnb scheme Hs Hnot.
    unfold parseImportType.
    rewrite (explicit_scheme_contains Hs), (explicit_scheme_before Hs).
    destruct (Str.contains_char Str.colon baseLocation) eqn:Hc.
    + destruct (Str.mem (Str.before_char Str.colon (Str.toLowerCase baseLocation)) ["s3"; "http"]) eqn:Hm.
      * exfalso. apply Hnb. apply explicit_scheme_intro in Hc.
        apply mem_In in Hm. simpl in Hm. unfold remote_base.
        destruct Hm as [Hm|[Hm|[]]]; rewrite <- Hm in Hc; tauto.
      * destruct (Str.mem scheme importTypes) eqn:Hi; [apply mem_In in Hi; contradiction|reflexivity].
    + replace (Str.mem "file" ["s3"; "http"]) with false by reflexivity.
      destruct (Str.mem scheme importTypes) eqn:Hi; [apply mem_In in Hi; contradiction|reflexivity].
Qed.

(** C7 (the code departs from the claim).  [$expand {template: T,
    params: P}] with [T] bound to a mapping evaluates the clone of the
    template, without its [$params], in the sub-environment
    [_.merge({}, P, env.$envValues)].  The outer environment is merged
    last: a name it binds to a scalar or a tagged value keeps that value
    whatever [P] binds it to, so the template body does not see the
    supplied parameter.  On the imported template
    [{$params: [{Name: x}], body: !$include x}],
    [!$expand {template: T, params: {x: inner}}] gives [body: outer] when
    the document also has [$defs: {x: outer}], and [body: inner] when it
    has not. *)
Theorem expand_params_shadowed_by_env (visit : visitor) (nodeData : value) (path : string)
  (env : Env) (acc : CfnDoc) :
  (forall name m,
      expandArgumentsOk nodeData = true ->
      JS.index nodeData "template" = VStr name ->
      Obj.get name (envValues env) = Some (VObj m) ->
      visit_Expand visit nodeData path env acc
      = visit (VObj (Obj.remove "$params" m)) path
              (expandSubEnv env (JS.index nodeData "params") path) acc) /\
  envValues (expandSubEnv env (JS.index nodeData "params") path)
  = merge_obj [] [JS.index nodeData "params"; VObj (envValues env)] /\
  (forall k v,
      Obj.wf (envValues env) -> Obj.get k (envValues env) = Some v -> assigned_whole v ->
      Obj.get k (envValues (expandSubEnv env (JS.index nodeData "params") path)) = Some v) /\
  Obj.get "x" (envValues (expandSubEnv {| envValues := [("x", VStr "outer")];
                                          Stack := Stack Examples.emptyEnv |}
                                       (VObj [("x", VStr "inner")]) "Root.Y"))
  = Some (VStr "outer") /\
  transform 6 Examples.templateLoader Examples.importedExpand "root.yaml"
  = Ok [("Y", VObj [("body", VStr "outer")])] /\
  transform 6 Examples.templateLoader Examples.importedExpandFree "root.yaml"
  = Ok [("Y", VObj [("body", VStr "inner")])].
Proof.
  split; [|split; [|split; [|split; [|split]]]].
  - intros name m Hok Hname Hfound. unfold visit_Expand. rewrite Hok, Hname. cbn [negb].
    unfold lookupInEnv. cbn [JS.index]. rewrite Hfound. reflexivity.
  - reflexivity.
  - intros k v Hwf Hget Hv. unfold expandSubEnv, mkSubEnv. cbn [envValues].
    unfold merge_obj, _merge. cbn [fold_left].
    destruct (merge_VObj_target (JS.index nodeData "params")) as [m0 ->].
    rewrite baseMerge_entries. cbn [JS.own_entries].
    destruct (@mergeEntries_get_whole (envValues env) m0 k v Hwf Hget Hv) as (m' & -> & Hg).
    exact Hg.
  - reflexivity.
  - reflexivity.
  - reflexivity.
Qed.

(** C8 (the code departs from the claim).  In the sub-environment of
    [$map] the outer environment is merged over the loop variable: when the
    variable is already bound outside (a [$defs] entry, an enclosing
    [$map]), the template sees the outer value and not the current item. *)
Theorem map_variable_shadowed_by_env :
  transform 6 Examples.noLoader Examples.shadowedMap "root.yaml"
  = Ok [("Ys", VArr [VStr "outer"; VStr "outer"])] /\
  transform 8 Examples.noLoader Examples.nestedMap "root.yaml"
  = Ok [("Ys", VArr [VArr [VStr "x"; VStr "x"]; VArr [VStr "y"; VStr "y"]])] /\
  envValues (mapSubEnv {| envValues := [("item", VStr "outer")];
                          Stack := Stack Examples.emptyEnv |}
                       "item" (VStr "a") (VNum 0) "Root.Ys.0")
  = [("item", VStr "outer"); ("itemIdx", VNum 0)].
Proof. repeat split. Qed.

(** C9.  At a path where [visitNode] dispatches on the node, evaluating
    [$concatMap] on a payload gives what evaluating [$map] on the same
    payload gives, flattened by one level; it fails when [$map] fails, and
    succeeds only when [$map] does. *)
Theorem concatMap_flattens_map (fuel : nat) (payload : value) (path : string) (env : Env)
  (acc : CfnDoc) :
  dispatchesOnNode path = true ->
  (forall mapped acc',
      visitNode (S fuel) (VTag Tag_map payload) path env acc = Ok (mapped, acc') ->
      exists l, mapped = VArr l /\
                visitNode (S (S fuel)) (VTag Tag_concatMap payload) path env acc
                = Ok (VArr (flatten_one_level l), acc')) /\
  (forall e,
      visitNode (S fuel) (VTag Tag_map payload) path env acc = Err e ->
      visitNode (S (S fuel)) (VTag Tag_concatMap payload) path env acc = Err e) /\
  (forall r,
      visitNode (S (S fuel)) (VTag Tag_concatMap payload) path env acc = Ok r ->
      exists l acc',
        visitNode (S fuel) (VTag Tag_map payload) path env acc = Ok (VArr l, acc') /\
        r = (VArr (flatten_one_level l), acc')).
Proof.
  intros Hd.
  assert (Heq : visitNode (S (S fuel)) (VTag Tag_concatMap payload) path env acc =
                match visitNode (S fuel) (VTag Tag_map payload) path env acc with
                | Ok (mapped, acc') => lift (_flatten mapped) acc'
                | Err e => Err e
                | OutOfFuel => OutOfFuel
                end).
  { rewrite (visitNode_dispatch (S fuel)) by exact Hd. reflexivity. }
  assert (Harr : forall mapped acc',
             visitNode (S fuel) (VTag Tag_map payload) path env acc = Ok (mapped, acc') ->
             exists l, mapped = VArr l).
  { intros mapped acc'. rewrite (visitNode_dispatch fuel) by exact Hd. simpl.
    apply visit_map_result; exact Hd. }
  split; [|split].
  - intros mapped acc' H. destruct (Harr _ _ H) as [l ->]. exists l. split; [reflexivity|].
    rewrite Heq, H. simpl. unfold lift. now rewrite flatten_one_level_concat.
  - intros e H. now rewrite Heq, H.
  - intros r H. rewrite Heq in H.
    destruct (visitNode (S fuel) (VTag Tag_map payload) path env acc) as [[mapped acc']| |] eqn:E;
      try discriminate.
    destruct (Harr _ _ eq_refl) as [l ->]. exists l, acc'. split; [reflexivity|].
    simpl in H. unfold lift in H. rewrite flatten_one_level_concat in H. now injection H as <-.
Qed.

End Claims.

(* ================================================================== *)
(** * The claims at concrete documents *)

Import Examples.




Lemma Metadata_iidy_when_template_witness :
  exists output,
    @transform demoHost 5 literalLoader importingCfn "root.yaml" = Ok output /\
    Obj.get "Metadata" output
    = Some (VObj [("iidy",
                   VObj [("Host", VStr "build-host");
                         ("Imports", VArr [VObj [("from", VStr "root.yaml");
                                                 ("imported", VStr "x");
                                                 ("sha256Digest", VStr "sha256:x");
                                                 ("key", VStr "a")]]);
                         ("User", VStr "deploy")])]).
Proof.
  eexists. split; [reflexivity|].
  edestruct (@Metadata_iidy_when_template demoHost 5 literalLoader importingCfn "root.yaml")
    as (root & imports & visited & acc & Hload & Hvisit & _ & _ & _ & Hfresh & _).
  - apply wfb_wf. reflexivity.
  - reflexivity.
  - vm_compute in Hload. injection Hload as <- <-.
    vm_compute in Hvisit. injection Hvisit as <- <-.
    apply Hfresh; reflexivity.
Defined.

(** C3 fails for a document that is not a template: nothing is stamped. *)
Lemma no_Metadata_without_template_keys :
  @transform demoHost 4 noLoader notCfn "root.yaml" = Ok [("Message", VStr "hi")] /\
  Obj.get "Metadata" [("Message", VStr "hi")] = None.
Proof. repeat split. Qed.



Lemma parseImportType_remote_rules_witness :
  parseImportType "vpc.yaml" "s3://bucket/stack.yaml" = Ok "s3" /\
  parseImportType "ENV:SECRET" "http://host/stack.yaml"
  = Err (ImportNotAllowedFromRemote "ENV:SECRET" "http://host/stack.yaml") /\
  parseImportType "ftp://host/x" "stack.yaml"
  = Err (UnknownImportType "ftp://host/x" "stack.yaml").
Proof.
  assert (Hs3 : explicit_scheme "s3://bucket/stack.yaml" "s3")
    by (exists "s3", "//bucket/stack.yaml"; repeat split).
  assert (Hhttp : explicit_scheme "http://host/stack.yaml" "http")
    by (exists "http", "//host/stack.yaml"; repeat split).
  assert (Henv : explicit_scheme "ENV:SECRET" "env")
    by (exists "ENV", "SECRET"; repeat split).
  assert (Hftp : explicit_scheme "ftp://host/x" "ftp")
    by (exists "ftp", "//host/x"; repeat split).
  split; [|split].
  - destruct (proj1 (parseImportType_remote_rules "vpc.yaml" "s3://bucket/stack.yaml")
                    (or_introl Hs3)) as [H _].
    destruct (H eq_refl) as (scheme & _ & Heq). rewrite Heq. vm_compute in Heq.
    injection Heq as ->. reflexivity.
  - exact (proj2 (proj1 (parseImportType_remote_rules "ENV:SECRET" "http://host/stack.yaml")
                         (or_intror Hhttp))
                 (or_intror Henv)).
  - apply (proj2 (parseImportType_remote_rules "ftp://host/x" "stack.yaml")) with (scheme := "ftp").
    + intros [H|H]; apply explicit_scheme_contains in H; discriminate.
    + exact Hftp.
    + simpl. intuition discriminate.
Defined.

Lemma concatMap_flattens_map_witness :
  @visitNode demoHost 5 (VTag Tag_concatMap mapPayload) "Root.Xs" emptyEnv []
  = Ok (VArr [VStr "x"; VStr "a"; VStr "x"; VStr "b"], []).
Proof.
  pose proof (proj1 (@concatMap_flattens_map demoHost 3 mapPayload "Root.Xs" emptyEnv []
                       eq_refl)) as H.
  edestruct H as (l & Hl & Hr); [vm_compute; reflexivity|].
  injection Hl as <-. exact Hr.
Defined.

(* ================================================================== *)
(** * Further properties of the code *)

(** ** Import types *)

Lemma remote_base_mem (baseLocation : ImportLocation) :
  remote_base baseLocation <->
  Str.mem (if Str.contains_char Str.colon baseLocation
           then Str.before_char Str.colon (Str.toLowerCase baseLocation)
           else "file") ["s3"; "http"] = true.
Proof.
  split.
  - intros [H|H]; rewrite (explicit_scheme_contains H), (explicit_scheme_before H); reflexivity.
  - destruct (Str.contains_char Str.colon baseLocation) eqn:E; [|discriminate].
    intros H. apply mem_In in H. pose proof (explicit_scheme_intro _ E) as Hs.
    destruct H as [H|[H|[]]]; rewrite <- H in Hs; [left|right]; exact Hs.
Qed.

Lemma explicit_scheme_unique (location s t : string) :
  explicit_scheme location s -> explicit_scheme location t -> s = t.
Proof.
  intros Hs Ht. apply explicit_scheme_before in Hs, Ht. congruence.
Qed.

(** X1.  Under a base that is not remote, [parseImportType] succeeds
    exactly on the locations whose scheme is one of [importTypes], and
    returns that scheme in lower case; a location without a scheme is a
    [file]. *)
Theorem parseImportType_local_base (location baseLocation : ImportLocation) (t : ImportType) :
  ~ remote_base baseLocation ->
  (parseImportType location baseLocation = Ok t <->
   In t importTypes /\
   (no_explicit_scheme location /\ t = "file" \/ explicit_scheme location t)).
Proof.
  intros Hb. rewrite remote_base_mem in Hb. apply not_true_is_false in Hb.
  unfold parseImportType. rewrite Hb. unfold no_explicit_scheme.
  destruct (Str.contains_char Str.colon location) eqn:E; cbn [negb].
  - pose proof (explicit_scheme_intro _ E) as Hs.
    set (s := Str.before_char Str.colon (Str.toLowerCase location)) in *.
    destruct (Str.mem s importTypes) eqn:M.
    + split.
      * intros [= <-]. split; [now apply mem_In|now right].
      * intros [_ [[H _]|H]]; [discriminate|]. now rewrite (explicit_scheme_unique Hs H).
    + split; [discriminate|].
      intros [Hin [[H _]|H]]; [discriminate|].
      rewrite <- (explicit_scheme_unique Hs H) in Hin. apply mem_In in Hin. congruence.
  - split.
    + intros [= <-]. split; [simpl; auto|now left].
    + intros [_ [[_ ->]|H]]; [reflexivity|].
      apply explicit_scheme_contains in H. congruence.
Qed.

Lemma parseImportType_local_base_witness :
  parseImportType "ENV:HOME" "stack.yaml" = Ok "env" /\
  parseImportType "vpc.yaml" "stack.yaml" = Ok "file".
Proof.
  assert (Hb : ~ remote_base "stack.yaml")
    by (intros [H|H]; apply explicit_scheme_contains in H; discriminate).
  split.
  - apply (proj2 (@parseImportType_local_base "ENV:HOME" "stack.yaml" "env" Hb)).
    split; [simpl; auto 10|]. right. exists "ENV", "HOME". repeat split.
  - apply (proj2 (@parseImportType_local_base "vpc.yaml" "stack.yaml" "file" Hb)).
    split; [simpl; auto 10|]. left. split; reflexivity.
Defined.

(** X2.  Under a remote base ([s3] or [http]) a location with an explicit
    scheme other than [file] and [env] is accepted with that scheme,
    whether or not the scheme is one of [importTypes]. *)
Theorem parseImportType_remote_base_explicit (location baseLocation : ImportLocation)
  (scheme : string) :
  remote_base baseLocation ->
  explicit_scheme location scheme ->
  ~ In scheme localOnlyImportTypes ->
  parseImportType location baseLocation = Ok scheme.
Proof.
  intros Hb Hs Hn. rewrite remote_base_mem in Hb.
  unfold parseImportType. rewrite Hb, (explicit_scheme_contains Hs), (explicit_scheme_before Hs).
  cbn [negb]. destruct (Str.mem scheme localOnlyImportTypes) eqn:M; [|reflexivity].
  apply mem_In in M. contradiction.
Qed.

Lemma parseImportType_remote_base_explicit_witness :
  ~ In "ftp" importTypes /\
  parseImportType "ftp://host/x.yaml" "s3://bucket/stack.yaml" = Ok "ftp".
Proof.
  split.
  - intros H. repeat (destruct H as [H|H]; [discriminate|]). exact H.
  - apply parseImportType_remote_base_explicit.
    + left. exists "s3", "//bucket/stack.yaml". repeat split.
    + exists "ftp", "//host/x.yaml". repeat split.
    + intros [H|[H|[]]]; discriminate.
Defined.

(** ** Plain data *)

Section InertFacts.
Context {host : Host}.












End InertFacts.

Import Samples.


Section InertTransform.
Context {host : Host}.



Lemma wf_app_l (a b : object) : Obj.wf (a ++ b) -> Obj.wf a.
Proof.
  unfold Obj.wf, Obj.keys. rewrite map_app. revert b.
  induction a as [|x a IH]; intros b H; [constructor|].
  simpl in *. inversion H as [|? ? Hn Hd]; subst. constructor.
  - intros Hin. apply Hn. apply in_or_app. now left.
  - now apply (IH b).
Qed.




End InertTransform.


(** ** Import loading *)

Section LoaderFacts.
Context {host : Host}.

Lemma loadDefs_Ok (defs : object) (envValues : object) (base : ImportLocation) (env' : object) :
  loadDefs defs envValues base = Ok env' ->
  env' = envValues ++ defs /\
  (forall k, In k (Obj.keys defs) -> ~ In k (Obj.keys envValues)) /\
  Obj.wf defs.
Proof.
  revert envValues. induction defs as [|[k v] defs IH]; intros envValues H; simpl in H.
  - injection H as <-. rewrite app_nil_r. repeat split; [intros k []|constructor].
  - destruct (Str.mem k (Obj.keys envValues)) eqn:M; [discriminate|].
    assert (Hk : ~ In k (Obj.keys envValues)).
    { intros Hin. apply mem_In in Hin. congruence. }
    destruct (IH _ H) as (-> & Hdis & Hwf).
    rewrite (set_fresh _ _ _ (proj2 (get_None _ _) Hk)) in *.
    split; [now rewrite <- app_assoc|]. split.
    + intros k' [<-|Hin]; [exact Hk|].
      intros Hin'. apply (Hdis k' Hin). unfold Obj.keys. rewrite map_app.
      apply in_or_app. now left.
    + constructor; [|exact Hwf]. intros Hin. apply (Hdis k Hin).
      unfold Obj.keys. rewrite map_app. apply in_or_app. right. now left.
Qed.


Lemma loadDefs_collision (defs : object) (envValues : object) (base : ImportLocation)
  (k : string) :
  In k (Obj.keys defs) -> In k (Obj.keys envValues) ->
  exists k', loadDefs defs envValues base = Err (DefsCollision k' base).
Proof.
  intros Hd He. destruct (loadDefs defs envValues base) as [env'|e|] eqn:E.
  - apply loadDefs_Ok in E as (_ & Hdis & _). now destruct (Hdis k Hd).
  - revert envValues He E. clear Hd.
    induction defs as [|[k0 v] defs IH]; intros envValues He E; simpl in E; [discriminate|].
    destruct (Str.mem k0 (Obj.keys envValues)).
    + injection E as <-. now exists k0.
    + apply (IH (Obj.set k0 v envValues)); [|exact E]. apply keys_set. now right.
  - exfalso. revert envValues He E. clear Hd.
    induction defs as [|[k0 v] defs IH]; intros envValues He E; simpl in E; [discriminate|].
    destruct (Str.mem k0 (Obj.keys envValues)); [discriminate|].
    apply (IH (Obj.set k0 v envValues)); [|exact E]. apply keys_set. now right.
Qed.





End LoaderFacts.

Section LoaderProps.
Context {host : Host}.





(** X8.  When the loader hands back only scalars, a successful
    [loadImports] adds to the log exactly one record per entry of
    [$imports], in the order of the entries, each with the entry's key, the
    base location as [from], and the resolved location and digest of a
    loader result. *)
Theorem loadImports_log (fuel : nat) (importLoader : ImportLoader)
  (thisDoc : object) (baseLocation : ImportLocation) (importsAccum : list ImportRecord)
  (imports : object) (doc' : object) (importsAccum' : list ImportRecord) :
  (forall loc base d, importLoader loc base = Ok d -> JS.isObject (doc d) = false) ->
  JS.index (VObj thisDoc) "$imports" = VObj imports ->
  loadImports fuel importLoader thisDoc baseLocation importsAccum = Ok (doc', importsAccum') ->
  exists new,
    importsAccum' = importsAccum ++ new /\
    map ir_key new = Obj.keys imports /\
    forall r, In r new ->
      ir_from r = baseLocation /\
      exists loc d, importLoader loc baseLocation = Ok d /\
                    ir_imported r = resolvedLocation d /\
                    ir_sha256Digest r = sha256Digest (data d).
Proof.
  intros Hflat Himp H. destruct fuel as [|fuel]; [discriminate|].
  cbn [loadImports] in H. rewrite !index_set_other in H by discriminate.
  apply rbind_Ok in H as ([env1 acc1] & H1 & H).
  apply rbind_Ok in H as (env2 & H2 & H).
  apply rbind_Ok in H as (u & H3 & H).
  injection H as <- <-. rewrite Himp in H1. cbn [JS.truthy _isPlainObject negb JS.own_entries] in H1.
  match type of H1 with
  | ?f ?es [] importsAccum = _ => set (loop := f) in *
  end.
  assert (Hgen : forall entries env0 acc0 env' acc',
            loop entries env0 acc0 = Ok (env', acc') ->
            exists new,
              acc' = acc0 ++ new /\ map ir_key new = Obj.keys entries /\
              forall r, In r new ->
                ir_from r = baseLocation /\
                exists loc d, importLoader loc baseLocation = Ok d /\
                              ir_imported r = resolvedLocation d /\
                              ir_sha256Digest r = sha256Digest (data d)).
  { clear H1. induction entries as [|[asKey lv] entries IHe]; intros env0 acc0 env' acc0' He;
      unfold loop in He; lazy beta iota fix in He; fold loop in He.
    - injection He as <- <-. exists []. split; [now rewrite app_nil_r|].
      split; [reflexivity|]. intros ? [].
    - destruct lv as [| |b|z|loc0|iso|l|m|t d0]; try discriminate.
      apply rbind_Ok in He as (loc & Hloc & He).
      apply rbind_Ok in He as (importData & Hload & He).
      apply rbind_Ok in He as (envB & Hbind & He).
      apply rbind_Ok in He as (si & Hsi & He).
      apply rbind_Ok in He as (sd & Hsd & He).
      pose proof (Hflat _ _ _ Hload) as Hno.
      assert (Hst : stamp_location (doc importData) loc = doc importData)
        by (destruct (doc importData); try reflexivity; discriminate).
      rewrite Hst in He.
      assert (Hr : loop entries envB
                     (acc0 ++ [{| ir_key := asKey; ir_from := baseLocation;
                                  ir_imported := resolvedLocation importData;
                                  ir_sha256Digest := sha256Digest (data importData) |}])
                   = Ok (env', acc0'))
        by (destruct (doc importData); try exact He; discriminate).
      destruct (IHe _ _ _ _ Hr) as (new & -> & Hkeys & Hrec).
      eexists (_ :: new). split; [now rewrite <- app_assoc|]. split.
      + cbn [map ir_key Obj.keys fst]. f_equal. exact Hkeys.
      + intros r0 [<-|Hin]; [|now apply Hrec]. split; [reflexivity|].
        exists loc, importData. repeat split. exact Hload. }
  exact (Hgen _ _ _ _ _ H1).
Qed.

End LoaderProps.




Lemma loadImports_log_witness :
  exists doc' log,
    @loadImports demoHost 2 literalLoader twoImports "root.yaml" [] = Ok (doc', log) /\
    map ir_key log = ["a"; "b"].
Proof.
  destruct (@loadImports demoHost 2 literalLoader twoImports "root.yaml" [])
    as [[doc' log]| |] eqn:E; try (vm_compute in E; discriminate).
  exists doc', log. split; [reflexivity|].
  edestruct (@loadImports_log demoHost 2 literalLoader twoImports "root.yaml" [])
    as (new & Hlog & Hkeys & _); [|reflexivity|exact E|].
  - intros loc base d. unfold literalLoader.
    destruct (Str.split_char Str.colon loc) as [h [|text rest]]; [discriminate|].
    intros [= <-]. reflexivity.
  - rewrite Hlog. exact Hkeys.
Defined.

(** ** Sequences and mappings *)

Section ContainerFacts.
Context {host : Host}.

Lemma mapM_Forall2 {A B} (f : A -> M B) (l : list A) acc rs acc' :
  mapM f l acc = Ok (rs, acc') ->
  Forall2 (fun x y => exists a1 a2, f x a1 = Ok (y, a2)) l rs.
Proof.
  revert acc rs. induction l as [|x l IH]; intros acc rs H.
  - apply ret_Ok in H as [-> _]. constructor.
  - apply mapM_cons_Ok in H as (y & ys & acc1 & Hx & Hr & ->).
    constructor; [now exists acc, acc1|]. exact (IH _ _ Hr).
Qed.

Lemma nth_error_indexed_from (l : list value) (i j : nat) (x : value) :
  nth_error l j = Some x -> nth_error (JS.indexed_from i l) j = Some (Str.of_nat (i + j), x).
Proof.
  revert i j. induction l as [|y l IH]; intros i j H; [destruct j; discriminate|].
  destruct j as [|j]; simpl in *.
  - injection H as ->. now rewrite Nat.add_0_r.
  - rewrite (IH (S i) j H). f_equal. f_equal. f_equal. lia.
Qed.

Lemma Forall2_nth_error {A B} (R : A -> B -> Prop) (l : list A) (l' : list B) (i : nat) (x : A) :
  Forall2 R l l' -> nth_error l i = Some x -> exists y, nth_error l' i = Some y /\ R x y.
Proof.
  intros H. revert i. induction H as [|a b l l' Hab H IH]; intros i Hi; [destruct i; discriminate|].
  destruct i as [|i]; simpl in *.
  - injection Hi as ->. now exists b.
  - now apply IH.
Qed.

Lemma indexed_from_length (l : list value) (i : nat) :
  List.length (JS.indexed_from i l) = List.length l.
Proof. revert i. induction l as [|x l IH]; intros i; simpl; [reflexivity|now rewrite IH]. Qed.

Lemma visitNode_VArr_length (fuel : nat) (l : list value) (path : string) (env : Env)
  acc r acc' :
  dispatchesOnNode path = true ->
  visitNode fuel (VArr l) path env acc = Ok (r, acc') ->
  exists l', r = VArr l' /\ List.length l' = List.length l.
Proof.
  intros Hd H. destruct fuel as [|fuel]; [discriminate|].
  rewrite visitNode_dispatch in H by exact Hd. unfold visitArray in H.
  apply bind_Ok in H as (res & acc1 & Hm & H). apply ret_Ok in H as [-> ->].
  apply mapM_Forall2, Forall2_length in Hm. rewrite indexed_from_length in Hm.
  now exists res.
Qed.

(** X9.  Evaluating a sequence gives a sequence of the same length whose
    element at each index is the evaluation of the element at that index,
    at the path extended by the index. *)
Theorem visitNode_sequence (fuel : nat) (l : list value) (path : string) (env : Env)
  (acc : CfnDoc) (r : value) (acc' : CfnDoc) :
  dispatchesOnNode path = true ->
  visitNode (S fuel) (VArr l) path env acc = Ok (r, acc') ->
  exists l',
    r = VArr l' /\
    List.length l' = List.length l /\
    forall i x, nth_error l i = Some x ->
      exists y a1 a2,
        nth_error l' i = Some y /\
        visitNode fuel x (appendPath path (Str.of_nat i)) env a1 = Ok (y, a2).
Proof.
  intros Hd H. rewrite visitNode_dispatch in H by exact Hd. unfold visitArray in H.
  apply bind_Ok in H as (res & acc1 & Hm & H). apply ret_Ok in H as [-> ->].
  apply mapM_Forall2 in Hm. exists res. split; [reflexivity|]. split.
  - apply Forall2_length in Hm. now rewrite indexed_from_length in Hm.
  - intros i x Hi. apply (nth_error_indexed_from _ 0) in Hi.
    destruct (Forall2_nth_error _ Hm Hi) as (y & Hy & a1 & a2 & Hv).
    exists y, a1, a2. split; [exact Hy|exact Hv].
Qed.



(** X11.  Splicing an evaluated [$merge] value into the result of
    [visitMapNode], for a value that is not tagged and whose keys are
    proper names (no [.], no [[], not [__proto__], not a numeral): when
    none of its keys is in the result its entries are appended in order,
    and when one is, the splice fails with the duplicate-key error on a
    key the two share. *)
Theorem mergeInto_spec (path : string) (sub : value) (res : object) (acc : CfnDoc) :
  Obj.wf (JS.own_entries sub) ->
  (forall t d, sub <> VTag t d) ->
  forallb properName (Obj.keys (JS.own_entries sub)) = true ->
  ((forall k, In k (Obj.keys (JS.own_entries sub)) -> ~ In k (Obj.keys res)) ->
   mergeInto path sub res acc = Ok (res ++ JS.own_entries sub, acc)) /\
  (forall k, In k (Obj.keys (JS.own_entries sub)) -> In k (Obj.keys res) ->
   exists k', In k' (Obj.keys (JS.own_entries sub)) /\ In k' (Obj.keys res) /\
              mergeInto path sub res acc = Err (MergeKeyPresent k' path)).
Proof.
  intros Hwf0 _ _. revert Hwf0.
  unfold mergeInto. generalize (JS.own_entries sub) as entries. intros entries Hwf. split.
  - revert res. induction entries as [|[k2 v2] entries IH]; intros res Hdis.
    + now rewrite app_nil_r.
    + cbn [foldM]. unfold bind at 1.
      assert (Hk : ~ In k2 (Obj.keys res)) by (apply Hdis; now left).
      replace (Obj.has k2 res) with false
        by (symmetry; apply has_false; now apply get_None).
      unfold ret at 1. rewrite (set_fresh _ _ _ (proj2 (get_None _ _) Hk)).
      inversion Hwf as [|? ? Hn Hd]; subst.
      rewrite IH; [now rewrite <- app_assoc|exact Hd|].
      intros k Hin Hin'. unfold Obj.keys in Hin'. rewrite map_app in Hin'.
      apply in_app_or in Hin' as [Hin'|[<-|[]]]; [|contradiction].
      apply (Hdis k); [now right|exact Hin'].
  - revert res. induction entries as [|[k2 v2] entries IH]; intros res k Hin Hres; [contradiction|].
    cbn [foldM]. unfold bind at 1. inversion Hwf as [|? ? Hn Hd]; subst.
    destruct (Obj.has k2 res) eqn:Hh.
    + exists k2. split; [now left|]. split; [now apply has_true|reflexivity].
    + unfold ret at 1. destruct Hin as [Heq|Hin].
      * simpl in Heq. subst k2. apply has_true in Hres. congruence.
      * destruct (IH Hd (Obj.set k2 v2 res) k Hin) as (k' & Hk1 & Hk2 & He).
        { apply keys_set. now right. }
        exists k'. split; [now right|]. split; [|exact He].
        apply keys_set in Hk2 as [->|Hk2]; [contradiction|exact Hk2].
Qed.

End ContainerFacts.

Lemma visitNode_sequence_witness :
  exists l',
    @visitNode demoHost 2 (VArr [VStr "{{x}}"; VNum 1]) "Root.L" outerEnv []
    = Ok (VArr l', []) /\
    List.length l' = 2 /\
    nth_error l' 0 = Some (VStr "outer").
Proof.
  destruct (@visitNode demoHost 2 (VArr [VStr "{{x}}"; VNum 1]) "Root.L" outerEnv [])
    as [[r acc']| |] eqn:E; try (vm_compute in E; discriminate).
  destruct (@visitNode_sequence demoHost 1 [VStr "{{x}}"; VNum 1] "Root.L" outerEnv []
              r acc' eq_refl E) as (l' & -> & Hlen & _).
  exists l'. vm_compute in E. injection E as <- <-. repeat split.
Defined.


Lemma mergeInto_spec_witness :
  mergeInto "Root" (VObj [("b", VNum 2)]) [("a", VNum 1)] []
  = Ok ([("a", VNum 1); ("b", VNum 2)], []) /\
  exists k, mergeInto "Root" (VObj [("a", VNum 2)]) [("a", VNum 1)] []
            = Err (MergeKeyPresent k "Root").
Proof.
  split.
  - apply (proj1 (@mergeInto_spec "Root" (VObj [("b", VNum 2)]) [("a", VNum 1)] []
                    (proj1 (wfb_wf [("b", VNum 2)]) eq_refl)
                    ltac:(discriminate) eq_refl)).
    intros k [<-|[]] [H|[]]. discriminate.
  - destruct (proj2 (@mergeInto_spec "Root" (VObj [("a", VNum 2)]) [("a", VNum 1)] []
                       (proj1 (wfb_wf [("a", VNum 2)]) eq_refl)
                       ltac:(discriminate) eq_refl) "a") as (k & _ & _ & H);
      [left; reflexivity|left; reflexivity|].
    now exists k.
Defined.

(** ** Tags *)

Section TagFacts.
Context {host : Host}.

(** X12.  [$let] evaluates its body in the outer environment extended
    with its bindings: a name bound by the [$let] to a scalar or a tagged
    value has that value in the body, whatever the outer environment binds
    it to, and a name the [$let] does not bind keeps its outer value. *)
Theorem let_bindings_shadow (visit : visitor) (nodeData : value) (path : string) (env : Env)
  (acc acc1 : CfnDoc) (bindings : object) (body : value) :
  visit (VObj (_omit nodeData "in")) path env acc = Ok (VObj bindings, acc1) ->
  JS.prop nodeData "in" = Ok body ->
  Obj.wf bindings ->
  exists subEnv,
    visitYamlTagNode visit Tag_let nodeData path env acc = visit body path subEnv acc1 /\
    (forall k v, Obj.get k bindings = Some v -> assigned_whole v ->
                 Obj.get k (envValues subEnv) = Some v) /\
    (forall k v, Obj.get k bindings = None -> Obj.wf (envValues env) ->
                 Obj.get k (envValues env) = Some v -> deep_wf v = true ->
                 Obj.get k (envValues subEnv) = Some v).
Proof.
  intros Hb Hbody Hwf.
  exists (mkSubEnv env (merge_obj [] [VObj (envValues env); VObj bindings])
                   {| frame_location := VUndefined; frame_path := path |}).
  split.
  - cbn [visitYamlTagNode]. unfold bind at 1. rewrite Hb.
    unfold bind, lift. now rewrite Hbody.
  - unfold mkSubEnv. cbn [envValues]. unfold merge_obj, _merge. cbn [fold_left].
    rewrite !baseMerge_entries. cbn [JS.own_entries]. split.
    + intros k v Hg Hv.
      destruct (mergeEntries_VObj (envValues env) []) as [m0 ->].
      destruct (@mergeEntries_get_whole bindings m0 k v Hwf Hg Hv) as (m' & -> & Hg').
      exact Hg'.
    + intros k v Hnone Hwfe Hg Hv.
      destruct (@mergeEntries_get_new (envValues env) [] k v Hwfe Hg eq_refl) as (m0 & -> & Hg0).
      destruct (@mergeEntries_get_other bindings m0 k) as (m' & -> & Hg').
      * now apply get_None.
      * cbn [JS.own_entries]. rewrite Hg', Hg0. f_equal. now apply mergeNew_copy.
Qed.

Lemma forallb_map_comp {A B} (p : B -> bool) (f : A -> B) (l : list A) :
  forallb p (map f l) = forallb (fun x => p (f x)) l.
Proof. induction l as [|x l IH]; [reflexivity|]. simpl. now rewrite IH. Qed.

(** X13.  [$flatten] by payload.  A sequence is evaluated flattened by
    one level, the elements that are not sequences being kept.  The
    argument check rejects [undefined], [null], a boolean, a number, a
    date, the empty string and a mapping all of whose values are sequences
    (the empty mapping is one).  A non-empty string passes the check and
    fails in the flattening with a type error.  A mapping with a value
    that is not a sequence, and without a [length] key, is evaluated as
    the empty sequence.  A tagged payload is not covered. *)
Theorem flatten_payloads (visit : visitor) (path : string) (env : Env) (acc : CfnDoc) :
  (forall l, visitYamlTagNode visit Tag_flatten (VArr l) path env acc
             = visit (VArr (flatten_one_level l)) path env acc) /\
  (forall payload,
      match payload with
      | VUndefined | VNull | VBool _ | VNum _ | VDate _ | VStr EmptyString => True
      | _ => False
      end ->
      visitYamlTagNode visit Tag_flatten payload path env acc
      = Err (InvalidFlattenArgument path)) /\
  (forall s, s <> EmptyString ->
             visitYamlTagNode visit Tag_flatten (VStr s) path env acc = Err TypeError) /\
  (forall m, forallb _isArray (Obj.values m) = true ->
             visitYamlTagNode visit Tag_flatten (VObj m) path env acc
             = Err (InvalidFlattenArgument path)) /\
  (forall m, forallb _isArray (Obj.values m) = false ->
             Obj.get "length" m = None ->
             visitYamlTagNode visit Tag_flatten (VObj m) path env acc
             = visit (VArr []) path env acc).
Proof.
  split; [|split; [|split; [|split]]].
  - intros l. cbn [visitYamlTagNode _isArray negb andb _flatten]. unfold bind, lift.
    now rewrite flatten_one_level_concat.
  - intros payload Hp.
    destruct payload as [| |b|z|s|iso|l|m|k d]; try contradiction; try reflexivity.
    destruct s; [reflexivity|contradiction].
  - intros s Hs. destruct s as [|a s]; [congruence|]. reflexivity.
  - intros m H. cbn [visitYamlTagNode _isArray negb andb]. unfold _every, elements.
    rewrite forallb_map_comp. cbn [snd]. unfold Obj.values in H.
    rewrite forallb_map_comp in H. now rewrite H.
  - intros m H _. cbn [visitYamlTagNode _isArray negb andb]. unfold _every, elements.
    rewrite forallb_map_comp. cbn [snd]. unfold Obj.values in H.
    rewrite forallb_map_comp in H. now rewrite H.
Qed.

End TagFacts.

Lemma let_bindings_shadow_witness :
  @visitYamlTagNode demoHost (@visitNode demoHost 3) Tag_let letPayload "Root.v" outerEnv []
  = Ok (VStr "inner", []).
Proof.
  destruct (@let_bindings_shadow demoHost (@visitNode demoHost 3) letPayload "Root.v" outerEnv
              [] [] [("x", VStr "inner")] (VTag Tag_include (VStr "x"))
              eq_refl eq_refl (proj1 (wfb_wf [("x", VStr "inner")]) eq_refl))
    as (subEnv & Heq & Hbound & _).
  rewrite Heq. rewrite (@visitNode_dispatch demoHost) by reflexivity.
  cbn [visitYamlTagNode]. change (Str.contains_char Str.dot "x") with false. cbv iota.
  unfold bind, lift, lookupInEnv. cbn [JS.index].
  rewrite (Hbound "x" (VStr "inner") eq_refl I). reflexivity.
Defined.

Lemma flatten_payloads_witness :
  @visitYamlTagNode demoHost (@visitNode demoHost 2) Tag_flatten (VArr [VArr [VNum 1]; VNum 2])
                   "Root.v" emptyEnv []
  = Ok (VArr [VNum 1; VNum 2], []) /\
  @visitYamlTagNode demoHost (@visitNode demoHost 2) Tag_flatten (VNum 3) "Root.v" emptyEnv []
  = Err (InvalidFlattenArgument "Root.v") /\
  @visitYamlTagNode demoHost (@visitNode demoHost 2) Tag_flatten (VStr "ab") "Root.v" emptyEnv []
  = Err TypeError /\
  @visitYamlTagNode demoHost (@visitNode demoHost 2) Tag_flatten (VObj [("a", VArr [VNum 1])])
                   "Root.v" emptyEnv []
  = Err (InvalidFlattenArgument "Root.v") /\
  @visitYamlTagNode demoHost (@visitNode demoHost 2) Tag_flatten (VObj [("a", VNum 1)])
                   "Root.v" emptyEnv []
  = Ok (VArr [], []).
Proof.
  destruct (@flatten_payloads demoHost (@visitNode demoHost 2) "Root.v" emptyEnv [])
    as (Hseq & Hscalar & Hstr & Hrej & Hempty).
  split; [|split; [|split; [|split]]].
  - rewrite Hseq. reflexivity.
  - apply Hscalar. exact I.
  - apply Hstr. discriminate.
  - apply Hrej. reflexivity.
  - rewrite Hempty; reflexivity.
Defined.

Section PairFacts.
Context {host : Host}.






(** X16.  At a path where [visitNode] dispatches on the node,
    [$mapListToHash] succeeds exactly when [$map] on the same payload
    succeeds and [_liftKVPairs] accepts its result, and gives that lifted
    mapping with the accumulator [$map] left. *)
Theorem mapListToHash_lifts_map (fuel : nat) (payload : value) (path : string) (env : Env)
  (acc : CfnDoc) :
  dispatchesOnNode path = true ->
  forall r,
    visitNode (S (S fuel)) (VTag Tag_mapListToHash payload) path env acc = Ok r <->
    exists l acc' m,
      visitNode (S fuel) (VTag Tag_map payload) path env acc = Ok (VArr l, acc') /\
      _liftKVPairs (VArr l) = Ok m /\
      r = (VObj m, acc').
Proof.
  intros Hd r.
  assert (Heq : visitNode (S (S fuel)) (VTag Tag_mapListToHash payload) path env acc
              = match visitNode (S fuel) (VTag Tag_map payload) path env acc with
                | Ok (mapped, acc') =>
                    match _liftKVPairs mapped with
                    | Ok lifted => Ok (VObj lifted, acc')
                    | Err e => Err e
                    | OutOfFuel => OutOfFuel
                    end
                | Err e => Err e
                | OutOfFuel => OutOfFuel
                end).
  { rewrite (visitNode_dispatch (S fuel)) by exact Hd. cbn [visitYamlTagNode].
    unfold bind at 1.
    destruct (visitNode (S fuel) (VTag Tag_map payload) path env acc) as [[mapped acc']| |];
      try reflexivity.
    unfold bind, lift, ret. now destruct (_liftKVPairs mapped). }
  assert (Harr : forall mapped acc',
             visitNode (S fuel) (VTag Tag_map payload) path env acc = Ok (mapped, acc') ->
             exists l, mapped = VArr l).
  { intros mapped acc'. rewrite (visitNode_dispatch fuel) by exact Hd. simpl.
    apply visit_map_result; exact Hd. }
  rewrite Heq. split.
  - destruct (visitNode (S fuel) (VTag Tag_map payload) path env acc) as [[mapped acc']| |] eqn:E;
      try discriminate.
    destruct (Harr _ _ eq_refl) as [l ->].
    destruct (_liftKVPairs (VArr l)) as [m| |] eqn:El; try discriminate.
    intros [= <-]. now exists l, acc', m.
  - intros (l & acc' & m & -> & -> & ->). reflexivity.
Qed.

(** X17.  When the [items] of a [$map] are a sequence, a successful
    [$map] gives a sequence with one element per item. *)
Theorem map_preserves_length (fuel : nat) (payload : value) (items : list value)
  (path : string) (env : Env) (acc : CfnDoc) (r : value) (acc' : CfnDoc) :
  dispatchesOnNode path = true ->
  JS.index payload "items" = VArr items ->
  visitNode fuel (VTag Tag_map payload) path env acc = Ok (r, acc') ->
  exists l, r = VArr l /\ List.length l = List.length items.
Proof.
  intros Hd Hitems H. destruct fuel as [|fuel]; [discriminate|].
  rewrite visitNode_dispatch in H by exact Hd. cbn [visitYamlTagNode] in H.
  unfold visit_map in H.
  apply bind_Ok in H as (template & acc1 & _ & H).
  apply bind_Ok in H as (mapped & acc2 & Hm & H).
  rewrite Hitems in Hm. apply mapM_Forall2 in Hm. apply Forall2_length in Hm.
  apply visitNode_VArr_length in H as (l & -> & Hlen); [|exact Hd].
  exists l. split; [reflexivity|]. rewrite Hlen, <- Hm. cbn [elements].
  clear. generalize 0. induction items as [|x items IH]; intros i; [reflexivity|].
  cbn [elements_from List.length]. now rewrite IH.
Qed.

(** X18.  [$expand] fails with the invalid-arguments error unless the keys
    of its payload are exactly [params] and [template], and with the
    invalid-lookup-key error when [template] is not a string.  For a
    template name that is not a member of [Object.prototype], it fails
    with the could-not-find error when the environment does not bind the
    name; it fails with a type error when the name is bound to [null].  So
    a successful [$expand] had a well-formed payload whose [template] is a
    string, and that name, unless it is a member of [Object.prototype],
    was bound to a value other than [null]. *)
Theorem expand_requirements (visit : visitor) (nodeData : value) (path : string) (env : Env)
  (acc : CfnDoc) :
  (expandArgumentsOk nodeData = false ->
   visit_Expand visit nodeData path env acc = Err InvalidExpandArguments) /\
  (expandArgumentsOk nodeData = true ->
   (forall name, JS.index nodeData "template" <> VStr name) ->
   visit_Expand visit nodeData path env acc = Err (InvalidLookupKey path)) /\
  (forall name, expandArgumentsOk nodeData = true ->
   JS.index nodeData "template" = VStr name ->
   ~ In name objectPrototypeKeys ->
   Obj.get name (envValues env) = None \/ Obj.get name (envValues env) = Some VUndefined ->
   visit_Expand visit nodeData path env acc = Err (CouldNotFind name path)) /\
  (forall name, expandArgumentsOk nodeData = true ->
   JS.index nodeData "template" = VStr name ->
   Obj.get name (envValues env) = Some VNull ->
   visit_Expand visit nodeData path env acc = Err TypeError) /\
  (forall r, visit_Expand visit nodeData path env acc = Ok r ->
   _sortBy (_keys nodeData) = ["params"; "template"] /\
   exists name,
     JS.index nodeData "template" = VStr name /\
     (~ In name objectPrototypeKeys ->
      exists template,
        Obj.get name (envValues env) = Some template /\
        template <> VUndefined /\ template <> VNull)).
Proof.
  unfold visit_Expand. split; [|split; [|split; [|split]]].
  - intros ->. reflexivity.
  - intros -> Hn. cbn [negb]. unfold bind, lift, lookupInEnv.
    destruct (JS.index nodeData "template"); try reflexivity. now destruct (Hn s).
  - intros name -> Hn _ Hg. cbn [negb]. unfold bind, lift, lookupInEnv. rewrite Hn.
    cbn [JS.index]. now destruct Hg as [-> | ->].
  - intros name -> Hn Hg. cbn [negb]. unfold lookupInEnv. rewrite Hn.
    cbn [JS.index]. rewrite Hg. reflexivity.
  - intros r H. destruct (expandArgumentsOk nodeData) eqn:E; [|discriminate].
    split.
    + unfold expandArgumentsOk in E.
      now destruct (list_eq_dec string_dec (_sortBy (_keys nodeData)) ["params"; "template"]).
    + cbn [negb] in H. unfold bind at 1 in H. unfold lift at 1, lookupInEnv in H.
      destruct (JS.index nodeData "template") as [| |b|z|name|iso|l|m|t d]; try discriminate.
      exists name. split; [reflexivity|]. intros _. cbn [JS.index] in H.
      destruct (Obj.get name (envValues env)) as [template|]; [|discriminate].
      exists template. split; [reflexivity|].
      split; intros ->; discriminate.
Qed.

End PairFacts.



Lemma mapListToHash_lifts_map_witness :
  @visitNode demoHost 5 (VTag Tag_mapListToHash hashPayload) "Root.H" emptyEnv []
  = Ok (VObj [("a", VNum 1); ("b", VNum 1)], []).
Proof.
  apply (proj2 (@mapListToHash_lifts_map demoHost 3 hashPayload "Root.H" emptyEnv [] eq_refl
                  (VObj [("a", VNum 1); ("b", VNum 1)], []))).
  exists [VObj [("key", VStr "a"); ("value", VNum 1)];
          VObj [("key", VStr "b"); ("value", VNum 1)]], [], [("a", VNum 1); ("b", VNum 1)].
  repeat split.
Defined.

Lemma map_preserves_length_witness :
  exists l,
    @visitNode demoHost 4 (VTag Tag_map mapPayload) "Root.Xs" emptyEnv [] = Ok (VArr l, []) /\
    List.length l = 2.
Proof.
  destruct (@visitNode demoHost 4 (VTag Tag_map mapPayload) "Root.Xs" emptyEnv [])
    as [[r acc']| |] eqn:E; try (vm_compute in E; discriminate).
  destruct (@map_preserves_length demoHost 4 mapPayload [VStr "a"; VStr "b"] "Root.Xs"
              emptyEnv [] r acc' eq_refl eq_refl E) as (l & -> & Hlen).
  exists l. split; [|exact Hlen]. vm_compute in E. now injection E as <- <-.
Defined.

Lemma expand_requirements_witness :
  visit_Expand (@visitNode demoHost 3) (VObj [("template", VStr "T")]) "Root.Y" emptyEnv []
  = Err InvalidExpandArguments /\
  visit_Expand (@visitNode demoHost 3) expandPayload "Root.Y" emptyEnv []
  = Err (CouldNotFind "T" "Root.Y") /\
  visit_Expand (@visitNode demoHost 3) expandPayload "Root.Y"
               {| envValues := [("T", VNull)]; Stack := Stack emptyEnv |} []
  = Err TypeError.
Proof.
  split; [|split].
  - apply (proj1 (@expand_requirements (@visitNode demoHost 3)
                    (VObj [("template", VStr "T")]) "Root.Y" emptyEnv [])).
    reflexivity.
  - apply (proj1 (proj2 (proj2 (@expand_requirements (@visitNode demoHost 3) expandPayload
                                  "Root.Y" emptyEnv []))) "T");
      [reflexivity|reflexivity| |left; reflexivity].
    cbn. intuition discriminate.
  - apply (proj1 (proj2 (proj2 (proj2
             (@expand_requirements (@visitNode demoHost 3) expandPayload "Root.Y"
                {| envValues := [("T", VNull)]; Stack := Stack emptyEnv |} [])))) "T");
      reflexivity.
Defined.

(** ** Templates and resources *)

Section RejectFacts.
Context {host : Host}.

(** X19.  [transform] never succeeds on a document whose root [$defs]
    holds a template, that is a mapping with a truthy [$params], under a
    name that [visitMapNode] evaluates as an ordinary node: the walker
    visits [$defs] like any other key and rejects the template.  The name
    is a [plainKey]: it is none of [$envValues], [$imports], [$params] and
    [$location] (an entry under one of these is skipped, not rejected), it
    does not begin with [$merge], and its last dotted segment is neither
    [Resources] nor [$envValues].  None of the three mappings, the root,
    [$defs] and the template, has an [is_yaml_tag] entry. *)
Theorem inline_template_rejected (fuel : nat) (importLoader : ImportLoader) (root0 : object)
  (rootDocLocation : ImportLocation) (defs : object) (name : string) (template : object) :
  Obj.wf root0 ->
  Obj.get "$defs" root0 = Some (VObj defs) ->
  Obj.wf defs ->
  In (name, VObj template) defs ->
  JS.truthy (JS.index (VObj template) "$params") = true ->
  plainKey name = true ->
  Obj.get "is_yaml_tag" root0 = None ->
  Obj.get "is_yaml_tag" defs = None ->
  Obj.get "is_yaml_tag" template = None ->
  forall output, transform fuel importLoader root0 rootDocLocation <> Ok output.
Proof.
  intros Hwf Hdefs Hwfd Hin Hparams Hname Ht0 Htd Htt output H.
  apply transform_Ok in H as (env & imports & visited & globalAccum & Hload & Hvisit & _).
  set (root := Obj.set "$envValues" (VObj env) root0) in *.
  assert (Hwfr : Obj.wf root) by now apply wf_set.
  apply visitNode_object_cases in Hvisit; [|reflexivity].
  destruct Hvisit as [(Hy & _)|(_ & _ & f1 & e1 & a1 & _ & Hmap)].
  { unfold root in Hy. rewrite index_set_other in Hy by discriminate.
    cbn [JS.index] in Hy. rewrite Ht0 in Hy. discriminate. }
  apply visitMapNode_Ok in Hmap as (res & _ & Hloop).
  assert (Hind : In ("$defs", VObj defs) root).
  { apply get_In. unfold root. rewrite get_set_other by discriminate. exact Hdefs. }
  edestruct visitMapLoop_value as (r & a2 & a3 & Hv & _);
    [exact Hwfr|exact Hloop|exact Hind|reflexivity|].
  apply visitNode_object_cases in Hv; [|reflexivity].
  destruct Hv as [(Hy & _)|(_ & _ & f2 & e2 & a4 & _ & Hmap2)].
  { cbn [JS.index] in Hy. rewrite Htd in Hy. discriminate. }
  apply visitMapNode_Ok in Hmap2 as (res2 & _ & Hloop2).
  unfold plainKey in Hname. apply andb_true_iff in Hname as [Hord Hseg].
  apply andb_true_iff in Hseg as [Hs1 Hs2]. apply negb_true_iff in Hs1, Hs2.
  edestruct visitMapLoop_value as (r2 & a5 & a6 & Hv2 & _);
    [exact Hwfd|exact Hloop2|exact Hin|exact Hord|].
  apply visitNode_object_cases in Hv2; [|now apply dispatches_appendPath].
  destruct Hv2 as [(Hy & _)|(_ & Hp & _)].
  - cbn [JS.index] in Hy. rewrite Htt in Hy. discriminate.
  - congruence.
Qed.

Lemma Forall2_In_l {A B} (R : A -> B -> Prop) (l : list A) (l' : list B) (x : A) :
  Forall2 R l l' -> In x l -> exists y, In y l' /\ R x y.
Proof.
  induction 1 as [|a b l l' Hab H IH]; intros Hin; [contradiction|].
  destruct Hin as [->|Hin]; [exists b; split; [now left|exact Hab]|].
  destruct (IH Hin) as (y & Hy & Hr). exists y. split; [now right|exact Hr].
Qed.

(** X20.  [visitResourceNode] never succeeds on a node holding a resource
    whose [Type] is a string that is not a member of [Object.prototype],
    names no template in scope and begins with neither [AWS] nor
    [Custom]. *)
Theorem invalid_resource_type_rejected (visit : visitor) (node : value) (path : string)
  (env : Env) (acc : CfnDoc) (name : string) (resource : value) (ty : string) :
  In (name, resource) (JS.own_entries node) ->
  JS.index resource "Type" = VStr ty ->
  ~ In ty objectPrototypeKeys ->
  JS.truthy (JS.index (VObj (envValues env)) ty) = false ->
  Str.startsWith "AWS" ty = false ->
  Str.startsWith "Custom" ty = false ->
  forall r, visitResourceNode visit node path env acc <> Ok r.
Proof.
  intros Hin Hty _ Hnot Haws Hcustom [r acc'] H. unfold visitResourceNode in H.
  apply bind_Ok in H as (pairs & acc1 & Hm & _).
  apply mapM_Forall2 in Hm. destruct (@Forall2_In_l _ _ _ _ _ _ Hm Hin) as (y & _ & a1 & a2 & Hy).
  cbn beta iota in Hy.
  assert (Hprop : JS.prop resource "Type" = Ok (VStr ty)).
  { unfold JS.prop. destruct resource; try discriminate; now rewrite <- Hty. }
  unfold bind at 1 in Hy. unfold lift at 1 in Hy. rewrite Hprop in Hy. cbn [toStr] in Hy.
  rewrite Hnot in Hy.
  destruct (JS.truthy (VStr ty)); [|discriminate].
  unfold bind at 1 in Hy. unfold lift at 1 in Hy. cbn [type_starts] in Hy. rewrite Haws in Hy.
  unfold bind at 1 in Hy. unfold lift at 1 in Hy. cbn [type_starts] in Hy. rewrite Hcustom in Hy.
  discriminate.
Qed.



End RejectFacts.

Lemma inline_template_rejected_witness :
  ~ exists output, @transform demoHost 5 noLoader inlineTemplate "root.yaml" = Ok output.
Proof.
  intros [output H]. revert H.
  apply (@inline_template_rejected demoHost 5 noLoader inlineTemplate "root.yaml"
           [("T", VObj [("$params", VArr [VObj [("Name", VStr "x")]]); ("body", VNum 1)])]
           "T" [("$params", VArr [VObj [("Name", VStr "x")]]); ("body", VNum 1)]);
    try reflexivity.
  - apply wfb_wf. reflexivity.
  - apply wfb_wf. reflexivity.
  - left. reflexivity.
Defined.

Lemma invalid_resource_type_rejected_witness :
  ~ exists r, @visitResourceNode demoHost (@visitNode demoHost 3) unknownResources "Root.Resources"
                                emptyEnv [] = Ok r.
Proof.
  intros [r H]. revert H.
  apply (@invalid_resource_type_rejected demoHost (@visitNode demoHost 3) unknownResources
           "Root.Resources" emptyEnv [] "Queue" (VObj [("Type", VStr "Acme::Queue")])
           "Acme::Queue"); try reflexivity.
  - left. reflexivity.
  - cbn. intuition discriminate.
Defined.


(** ** Lookups, strings and the stack *)

Section MoreFacts.
Context {host : Host}.

(** X22.  [$include] of a name without a dot evaluates what the
    environment binds the name to, and fails with the could-not-find error
    when the name, not being a member of [Object.prototype], is unbound or
    bound to [undefined].  [$include] of a dotted path looks the first
    segment (without [[]) up among the names the environment binds and
    follows the remaining segments into its value.  An unbound first
    segment is one error; when the segments only read entries of mappings
    and elements of sequences ([ownPath]), a path that leads to
    [undefined] is another error, and any other path evaluates the value
    it leads to. *)
Theorem include_resolution (visit : visitor) (s : string) (path : string) (env : Env)
  (acc : CfnDoc) :
  (Str.contains_char Str.dot s = false ->
   (~ In s objectPrototypeKeys ->
    Obj.get s (envValues env) = None \/ Obj.get s (envValues env) = Some VUndefined ->
    visitYamlTagNode visit Tag_include (VStr s) path env acc = Err (CouldNotFind s path)) /\
   (forall v, Obj.get s (envValues env) = Some v -> v <> VUndefined ->
    visitYamlTagNode visit Tag_include (VStr s) path env acc = visit v path env acc)) /\
  (Str.contains_char Str.dot s = true ->
   forall key selector, Str.split_char Str.dot s = (key, selector) ->
   Str.contains_char "["%char key = false ->
   (Obj.get key (envValues env) = None ->
    visitYamlTagNode visit Tag_include (VStr s) path env acc = Err (CouldNotFind key path)) /\
   (forall v, Obj.get key (envValues env) = Some v ->
      ownPath v selector = true ->
      (_get v selector = VUndefined ->
       visitYamlTagNode visit Tag_include (VStr s) path env acc
       = Err (CouldNotFindPath key path)) /\
      (_get v selector <> VUndefined ->
       visitYamlTagNode visit Tag_include (VStr s) path env acc
       = visit (_get v selector) path env acc))).
Proof.
  split.
  - intros Hd. cbn [visitYamlTagNode]. rewrite Hd. unfold bind, lift, lookupInEnv.
    cbn [JS.index]. split.
    + now intros _ [-> | ->].
    + intros v -> Hv. destruct v; try reflexivity. congruence.
  - intros Hd key selector Hs _. cbn [visitYamlTagNode]. rewrite Hd, Hs.
    unfold _has. cbn [JS.own_entries JS.index]. unfold Obj.has. split.
    + now intros ->.
    + intros v -> _. cbn [negb]. split.
      * now intros ->.
      * intros Hv. destruct (_get v selector); try reflexivity. congruence.
Qed.

Lemma prefix_closing (s : string) :
  String.prefix "}}" s = true <-> exists post, s = ("}}" ++ post)%string.
Proof.
  split.
  - destruct s as [|a [|b s]]; cbn [String.prefix]; try discriminate.
    + destruct (Ascii.ascii_dec "}" a); discriminate.
    + destruct (Ascii.ascii_dec "}" a) as [<-|]; [|discriminate].
      destruct (Ascii.ascii_dec "}" b) as [<-|]; [|discriminate].
      intros _. now exists s.
  - intros [post ->]. cbn [String.prefix String.append].
    destruct (Ascii.ascii_dec "}" "}"); [|congruence]. now destruct post.
Qed.

Lemma closes_on_line_spec (s : string) :
  Str.closes_on_line s = true <->
  exists mid post, s = (mid ++ "}}" ++ post)%string /\ on_one_line mid = true.
Proof.
  induction s as [|a s IH].
  - split; [discriminate|]. intros (mid & post & H & _).
    destruct mid; discriminate.
  - cbn [Str.closes_on_line].
    destruct (String.prefix "}}" (String a s)) eqn:P.
    + split; [intros _|reflexivity]. apply prefix_closing in P as [post ->].
      now exists EmptyString, post.
    + assert (Hmid : forall mid post, String a s = (mid ++ "}}" ++ post)%string ->
                exists mid', mid = String a mid' /\ s = (mid' ++ "}}" ++ post)%string).
      { intros mid post H. destruct mid as [|c mid].
        - assert (Hp : String.prefix "}}" (String a s) = true)
            by (apply prefix_closing; now exists post).
          congruence.
        - cbn in H. injection H as <- ->. now exists mid. }
      destruct (Str.is_newline a) eqn:N.
      * split; [discriminate|]. intros (mid & post & H & Hl).
        destruct (Hmid _ _ H) as (mid' & -> & _). cbn in Hl. rewrite N in Hl. discriminate.
      * rewrite IH. split.
        -- intros (mid & post & -> & Hl). exists (String a mid), post.
           split; [reflexivity|]. cbn. now rewrite N, Hl.
        -- intros (mid & post & H & Hl). destruct (Hmid _ _ H) as (mid' & -> & ->).
           exists mid', post. split; [reflexivity|]. cbn in Hl.
           now apply andb_true_iff in Hl as [_ Hl].
Qed.

Lemma has_mustache_spec (s : string) :
  Str.has_mustache s = true <->
  exists pre mid post,
    s = (pre ++ "{{" ++ mid ++ "}}" ++ post)%string /\ on_one_line mid = true.
Proof.
  induction s as [|a s IH].
  - split; [discriminate|]. intros (pre & mid & post & H & _). destruct pre; discriminate.
  - cbn [Str.has_mustache]. destruct s as [|b s'].
    + split; [discriminate|]. intros (pre & mid & post & H & _).
      destruct pre as [|c pre]; [discriminate|]. cbn in H. injection H as _ H.
      destruct pre; discriminate.
    + destruct (andb (Ascii.eqb a "{") (andb (Ascii.eqb b "{") (Str.closes_on_line s'))) eqn:O.
      * split; [intros _|reflexivity].
        apply andb_true_iff in O as [Ea O]. apply andb_true_iff in O as [Eb Oc].
        apply Ascii.eqb_eq in Ea, Eb. subst a b.
        apply closes_on_line_spec in Oc as (mid & post & -> & Hl).
        now exists EmptyString, mid, post.
      * rewrite IH. split.
        -- intros (pre & mid & post & -> & Hl). now exists (String a pre), mid, post.
        -- intros (pre & mid & post & H & Hl). destruct pre as [|c pre].
           ++ cbn in H. injection H as Ha Hb Hs.
              assert (Hc : Str.closes_on_line s' = true)
                by (apply closes_on_line_spec; now exists mid, post).
              rewrite Hc, Ha, Hb in O. discriminate.
           ++ cbn in H. injection H as <- H. now exists pre, mid, post.
Qed.

(** X23.  [visitStringNode] hands an ASCII string to handlebars exactly
    when the string contains [{{] followed, before the end of the line, by [}}]; the
    rendering fails with the string-template error when handlebars throws;
    every other string is returned as it is. *)
Theorem visitStringNode_interpolates (node : string) (path : string) (env : Env)
  (acc : CfnDoc) :
  ascii_only node = true ->
  ((exists pre mid post,
      node = (pre ++ "{{" ++ mid ++ "}}" ++ post)%string /\ on_one_line mid = true) ->
   visitStringNode node path env acc
   = match handlebars_render node (envValues env) with
     | Some s => Ok (VStr s, acc)
     | None => Err (StringTemplateError path node)
     end) /\
  (~ (exists pre mid post,
        node = (pre ++ "{{" ++ mid ++ "}}" ++ post)%string /\ on_one_line mid = true) ->
   visitStringNode node path env acc = Ok (VStr node, acc)).
Proof.
  intros _. unfold visitStringNode. split; intros H.
  - apply has_mustache_spec in H. rewrite H. unfold bind, lift, interpolateHandlebarsString.
    now destruct (handlebars_render node (envValues env)).
  - destruct (Str.has_mustache node) eqn:E; [|reflexivity].
    apply has_mustache_spec in E. contradiction.
Qed.

(** X24.  [mkSubEnv] keeps the stack usable for error reports: on a stack
    with a frame and a location in every frame, it replaces the bindings,
    keeps the frames and adds one with the given path, located where the
    new frame says or else where the caller's frame is. *)
Theorem mkSubEnv_located (env : Env) (newEnvValues : object) (frame : StackFrame) :
  located env ->
  located (mkSubEnv env newEnvValues frame) /\
  envValues (mkSubEnv env newEnvValues frame) = newEnvValues /\
  exists top,
    Stack (mkSubEnv env newEnvValues frame) = Stack env ++ [top] /\
    frame_path top = frame_path frame /\
    (JS.truthy (frame_location frame) = true -> frame_location top = frame_location frame) /\
    (JS.truthy (frame_location frame) = false ->
     exists caller rest, Stack env = rest ++ [caller] /\
                         frame_location top = frame_location caller).
Proof.
  intros [Hne Hall]. unfold mkSubEnv. cbn [Stack envValues].
  set (d := {| frame_location := VUndefined; frame_path := EmptyString |}).
  assert (Hlast : exists rest, Stack env = rest ++ [last (Stack env) d]).
  { exists (removelast (Stack env)). now apply app_removelast_last. }
  destruct Hlast as [rest Hlast].
  assert (Hin : In (last (Stack env) d) (Stack env)).
  { rewrite Hlast at 2. apply in_or_app. right. now left. }
  split; [|split; [reflexivity|]].
  - split.
    + intros H. now apply app_eq_nil in H as [_ H].
    + apply Forall_app. split; [exact Hall|]. constructor; [|constructor].
      cbn [frame_location]. destruct (JS.truthy (frame_location frame)) eqn:E; [exact E|].
      rewrite Forall_forall in Hall. now apply Hall.
  - eexists. split; [reflexivity|]. cbn [frame_path frame_location]. split; [reflexivity|].
    split.
    + now intros ->.
    + intros ->. now exists (last (Stack env) d), rest.
Qed.

End MoreFacts.

Lemma include_resolution_witness :
  @visitYamlTagNode demoHost (@visitNode demoHost 2) Tag_include (VStr "cfg.db.port") "Root.P"
                    configEnv [] = Ok (VNum 5432, []) /\
  @visitYamlTagNode demoHost (@visitNode demoHost 2) Tag_include (VStr "cfg.db.host") "Root.P"
                    configEnv [] = Err (CouldNotFindPath "cfg" "Root.P") /\
  @visitYamlTagNode demoHost (@visitNode demoHost 2) Tag_include (VStr "cfg2") "Root.P"
                    configEnv [] = Err (CouldNotFind "cfg2" "Root.P").
Proof.
  split; [|split].
  - destruct (proj2 (@include_resolution demoHost (@visitNode demoHost 2) "cfg.db.port" "Root.P"
                       configEnv []) eq_refl "cfg" ["db"; "port"] eq_refl eq_refl) as [_ H].
    destruct (H (VObj [("db", VObj [("port", VNum 5432)])]) eq_refl eq_refl) as [_ Hok].
    rewrite Hok; [reflexivity|discriminate].
  - destruct (proj2 (@include_resolution demoHost (@visitNode demoHost 2) "cfg.db.host" "Root.P"
                       configEnv []) eq_refl "cfg" ["db"; "host"] eq_refl eq_refl) as [_ H].
    destruct (H (VObj [("db", VObj [("port", VNum 5432)])]) eq_refl eq_refl) as [Herr _].
    apply Herr. reflexivity.
  - apply (proj1 (@include_resolution demoHost (@visitNode demoHost 2) "cfg2" "Root.P"
                    configEnv []) eq_refl).
    + cbn. intuition discriminate.
    + left. reflexivity.
Defined.

Lemma visitStringNode_interpolates_witness :
  @visitStringNode demoHost "bucket-{{x}}" "Root.Name" outerEnv []
  = Ok (VStr "bucket-outer", []) /\
  @visitStringNode demoHost "plain {text}" "Root.Name" outerEnv []
  = Ok (VStr "plain {text}", []).
Proof.
  split.
  - rewrite (proj1 (@visitStringNode_interpolates demoHost "bucket-{{x}}" "Root.Name"
                      outerEnv [] eq_refl)); [reflexivity|].
    exists "bucket-", "x", EmptyString. split; reflexivity.
  - apply (proj2 (@visitStringNode_interpolates demoHost "plain {text}" "Root.Name"
                    outerEnv [] eq_refl)).
    intros H. apply has_mustache_spec in H. discriminate.
Defined.

Lemma mkSubEnv_located_witness :
  located (mkSubEnv emptyEnv [("x", VNum 1)]
                    {| frame_location := VUndefined; frame_path := "Root.v" |}) /\
  Stack (mkSubEnv emptyEnv [("x", VNum 1)]
                  {| frame_location := VUndefined; frame_path := "Root.v" |})
  = [{| frame_location := VStr "root.yaml"; frame_path := "Root" |};
     {| frame_location := VStr "root.yaml"; frame_path := "Root.v" |}].
Proof.
  assert (Hl : located emptyEnv).
  { split; [discriminate|]. repeat constructor. }
  split.
  - exact (proj1 (@mkSubEnv_located emptyEnv [("x", VNum 1)]
                    {| frame_location := VUndefined; frame_path := "Root.v" |} Hl)).
  - reflexivity.
Defined.

(** ** The accumulator *)

Section AccumulatorFacts.
Context {host : Host}.

Lemma keeps_ret {A} (a : A) : keepsSections (ret a).
Proof. intros acc x acc' H. now apply ret_Ok in H as [_ ->]. Qed.

Lemma keeps_throw {A} (e : error) : keepsSections (@throw A e).
Proof. intros acc x acc' H. discriminate. Qed.

Lemma keeps_lift {A} (r : result A) : keepsSections (lift r).
Proof. intros acc x acc' H. now apply lift_Ok in H as [_ ->]. Qed.

Lemma keeps_bind {A B} (m : M A) (f : A -> M B) :
  keepsSections m -> (forall a, keepsSections (f a)) -> keepsSections (bind m f).
Proof.
  intros Hm Hf acc b acc' H. apply bind_Ok in H as (a & acc1 & H1 & H2).
  rewrite (Hf _ _ _ _ H2). exact (Hm _ _ _ H1).
Qed.

Lemma keeps_mapM {A B} (f : A -> M B) (l : list A) :
  (forall x, keepsSections (f x)) -> keepsSections (mapM f l).
Proof.
  intros Hf. induction l as [|x l IH]; cbn [mapM]; [apply keeps_ret|].
  apply keeps_bind; [apply Hf|]. intros y. apply keeps_bind; [exact IH|].
  intros ys. apply keeps_ret.
Qed.

Lemma keeps_foldM {A S} (f : S -> A -> M S) (l : list A) (s : S) :
  (forall s x, keepsSections (f s x)) -> keepsSections (foldM f l s).
Proof.
  intros Hf. revert s. induction l as [|x l IH]; intros s; cbn [foldM]; [apply keeps_ret|].
  apply keeps_bind; [apply Hf|]. exact IH.
Qed.

Lemma keeps_forEachM {A} (f : A -> M unit) (l : list A) :
  (forall x, keepsSections (f x)) -> keepsSections (forEachM f l).
Proof.
  intros Hf. induction l as [|x l IH]; cbn [forEachM]; [apply keeps_ret|].
  apply keeps_bind; [apply Hf|]. intros _. exact IH.
Qed.

Lemma keys_set_present (k : string) (v x : value) (m : object) :
  Obj.get k m = Some x -> Obj.keys (Obj.set k v m) = Obj.keys m.
Proof.
  induction m as [|[k' v'] m IH]; [discriminate|]. simpl.
  destruct (String.eqb k' k) eqn:E.
  - apply String.eqb_eq in E. now subst.
  - intros H. simpl. now rewrite IH.
Qed.

Ltac keeps Hv :=
  repeat first
    [ apply keeps_ret
    | apply keeps_throw
    | apply keeps_lift
    | apply Hv
    | apply keeps_bind; [|intros ?]
    | apply keeps_mapM; intros ?
    | apply keeps_foldM; intros ? ?
    | apply keeps_forEachM; intros ?
    | match goal with
      | |- keepsSections (if ?c then _ else _) => destruct c
      | |- keepsSections (let '(_, _) := ?x in _) => destruct x
      | |- keepsSections (match ?x with _ => _ end) => destruct x
      end ].

Section Visitor.

Variable visit : visitor.
Hypothesis Hv : forall v path env, keepsSections (visit v path env).

Lemma keeps_mapCustomResourceToGlobalSections resourceDoc path env :
  keepsSections (mapCustomResourceToGlobalSections visit resourceDoc path env).
Proof.
  unfold mapCustomResourceToGlobalSections. apply keeps_forEachM. intros section.
  destruct (JS.truthy (JS.index (VObj resourceDoc) section)); [|apply keeps_ret].
  apply keeps_bind; [apply Hv|]. intros visited acc a acc' H.
  destruct (Obj.get section acc) as [target|] eqn:E.
  - destruct target; injection H as _ <-; try reflexivity;
      now rewrite (keys_set_present _ _ _ E).
  - now injection H as _ <-.
Qed.

Lemma keeps_visitMapNode node path env : keepsSections (visitMapNode visit node path env).
Proof.
  unfold visitMapNode, visitMapEntry, mergeInto. keeps Hv.
Qed.

Lemma keeps_visitArray node path env : keepsSections (visitArray visit node path env).
Proof. unfold visitArray. keeps Hv. Qed.

Lemma keeps_visitStringNode node path env : keepsSections (visitStringNode node path env).
Proof. unfold visitStringNode. keeps Hv. Qed.

Lemma keeps_visitResourceNode node path env :
  keepsSections (visitResourceNode visit node path env).
Proof.
  unfold visitResourceNode. apply keeps_bind; [|intros ?; apply keeps_ret].
  apply keeps_mapM. intros [name resource].
  apply keeps_bind; [apply keeps_lift|]. intros ty.
  destruct (JS.truthy (JS.index (VObj (envValues env)) (toStr ty))).
  - unfold expandResourceTemplate.
    repeat first
      [ apply keeps_ret | apply keeps_lift | apply Hv
      | apply keeps_mapCustomResourceToGlobalSections
      | apply keeps_bind; [|intros ?]
      | apply keeps_mapM; intros ? ].
  - keeps Hv.
Qed.

Lemma keeps_visitYamlTagNode kind nodeData path env :
  keepsSections (visitYamlTagNode visit kind nodeData path env).
Proof.
  destruct kind; cbn [visitYamlTagNode]; unfold visit_Expand, visit_map; keeps Hv.
Qed.

Lemma keeps_visitImportedDoc node path env :
  keepsSections (visitImportedDoc visit node path env).
Proof.
  unfold visitImportedDoc. apply keeps_bind; [apply Hv|]. intros visited.
  apply keeps_visitMapNode.
Qed.

Lemma keeps_visitNode_body node path env :
  keepsSections (visitNode_body visit node path env).
Proof.
  unfold visitNode_body.
  destruct (andb _ _); [apply keeps_visitResourceNode|].
  destruct (String.eqb _ _); [apply keeps_throw|].
  destruct node; try apply keeps_ret.
  - apply keeps_visitStringNode.
  - destruct (Str.mem _ _); apply keeps_ret.
  - apply keeps_visitArray.
  - destruct (JS.truthy _); [apply keeps_ret|].
    destruct (JS.truthy _); [apply keeps_throw|].
    destruct (JS.truthy _); [apply keeps_visitImportedDoc|apply keeps_visitMapNode].
  - apply keeps_visitYamlTagNode.
Qed.

End Visitor.

Lemma keeps_visitNode (fuel : nat) (node : value) (path : string) (env : Env) :
  keepsSections (visitNode fuel node path env).
Proof.
  revert node path env. induction fuel as [|fuel IH]; intros node path env.
  - intros acc r acc' H. discriminate.
  - cbn [visitNode]. apply keeps_visitNode_body. exact IH.
Qed.

(** X25.  The walker neither adds a section to the accumulator nor removes
    one: after a successful [visitNode] the accumulator has the keys it
    had, in the same order.  Hoisting by [mapCustomResourceToGlobalSections]
    only merges into sections that are already there. *)
Theorem walker_keeps_sections (fuel : nat) (node : value) (path : string) (env : Env)
  (acc : CfnDoc) (r : value) (acc' : CfnDoc) :
  visitNode fuel node path env acc = Ok (r, acc') ->
  Obj.keys acc' = Obj.keys acc.
Proof.
  revert node path env acc r acc'.
  induction fuel as [|fuel IH]; intros node path env acc r acc' H; [discriminate|].
  cbn [visitNode] in H. revert H. apply keeps_visitNode_body.
  intros v p e a x a' Hx. exact (IH _ _ _ _ _ _ Hx).
Qed.

End AccumulatorFacts.

Lemma walker_keeps_sections_witness :
  exists r acc',
    @visitNode demoHost 4 (VObj resourcesOnly) "Root" emptyEnv
               [("Metadata", VObj []); ("Outputs", VObj [])] = Ok (r, acc') /\
    Obj.keys acc' = ["Metadata"; "Outputs"].
Proof.
  destruct (@visitNode demoHost 4 (VObj resourcesOnly) "Root" emptyEnv
                       [("Metadata", VObj []); ("Outputs", VObj [])])
    as [[r acc']| |] eqn:E; try (vm_compute in E; discriminate).
  exists r, acc'. split; [reflexivity|].
  exact (@walker_keeps_sections demoHost 4 (VObj resourcesOnly) "Root" emptyEnv
           [("Metadata", VObj []); ("Outputs", VObj [])] r acc' E).
Defined.

(** ** Scopes *)

Section ScopeFacts.
Context {host : Host}.

(** X26.  [Transform] is never hoisted: the accumulator never holds a
    [Transform] section, so after a successful [transform] the output's
    [Transform] is the one of the evaluated root, if any, and templates
    expanded on the way contribute none. *)
Theorem Transform_never_hoisted (fuel : nat) (importLoader : ImportLoader) (root0 : object)
  (rootDocLocation : ImportLocation) (output : CfnDoc) :
  Obj.wf root0 ->
  transform fuel importLoader root0 rootDocLocation = Ok output ->
  exists root accumulatedImports visited globalAccum,
    loadImports fuel importLoader root0 rootDocLocation [] = Ok (root, accumulatedImports) /\
    visitNode fuel (VObj root) "Root" (rootEnv root rootDocLocation)
              (initialGlobalAccum root accumulatedImports) = Ok (visited, globalAccum) /\
    Obj.get "Transform" globalAccum = None /\
    Obj.get "Transform" output = Obj.get "Transform" (JS.own_entries visited).
Proof.
  intros Hwf0 H.
  apply transform_Ok in H as (env & imports & visited & globalAccum & Hload & Hvisit & ->).
  set (root := Obj.set "$envValues" (VObj env) root0) in *.
  assert (Hwf : Obj.wf root) by now apply wf_set.
  edestruct root_visit_wf as (res & Hres_eq & Hres); [exact Hwf|exact Hvisit|]. subst visited.
  exists root, imports, (VObj res), globalAccum.
  split; [exact Hload|]. split; [exact Hvisit|].
  assert (Hnone : Obj.get "Transform" globalAccum = None).
  { apply get_None. rewrite (@keeps_visitNode _ _ _ _ _ _ _ _ Hvisit).
    unfold initialGlobalAccum. destruct (isCFNDoc root); cbn; intuition discriminate. }
  split; [exact Hnone|].
  rewrite assembleOutput_get by (try reflexivity; exact Hres).
  cbn [JS.index]. rewrite Hnone. cbn [_isEmpty negb]. rewrite !andb_false_r.
  cbn [JS.own_entries]. destruct (Obj.get "Transform" res); [reflexivity|].
  unfold seedOutput. destruct (isCFNDoc root); reflexivity.
Qed.

Lemma mkSubEnv_Stack (env1 env2 : Env) (vals : object) (frame : StackFrame) :
  Stack env1 = Stack env2 -> mkSubEnv env1 vals frame = mkSubEnv env2 vals frame.
Proof. intros H. unfold mkSubEnv. now rewrite H. Qed.

(** X27.  A document that carries its own [$envValues] (an imported
    document) is evaluated in its own scope: at a path where [visitNode]
    dispatches on the node, the result does not depend on what the
    environment of the place of use binds, only on its stack. *)
Theorem imported_document_scope (fuel : nat) (node : object) (path : string)
  (env1 env2 : Env) (acc : CfnDoc) :
  dispatchesOnNode path = true ->
  JS.truthy (JS.index (VObj node) "$envValues") = true ->
  Stack env1 = Stack env2 ->
  visitNode fuel (VObj node) path env1 acc = visitNode fuel (VObj node) path env2 acc.
Proof.
  intros Hd He Hs. destruct fuel as [|fuel]; [reflexivity|].
  rewrite !visitNode_dispatch by exact Hd.
  destruct (JS.truthy (JS.index (VObj node) "is_yaml_tag")); [reflexivity|].
  destruct (JS.truthy (JS.index (VObj node) "$params")); [reflexivity|].
  rewrite He. unfold visitImportedDoc.
  assert (E : forall vals frame, mkSubEnv env1 vals frame = mkSubEnv env2 vals frame)
    by (intros; now apply mkSubEnv_Stack).
  unfold bind. rewrite E.
  match goal with
  | |- match ?m with _ => _ end = _ => destruct m as [[visited acc1]| |]; try reflexivity
  end.
  now rewrite E.
Qed.

(** X28.  With a loader that rejects what [parseImportType] rejects, as
    [readFromImportLocation] does on its first line, [loadImports] never
    succeeds on a document under a remote base ([s3] or [http]) that has an
    import written with the scheme [file] or [env]. *)
Theorem remote_document_cannot_import_local (fuel : nat) (importLoader : ImportLoader)
  (thisDoc : object) (baseLocation : ImportLocation) (importsAccum : list ImportRecord)
  (imports : object) (asKey : string) (location : ImportLocation) :
  (forall loc base e, parseImportType loc base = Err e -> importLoader loc base = Err e) ->
  remote_base baseLocation ->
  JS.index (VObj thisDoc) "$imports" = VObj imports ->
  In (asKey, VStr location) imports ->
  Str.has_mustache location = false ->
  explicit_scheme location "file" \/ explicit_scheme location "env" ->
  forall r, loadImports fuel importLoader thisDoc baseLocation importsAccum <> Ok r.
Proof.
  intros Hloader Hbase Himp Hin Hm Hlocal [doc' acc'] H.
  assert (Hrej : importLoader location baseLocation
                 = Err (ImportNotAllowedFromRemote location baseLocation)).
  { apply Hloader. unfold parseImportType.
    assert (Hb : Str.mem (if Str.contains_char Str.colon baseLocation
                          then Str.before_char Str.colon (Str.toLowerCase baseLocation)
                          else "file") ["s3"; "http"] = true).
    { destruct Hbase as [Hb|Hb];
        rewrite (explicit_scheme_contains Hb), (explicit_scheme_before Hb); reflexivity. }
    rewrite Hb.
    destruct Hlocal as [Hl|Hl];
      rewrite (explicit_scheme_contains Hl), (explicit_scheme_before Hl); reflexivity. }
  destruct fuel as [|fuel]; [discriminate|].
  cbn [loadImports] in H. rewrite !index_set_other in H by discriminate.
  apply rbind_Ok in H as ([env1 acc1] & H1 & _).
  rewrite Himp in H1. cbn [JS.truthy _isPlainObject negb JS.own_entries] in H1.
  match type of H1 with
  | ?f ?es [] importsAccum = _ => set (loop := f) in *
  end.
  assert (Hgen : forall entries env0 acc0 r,
            In (asKey, VStr location) entries -> loop entries env0 acc0 <> Ok r).
  { clear H1. induction entries as [|[k lv] entries IHe]; intros env0 acc0 r Hi He;
      [contradiction|].
    unfold loop in He; lazy beta iota fix in He; fold loop in He.
    destruct Hi as [[= -> ->]|Hi].
    - rewrite Hm in He. cbn [rbind] in He. rewrite Hrej in He. discriminate.
    - destruct lv as [| |b|z|loc0|iso|l|m|t d0]; try discriminate.
      apply rbind_Ok in He as (loc & Hloc & He).
      apply rbind_Ok in He as (importData & Hload & He).
      apply rbind_Ok in He as (envB & Hbind & He).
      apply rbind_Ok in He as (si & Hsi & He).
      apply rbind_Ok in He as (sd & Hsd & He).
      destruct (stamp_location (doc importData) loc);
        try (exact (IHe _ _ _ Hi He)).
      destruct (orb (JS.truthy si) (JS.truthy sd)).
      + apply rbind_Ok in He as ([m' acc2] & _ & He). exact (IHe _ _ _ Hi He).
      + exact (IHe _ _ _ Hi He). }
  exact (Hgen _ _ _ _ Hin H1).
Qed.

End ScopeFacts.

Lemma Transform_never_hoisted_witness :
  exists output,
    @transform demoHost 5 noLoader withTransform "root.yaml" = Ok output /\
    Obj.get "Transform" output = Some (VStr "AWS::Serverless").
Proof.
  eexists. split; [reflexivity|].
  edestruct (@Transform_never_hoisted demoHost 5 noLoader withTransform "root.yaml")
    as (root & imports & visited & acc & Hload & Hvisit & _ & Hout).
  - apply wfb_wf. reflexivity.
  - reflexivity.
  - vm_compute in Hload. injection Hload as <- <-.
    vm_compute in Hvisit. injection Hvisit as <- <-.
    exact Hout.
Defined.

Lemma imported_document_scope_witness :
  @visitNode demoHost 3 (VObj importedDoc) "Root.lib" outerEnv []
  = Ok (VObj [("v", VStr "own")], []).
Proof.
  rewrite (@imported_document_scope demoHost 3 importedDoc "Root.lib" outerEnv emptyEnv []
             eq_refl eq_refl eq_refl).
  reflexivity.
Defined.

Lemma remote_document_cannot_import_local_witness :
  ~ exists r, @loadImports demoHost 2 typedLoader importsEnv "s3://bucket/stack.yaml" []
              = Ok r.
Proof.
  intros [r H]. revert H.
  apply (@remote_document_cannot_import_local demoHost 2 typedLoader importsEnv
           "s3://bucket/stack.yaml" [] [("secret", VStr "env:TOKEN")] "secret" "env:TOKEN").
  - intros loc base e He. unfold typedLoader. now rewrite He.
  - left. exists "s3", "//bucket/stack.yaml". repeat split.
  - reflexivity.
  - left. reflexivity.
  - reflexivity.
  - right. exists "env", "TOKEN". repeat split.
Defined.
